(** * A shallow embedding of the BlockChain node

    The development follows the Python sources file by file:
    - [utils/crypto.py]            : [hash_data]
    - [blockchain/block.py]        : [Transaction], [Block]
    - [blockchain/merkle-tree.py]  : [MerkleTree]
    - [consensus/proof_of_work.py] : [ProofOfWork]
    - [blockchain/wallet.py]       : wallet transactions and [Wallet]
    - [blockchain/blockchain.py]   : [Blockchain]

    The Python library functions the sources call ([hashlib.sha256],
    [hashlib.new('ripemd160')], [json.dumps], [float.__repr__]) are written
    out as executable definitions, so that every hash in the development is
    the one the program computes. *)

From Stdlib Require Import ZArith Lia List Bool String Ascii.
From Stdlib.Strings Require Import Byte.
From Stdlib Require Import SpecFloat.
From stdpp Require Import base gmap strings pretty.
Import ListNotations.

Local Open Scope Z_scope.
Local Open Scope list_scope.

(* ===================================================================== *)
(** * Bytes and machine words *)
(* ===================================================================== *)

(** A Python [bytes] object is a list of bytes. *)
Abbreviation bytes := (list byte).

Definition byte_to_Z (b : byte) : Z := Z.of_N (Byte.to_N b).

Definition Z_to_byte (z : Z) : byte :=
  match Byte.of_N (Z.to_N (z mod 256)) with
  | Some b => b
  | None => x00
  end.

(** 32-bit words are integers with the wrap-around written out. *)
Definition wrap32 (x : Z) : Z := x mod 2 ^ 32.
Definition add32 (x y : Z) : Z := wrap32 (x + y).
Definition not32 (x : Z) : Z := 2 ^ 32 - 1 - x.
Definition rotl32 (n x : Z) : Z :=
  Z.lor (wrap32 (Z.shiftl x n)) (Z.shiftr x (32 - n)).
Definition rotr32 (n x : Z) : Z := rotl32 (32 - n) x.

#[global] Instance byte_eq_decision : EqDecision byte := Byte.byte_eq_dec.

(** [int.from_bytes(b, byteorder='big')]. *)
Definition int_from_bytes (b : bytes) : Z :=
  fold_left (fun acc x => acc * 256 + byte_to_Z x) b 0.

(** [v.to_bytes(n, byteorder='big')] for [0 <= v < 256 ^ n]. *)
Fixpoint int_to_bytes (n : nat) (v : Z) : bytes :=
  match n with
  | O => []
  | S n' => int_to_bytes n' (v / 256) ++ [Z_to_byte v]
  end.

Definition int_to_bytes_le (n : nat) (v : Z) : bytes := rev (int_to_bytes n v).
Definition int_from_bytes_le (b : bytes) : Z := int_from_bytes (rev b).

(** Splits 64 bytes into 16 words of 4 bytes. *)
Fixpoint words_of (dec : bytes -> Z) (n : nat) (b : bytes) : list Z :=
  match n with
  | O => []
  | S n' => dec (firstn 4 b) :: words_of dec n' (skipn 4 b)
  end.

(** Merkle-Damgard padding shared by SHA-256 and RIPEMD-160: a [0x80] byte,
    zero bytes up to 56 modulo 64, then the bit length on 8 bytes. *)
Definition md_pad (enc_len : Z -> bytes) (msg : bytes) : bytes :=
  let len := Z.of_nat (List.length msg) in
  msg ++ [x80] ++ repeat x00 (Z.to_nat ((55 - len) mod 64)) ++ enc_len (8 * len).

(* ===================================================================== *)
(** * [hashlib.sha256] (FIPS 180-4) *)
(* ===================================================================== *)

Module SHA256.

(** The first 64 primes. *)
Definition is_prime (k : Z) : bool :=
  forallb (fun d => negb (k mod Z.of_nat d =? 0)) (List.seq 2 (Z.to_nat k - 2)).

Definition primes : list Z :=
  List.filter is_prime (List.map Z.of_nat (List.seq 2 310)).

(** The integer cube root, found bit by bit from bit [bits - 1] down. *)
Fixpoint cbrt_bits (bits : nat) (n acc : Z) : Z :=
  match bits with
  | O => acc
  | S bits' =>
      let candidate := acc + 2 ^ Z.of_nat bits' in
      if candidate ^ 3 <=? n then cbrt_bits bits' n candidate
      else cbrt_bits bits' n acc
  end.

(** The round constants: the first 32 bits of the fractional parts of the
    cube roots of the first 64 primes. *)
Definition K : list Z :=
  Eval vm_compute in
    List.map (fun p => wrap32 (cbrt_bits 44 (p * 2 ^ 96) 0)) primes.

(** The initial hash value: the first 32 bits of the fractional parts of the
    square roots of the first 8 primes. *)
Definition H0 : list Z :=
  Eval vm_compute in
    List.map (fun p => wrap32 (Z.sqrt (p * 2 ^ 64))) (firstn 8 primes).

Definition Ch (x y z : Z) : Z := Z.lxor (Z.land x y) (Z.land (not32 x) z).
Definition Maj (x y z : Z) : Z :=
  Z.lxor (Z.lxor (Z.land x y) (Z.land x z)) (Z.land y z).
Definition Sigma0 (x : Z) : Z :=
  Z.lxor (Z.lxor (rotr32 2 x) (rotr32 13 x)) (rotr32 22 x).
Definition Sigma1 (x : Z) : Z :=
  Z.lxor (Z.lxor (rotr32 6 x) (rotr32 11 x)) (rotr32 25 x).
Definition sigma0 (x : Z) : Z :=
  Z.lxor (Z.lxor (rotr32 7 x) (rotr32 18 x)) (Z.shiftr x 3).
Definition sigma1 (x : Z) : Z :=
  Z.lxor (Z.lxor (rotr32 17 x) (rotr32 19 x)) (Z.shiftr x 10).

(** The message schedule, most recent word first. *)
Fixpoint schedule (n : nat) (w : list Z) : list Z :=
  match n with
  | O => w
  | S n' =>
      let x := add32 (add32 (sigma1 (nth 1 w 0)) (nth 6 w 0))
                     (add32 (sigma0 (nth 14 w 0)) (nth 15 w 0)) in
      schedule n' (x :: w)
  end.

Definition round (s : list Z) (kw : Z * Z) : list Z :=
  match s with
  | [a; b; c; d; e; f; g; h] =>
      let t1 := add32 (add32 (add32 h (Sigma1 e)) (add32 (Ch e f g) (fst kw))) (snd kw) in
      let t2 := add32 (Sigma0 a) (Maj a b c) in
      [add32 t1 t2; a; b; c; add32 d t1; e; f; g]
  | _ => s
  end.

Definition compress (h : list Z) (block : bytes) : list Z :=
  let w := rev (schedule 48 (rev (words_of int_from_bytes 16 block))) in
  let s := fold_left round (combine K w) h in
  map (fun p => add32 (fst p) (snd p)) (combine h s).

Fixpoint blocks (n : nat) (h : list Z) (b : bytes) : list Z :=
  match n with
  | O => h
  | S n' => blocks n' (compress h (firstn 64 b)) (skipn 64 b)
  end.

Definition digest (msg : bytes) : bytes :=
  let p := md_pad (int_to_bytes 8) msg in
  concat (map (int_to_bytes 4) (blocks (List.length p / 64) H0 p)).

End SHA256.

(* ===================================================================== *)
(** * [hashlib.new('ripemd160')] *)
(* ===================================================================== *)

Module RIPEMD160.

Definition Rl : list nat :=
  [ 0; 1; 2; 3; 4; 5; 6; 7; 8; 9; 10; 11; 12; 13; 14; 15;
    7; 4; 13; 1; 10; 6; 15; 3; 12; 0; 9; 5; 2; 14; 11; 8;
    3; 10; 14; 4; 9; 15; 8; 1; 2; 7; 0; 6; 13; 11; 5; 12;
    1; 9; 11; 10; 0; 8; 12; 4; 13; 3; 7; 15; 14; 5; 6; 2;
    4; 0; 5; 9; 7; 12; 2; 10; 14; 1; 3; 8; 11; 6; 15; 13 ]%nat.

Definition Rr : list nat :=
  [ 5; 14; 7; 0; 9; 2; 11; 4; 13; 6; 15; 8; 1; 10; 3; 12;
    6; 11; 3; 7; 0; 13; 5; 10; 14; 15; 8; 12; 4; 9; 1; 2;
    15; 5; 1; 3; 7; 14; 6; 9; 11; 8; 12; 2; 10; 0; 4; 13;
    8; 6; 4; 1; 3; 11; 15; 0; 5; 12; 2; 13; 9; 7; 10; 14;
    12; 15; 10; 4; 1; 5; 8; 7; 6; 2; 13; 14; 0; 3; 9; 11 ]%nat.

Definition Sl : list Z :=
  [ 11; 14; 15; 12; 5; 8; 7; 9; 11; 13; 14; 15; 6; 7; 9; 8;
    7; 6; 8; 13; 11; 9; 7; 15; 7; 12; 15; 9; 11; 7; 13; 12;
    11; 13; 6; 7; 14; 9; 13; 15; 14; 8; 13; 6; 5; 12; 7; 5;
    11; 12; 14; 15; 14; 15; 9; 8; 9; 14; 5; 6; 8; 6; 5; 12;
    9; 15; 5; 11; 6; 8; 13; 12; 5; 12; 13; 14; 11; 8; 5; 6 ].

Definition Sr : list Z :=
  [ 8; 9; 9; 11; 13; 15; 15; 5; 7; 7; 8; 11; 14; 14; 12; 6;
    9; 13; 15; 7; 12; 8; 9; 11; 7; 7; 12; 7; 6; 15; 13; 11;
    9; 7; 15; 11; 8; 6; 6; 14; 12; 13; 5; 14; 13; 13; 7; 5;
    15; 5; 8; 11; 14; 14; 6; 14; 6; 9; 12; 9; 12; 5; 15; 8;
    8; 5; 12; 9; 12; 5; 14; 6; 8; 13; 6; 5; 15; 13; 11; 11 ].

Definition Kl : list Z :=
  [ 0x00000000; 0x5A827999; 0x6ED9EBA1; 0x8F1BBCDC; 0xA953FD4E ].
Definition Kr : list Z :=
  [ 0x50A28BE6; 0x5C4DD124; 0x6D703EF3; 0x7A6D76E9; 0x00000000 ].

Definition H0 : list Z :=
  [ 0x67452301; 0xEFCDAB89; 0x98BADCFE; 0x10325476; 0xC3D2E1F0 ].

(** The boolean function of step [j]. *)
Definition f (j : nat) (x y z : Z) : Z :=
  match (j / 16)%nat with
  | 0%nat => Z.lxor (Z.lxor x y) z
  | 1%nat => Z.lor (Z.land x y) (Z.land (not32 x) z)
  | 2%nat => Z.lxor (Z.lor x (not32 y)) z
  | 3%nat => Z.lor (Z.land x z) (Z.land y (not32 z))
  | _ => Z.lxor x (Z.lor y (not32 z))
  end.

(** One step of one line: [fj] is the index of the boolean function,
    [r], [s], [k] the word index, rotation and constant of the step. *)
Definition step (x : list Z) (fj r : nat) (s k : Z) (v : list Z) : list Z :=
  match v with
  | [a; b; c; d; e] =>
      let t := add32 (rotl32 s (add32 (add32 a (f fj b c d))
                                       (add32 (nth r x 0) k))) e in
      [e; t; b; rotl32 10 c; d]
  | _ => v
  end.

Fixpoint line (x : list Z) (left : bool) (n j : nat) (v : list Z) : list Z :=
  match n with
  | O => v
  | S n' =>
      let v' :=
        if left
        then step x j (nth j Rl 0%nat) (nth j Sl 0) (nth (j / 16) Kl 0) v
        else step x (79 - j) (nth j Rr 0%nat) (nth j Sr 0) (nth (j / 16) Kr 0) v in
      line x left n' (S j) v'
  end.

Definition compress (h : list Z) (block : bytes) : list Z :=
  let x := words_of int_from_bytes_le 16 block in
  match h, line x true 80 0 h, line x false 80 0 h with
  | [h0; h1; h2; h3; h4], [a; b; c; d; e], [a'; b'; c'; d'; e'] =>
      [ add32 (add32 h1 c) d'; add32 (add32 h2 d) e'; add32 (add32 h3 e) a';
        add32 (add32 h4 a) b'; add32 (add32 h0 b) c' ]
  | _, _, _ => h
  end.

Fixpoint blocks (n : nat) (h : list Z) (b : bytes) : list Z :=
  match n with
  | O => h
  | S n' => blocks n' (compress h (firstn 64 b)) (skipn 64 b)
  end.

Definition digest (msg : bytes) : bytes :=
  let p := md_pad (int_to_bytes_le 8) msg in
  concat (map (int_to_bytes_le 4) (blocks (List.length p / 64) H0 p)).

End RIPEMD160.

(** [bytes.hex()] / [hexdigest()]: two lowercase hexadecimal digits per byte. *)
Definition hex_digit (n : Z) : ascii :=
  if n <? 10 then ascii_of_nat (Z.to_nat (48 + n))
  else ascii_of_nat (Z.to_nat (87 + n)).

Fixpoint hex_of_bytes (b : bytes) : string :=
  match b with
  | [] => EmptyString
  | x :: r =>
      String (hex_digit (byte_to_Z x / 16))
        (String (hex_digit (byte_to_Z x mod 16)) (hex_of_bytes r))
  end.

(** The bytes of a string whose characters are all below 128. *)
Definition ascii_bytes (s : string) : bytes := list_byte_of_string s.

(* ===================================================================== *)
(** * Python results: a value or a raised exception *)
(* ===================================================================== *)

Inductive exn : Type :=
  | AttributeError
  | TypeError
  | ValueError
  | KeyError
  | IndexError
  | OverflowError
  | RecursionError
  | InvalidSignature
  | UnsupportedAlgorithm.

Inductive outcome (A : Type) : Type :=
  | Ret (a : A)
  | Raise (e : exn).

Arguments Ret {A} a.
Arguments Raise {A} e.

(** Sequencing stops at the first exception; [x ← m; k] is stdpp's
    notation for it. *)
#[global] Instance outcome_ret : MRet outcome := fun A a => Ret a.
#[global] Instance outcome_bind : MBind outcome :=
  fun A B k m =>
    match m with
    | Ret a => k a
    | Raise e => Raise e
    end.

(* ===================================================================== *)
(** * Python numbers *)
(* ===================================================================== *)

(** A Python [float] is an IEEE 754 binary64 number. *)
Definition prec : Z := 53.
Definition emax : Z := 1024.

(** The numeric fields of the program ([amount], [fee], [timestamp]) are
    annotated [float]; the program itself also passes [int] literals (the
    genesis transaction has [amount=0], [timestamp=0]). *)
Inductive pynum : Type :=
  | PyInt (z : Z)
  | PyFloat (f : spec_float).

(** [float(z)]: round to nearest, ties to even; [OverflowError] when the
    integer is too large for a float. *)
Definition float_of_int (z : Z) : outcome spec_float :=
  match binary_normalize prec emax z 0 false with
  | S754_infinity _ => Raise OverflowError
  | f => Ret f
  end.

(** [bool(x)]. *)
Definition num_truthy (x : pynum) : bool :=
  match x with
  | PyInt z => negb (z =? 0)
  | PyFloat (S754_zero _) => false
  | PyFloat _ => true
  end.

(** [x <= 0]. *)
Definition num_le_zero (x : pynum) : bool :=
  match x with
  | PyInt z => z <=? 0
  | PyFloat f => SFleb f (S754_zero false)
  end.

(** [a + x] and [a - x] for a float [a]. *)
Definition float_add_num (a : spec_float) (x : pynum) : outcome spec_float :=
  match x with
  | PyFloat f => Ret (SFadd prec emax a f)
  | PyInt z => f ← float_of_int z; Ret (SFadd prec emax a f)
  end.

Definition float_sub_num (a : spec_float) (x : pynum) : outcome spec_float :=
  match x with
  | PyFloat f => Ret (SFsub prec emax a f)
  | PyInt z => f ← float_of_int z; Ret (SFsub prec emax a f)
  end.

(** [x + y]. *)
Definition num_add (x y : pynum) : outcome pynum :=
  match x, y with
  | PyInt a, PyInt b => Ret (PyInt (a + b))
  | PyFloat a, _ => f ← float_add_num a y; Ret (PyFloat f)
  | PyInt a, PyFloat b => f ← float_of_int a; Ret (PyFloat (SFadd prec emax f b))
  end.

(* ===================================================================== *)
(** * [float.__repr__]: the shortest decimal string that rounds to the float *)
(* ===================================================================== *)

Module FloatRepr.

(** [b ^ max(e, 0)]. *)
Definition pow_nonneg (b e : Z) : Z := if e <? 0 then 1 else b ^ e.

(** [10 ^ p <= m * 2 ^ e], in integers. *)
Definition ge_pow10 (m : positive) (e p : Z) : bool :=
  pow_nonneg 10 p * pow_nonneg 2 (- e)
  <=? Z.pos m * pow_nonneg 2 e * pow_nonneg 10 (- p).

Fixpoint adjust_log10 (fuel : nat) (m : positive) (e p : Z) : Z :=
  match fuel with
  | O => p
  | S fuel' =>
      if ge_pow10 m e (p + 1) then adjust_log10 fuel' m e (p + 1)
      else if ge_pow10 m e p then p
      else adjust_log10 fuel' m e (p - 1)
  end.

(** The decimal exponent of the leading digit of [m * 2 ^ e]. *)
Definition floor_log10 (m : positive) (e : Z) : Z :=
  adjust_log10 4 m e ((Z.log2 (Z.pos m) + e) * 30103 / 100000).

(** Tries [n] significant digits: the digits [d] and exponent [k] of a decimal
    [d * 10 ^ k] that rounds to [m * 2 ^ e], the closer of the two
    neighbours (the decisions of the digit loop of David Gay's [dtoa]). *)
Definition try_digits (m : positive) (e p n : Z) : option (Z * Z) :=
  let k := p - n + 1 in
  let u := pow_nonneg 2 (e - 2) * pow_nonneg 10 (- k) in
  let s := pow_nonneg 10 k * pow_nonneg 2 (2 - e) in
  let x := 4 * Z.pos m * u in
  let mhi := 2 * u in
  let mlo := if (Z.pos m =? 2 ^ 52) && (-1074 <? e) then u else 2 * u in
  let even := Z.even (Z.pos m) in
  let dlo := x / s in
  let b := x mod s in
  if (b =? s - mhi) && even then
    Some (if mlo <? b then dlo + 1 else dlo, k)
  else if (b <? mlo) || ((b =? mlo) && even) then
    if b =? 0 then Some (dlo, k)
    else if (s - mhi <? b) && ((s <? 2 * b) || ((s =? 2 * b) && Z.odd dlo))
         then Some (dlo + 1, k)
    else Some (dlo, k)
  else if s - mhi <? b then Some (dlo + 1, k)
  else None.

Fixpoint shortest_loop (fuel : nat) (m : positive) (e p n : Z) : Z * Z :=
  match fuel with
  | O => (0, 0)
  | S fuel' =>
      match try_digits m e p n with
      | Some r => r
      | None => shortest_loop fuel' m e p (n + 1)
      end
  end.

(** Trailing zeros of the digits move into the exponent. *)
Fixpoint strip_zeros (fuel : nat) (d k : Z) : Z * Z :=
  match fuel with
  | O => (d, k)
  | S fuel' =>
      if (d mod 10 =? 0) && negb (d =? 0) then strip_zeros fuel' (d / 10) (k + 1)
      else (d, k)
  end.

Fixpoint zeros (n : nat) : string :=
  match n with
  | O => EmptyString
  | S n' => String "0" (zeros n')
  end.

(** Format code ['r']: exponent notation when the decimal point lies more
    than 16 places right or more than 3 places left of the digits. *)
Definition format_short (d k : Z) : string :=
  let ds := pretty d in
  let nd := Z.of_nat (String.length ds) in
  let decpt := k + nd in
  if (decpt <=? -4) || (16 <? decpt) then
    let ex := decpt - 1 in
    let mant :=
      match ds with
      | String c EmptyString => ds
      | String c rest => String c ("." +:+ rest)
      | EmptyString => ds
      end in
    mant +:+ "e" +:+ (if ex <? 0 then "-" else "+")
         +:+ (if Z.abs ex <? 10 then "0" else "") +:+ pretty (Z.abs ex)
  else if decpt <=? 0 then "0." +:+ zeros (Z.to_nat (- decpt)) +:+ ds
  else if nd <=? decpt then ds +:+ zeros (Z.to_nat (decpt - nd)) +:+ ".0"
  else substring 0 (Z.to_nat decpt) ds +:+ "."
         +:+ substring (Z.to_nat decpt) (Z.to_nat (nd - decpt)) ds.

Definition float_repr (f : spec_float) : string :=
  match f with
  | S754_nan => "nan"
  | S754_infinity s => if s then "-inf" else "inf"
  | S754_zero s => if s then "-0.0" else "0.0"
  | S754_finite s m e =>
      let p := floor_log10 m e in
      let '(d, k) := shortest_loop 17 m e p 1 in
      let '(d, k) := strip_zeros 400 d k in
      (if s then "-" else "") +:+ format_short d k
  end.

End FloatRepr.

(* ===================================================================== *)
(** * [json.dumps(..., sort_keys=True)] *)
(* ===================================================================== *)

(** The values the program serializes.  A character of a [string] stands
    for the Unicode code point of the same number (0 to 255). *)
#[local] Set Warnings "-register-all".

Inductive json : Type :=
  | JNull
  | JBool (b : bool)
  | JInt (z : Z)
  | JFloat (f : spec_float)
  | JStr (s : string)
  | JList (l : list json)
  | JDict (d : list (string * json)).

Definition num_json (x : pynum) : json :=
  match x with
  | PyInt z => JInt z
  | PyFloat f => JFloat f
  end.

Definition quote_char : ascii := ascii_of_nat 34.
Definition backslash : ascii := ascii_of_nat 92.

(** [ensure_ascii] escaping of one character. *)
Definition escape_char (c : ascii) : string :=
  let n := Z.of_nat (nat_of_ascii c) in
  if n =? 34 then String backslash (String quote_char EmptyString)
  else if n =? 92 then String backslash (String backslash EmptyString)
  else if n =? 10 then String backslash "n"
  else if n =? 13 then String backslash "r"
  else if n =? 9 then String backslash "t"
  else if n =? 8 then String backslash "b"
  else if n =? 12 then String backslash "f"
  else if (32 <=? n) && (n <=? 126) then String c EmptyString
  else String backslash
         ("u00" +:+ String (hex_digit (n / 16))
                      (String (hex_digit (n mod 16)) EmptyString)).

Fixpoint escape_string (s : string) : string :=
  match s with
  | EmptyString => EmptyString
  | String c rest => escape_char c +:+ escape_string rest
  end.

Definition encode_string (s : string) : string :=
  String quote_char (escape_string s +:+ String quote_char EmptyString).

(** [sep.join(items)]. *)
Fixpoint join (sep : string) (items : list string) : string :=
  match items with
  | [] => EmptyString
  | [x] => x
  | x :: rest => x +:+ sep +:+ join sep rest
  end.

(** [sort_keys=True]: insertion sort of the items by key. *)
Fixpoint insert_item {A : Type} (kv : string * A) (l : list (string * A))
  : list (string * A) :=
  match l with
  | [] => [kv]
  | kv' :: rest =>
      if String.leb (fst kv) (fst kv') then kv :: l
      else kv' :: insert_item kv rest
  end.

Definition sort_items {A : Type} (l : list (string * A)) : list (string * A) :=
  fold_right insert_item [] l.

Definition float_json (f : spec_float) : string :=
  match f with
  | S754_nan => "NaN"
  | S754_infinity s => if s then "-Infinity" else "Infinity"
  | _ => FloatRepr.float_repr f
  end.

(** [json.dumps(j, sort_keys=True)] on the values above.  [JInt z] stands
    for an integer that [int.__repr__] converts: CPython raises [ValueError]
    for an integer of more than 4300 decimal digits, a case this function
    does not model (it returns the digits of every [z]), so no property
    below is read as a statement that serialization never raises. *)
Fixpoint json_dumps (j : json) : string :=
  match j with
  | JNull => "null"
  | JBool b => if b then "true" else "false"
  | JInt z => pretty z
  | JFloat f => float_json f
  | JStr s => encode_string s
  | JList l => "[" +:+ join ", " (List.map json_dumps l) +:+ "]"
  | JDict d =>
      let items := List.map (fun kv => (fst kv, json_dumps (snd kv))) d in
      "{" +:+ join ", "
                (List.map (fun kv => encode_string (fst kv) +:+ ": " +:+ snd kv)
                          (sort_items items))
          +:+ "}"
  end.

(** [d[k]] on a dictionary: [KeyError] when the key is missing. *)
Definition dict_get {V : Type} (d : list (string * V)) (k : string) : outcome V :=
  match List.find (fun kv => String.eqb (fst kv) k) d with
  | Some kv => Ret (snd kv)
  | None => Raise KeyError
  end.

(** Objects are rebuilt from dictionaries by [from_dict].  The fields of the
    records below have the types of the annotations, while Python stores
    whatever value the dictionary holds; the result [None] marks a
    dictionary with a value of another type, about which the embedding says
    nothing. *)
Definition partial (A : Type) : Type := option (outcome A).

Definition partial_bind {A B : Type} (m : partial A) (k : A -> partial B)
  : partial B :=
  match m with
  | Some (Ret a) => k a
  | Some (Raise e) => Some (Raise e)
  | None => None
  end.

Definition as_str (j : json) : partial string :=
  match j with
  | JStr s => Some (Ret s)
  | _ => None
  end.

Definition as_int (j : json) : partial Z :=
  match j with
  | JInt z => Some (Ret z)
  | _ => None
  end.

Definition as_num (j : json) : partial pynum :=
  match j with
  | JInt z => Some (Ret (PyInt z))
  | JFloat f => Some (Ret (PyFloat f))
  | _ => None
  end.

(** [str.encode('utf-8')] for code points below 256. *)
Definition utf8_char (c : ascii) : bytes :=
  let n := Z.of_nat (nat_of_ascii c) in
  if n <? 128 then [byte_of_ascii c]
  else [Z_to_byte (192 + n / 64); Z_to_byte (128 + n mod 64)].

Fixpoint utf8_encode (s : string) : bytes :=
  match s with
  | EmptyString => []
  | String c rest => utf8_char c ++ utf8_encode rest
  end.

(* ===================================================================== *)
(** * [utils/crypto.py] *)
(* ===================================================================== *)

(** The argument of [hash_data]: [Union[str, dict, bytes]]. *)
Inductive data : Type :=
  | DataDict (d : list (string * json))
  | DataStr (s : string)
  | DataBytes (b : bytes).

Definition sha256_hexdigest (b : bytes) : string := hex_of_bytes (SHA256.digest b).

(** [hash_data]: a dict is dumped as JSON with sorted keys, a string is
    encoded as UTF-8, and the bytes are hashed. *)
Definition hash_data (d : data) : string :=
  let d1 := match d with
            | DataDict kv => DataStr (json_dumps (JDict kv))
            | _ => d
            end in
  let d2 := match d1 with
            | DataStr s => DataBytes (utf8_encode s)
            | _ => d1
            end in
  match d2 with
  | DataBytes b => sha256_hexdigest b
  | _ => EmptyString
  end.

(* ===================================================================== *)
(** * [blockchain/block.py]: [Transaction] *)
(* ===================================================================== *)

Module Transaction.

Record t : Type := mk {
  sender : string;
  recipient : string;
  amount : pynum;
  signature : option string;
  timestamp : pynum
}.

Definition to_dict (self : t) : list (string * json) :=
  [ ("sender", JStr (sender self));
    ("recipient", JStr (recipient self));
    ("amount", num_json (amount self));
    ("signature", match signature self with
                  | Some s => JStr s
                  | None => JNull
                  end);
    ("timestamp", num_json (timestamp self)) ]%string.

(** The keyword arguments that the generated [__init__] accepts. *)
Definition field_names : list string :=
  [ "sender"; "recipient"; "amount"; "signature"; "timestamp" ]%string.

(** [Transaction.from_dict(data)]: the class is called with the items of
    [data] as keyword arguments.  A key that is not a field, or a missing
    field without a default, raises [TypeError];
    [signature] defaults to [None] and [timestamp] to [default_timestamp],
    the reading of [time.time()] when the class was defined. *)
Definition from_dict (default_timestamp : spec_float) (data : list (string * json))
  : partial t :=
  if negb (forallb (fun kv => existsb (String.eqb (fst kv)) field_names) data)
  then Some (Raise TypeError)
  else
    match dict_get data "sender", dict_get data "recipient", dict_get data "amount" with
    | Ret sender, Ret recipient, Ret amount =>
        partial_bind (as_str sender) (fun sender =>
        partial_bind (as_str recipient) (fun recipient =>
        partial_bind (as_num amount) (fun amount =>
        partial_bind
          (match dict_get data "signature" with
           | Ret JNull | Raise _ => Some (Ret None)
           | Ret (JStr s) => Some (Ret (Some s))
           | Ret _ => None
           end) (fun signature =>
        partial_bind
          (match dict_get data "timestamp" with
           | Ret j => as_num j
           | Raise _ => Some (Ret (PyFloat default_timestamp))
           end) (fun timestamp =>
        Some (Ret (mk sender recipient amount signature timestamp)))))))
    | _, _, _ => Some (Raise TypeError)
    end.

End Transaction.

(* ===================================================================== *)
(** * [blockchain/wallet.py]: [Transaction] *)
(* ===================================================================== *)

Module WalletTransaction.

Record t : Type := mk {
  sender : string;
  recipient : string;
  amount : pynum;
  timestamp : pynum;
  nonce : Z;
  fee : pynum;
  data : option (list (string * json));
  signature : option string
}.

(** [{k: v for k, v in asdict(self).items() if v is not None}]. *)
Definition to_dict (self : t) : list (string * json) :=
  [ ("sender", JStr (sender self));
    ("recipient", JStr (recipient self));
    ("amount", num_json (amount self));
    ("timestamp", num_json (timestamp self));
    ("nonce", JInt (nonce self));
    ("fee", num_json (fee self)) ]%string
  ++ match data self with
     | Some d => [("data"%string, JDict d)]
     | None => []
     end
  ++ match signature self with
     | Some s => [("signature"%string, JStr s)]
     | None => []
     end.

(** [tx_dict.pop('signature', None)]. *)
Definition pop_signature (d : list (string * json)) : list (string * json) :=
  List.filter (fun kv => negb (String.eqb (fst kv) "signature")) d.

Definition calculate_hash (self : t) : string :=
  let tx_dict := pop_signature (to_dict self) in
  sha256_hexdigest (utf8_encode (json_dumps (JDict tx_dict))).

(** [transaction.signature = s]. *)
Definition set_signature (self : t) (s : option string) : t :=
  mk (sender self) (recipient self) (amount self) (timestamp self)
     (nonce self) (fee self) (data self) s.

End WalletTransaction.

(** The objects found in a transaction list: instances of either class.
    Attribute access that a class does not provide raises [AttributeError]. *)
Inductive tx_object : Type :=
  | BlockTx (t : Transaction.t)
  | WalletTx (t : WalletTransaction.t).

Definition tx_sender (tx : tx_object) : string :=
  match tx with
  | BlockTx t => Transaction.sender t
  | WalletTx t => WalletTransaction.sender t
  end.

Definition tx_recipient (tx : tx_object) : string :=
  match tx with
  | BlockTx t => Transaction.recipient t
  | WalletTx t => WalletTransaction.recipient t
  end.

Definition tx_amount (tx : tx_object) : pynum :=
  match tx with
  | BlockTx t => Transaction.amount t
  | WalletTx t => WalletTransaction.amount t
  end.

Definition tx_signature (tx : tx_object) : option string :=
  match tx with
  | BlockTx t => Transaction.signature t
  | WalletTx t => WalletTransaction.signature t
  end.

Definition tx_to_dict (tx : tx_object) : list (string * json) :=
  match tx with
  | BlockTx t => Transaction.to_dict t
  | WalletTx t => WalletTransaction.to_dict t
  end.

(** [tx.fee]: only the wallet's class has the field. *)
Definition tx_fee (tx : tx_object) : outcome pynum :=
  match tx with
  | BlockTx _ => Raise AttributeError
  | WalletTx t => Ret (WalletTransaction.fee t)
  end.

(** [tx.calculate_hash()]: only the wallet's class has the method. *)
Definition tx_calculate_hash (tx : tx_object) : outcome string :=
  match tx with
  | BlockTx _ => Raise AttributeError
  | WalletTx t => Ret (WalletTransaction.calculate_hash t)
  end.

(** [isinstance(tx, Transaction)] inside [block.py]. *)
Definition isinstance_Transaction (tx : tx_object) : bool :=
  match tx with
  | BlockTx _ => true
  | WalletTx _ => false
  end.

(* ===================================================================== *)
(** * Merkle levels, shared by [block.py] and [merkle-tree.py] *)
(* ===================================================================== *)

(** [if len(l) % 2 == 1: l.append(l[-1])]. *)
Definition pad_odd {A : Type} (l : list A) : list A :=
  if Nat.odd (List.length l) then
    match l with
    | x :: rest => l ++ [List.last rest x]
    | [] => l
    end
  else l.

(** ['0' * n]. *)
Definition zeros_string (n : Z) : string := FloatRepr.zeros (Z.to_nat n).

(* ===================================================================== *)
(** * [blockchain/block.py]: [Block] *)
(* ===================================================================== *)

Module Block.

Record t : Type := mk {
  version : string;
  timestamp : pynum;
  previous_hash : string;
  miner : string;
  transactions : list tx_object;
  nonce : Z;
  difficulty : Z;
  merkle_root : string;
  hash : string
}.

(** [[hash_data(leaves[i] + leaves[i + 1]) for i in range(0, len(leaves), 2)]]
    on a list of even length. *)
Fixpoint pair_hashes (leaves : list string) : list string :=
  match leaves with
  | a :: b :: rest => hash_data (DataStr (a +:+ b)) :: pair_hashes rest
  | _ => []
  end.

(** [while len(leaves) > 1: ...]; every pass halves the list, [fuel] bounds
    the passes. *)
Fixpoint merkle_loop (fuel : nat) (leaves : list string) : list string :=
  match fuel with
  | O => leaves
  | S fuel' =>
      if (1 <? List.length leaves)%nat
      then merkle_loop fuel' (pair_hashes (pad_odd leaves))
      else leaves
  end.

Definition _calculate_merkle_root (transactions : list tx_object) : string :=
  match transactions with
  | [] => hash_data (DataStr "empty_block")
  | _ =>
      let leaves :=
        List.map (fun tx => hash_data (DataDict (tx_to_dict tx))) transactions in
      List.hd EmptyString (merkle_loop (List.length leaves) leaves)
  end.

Definition block_dict (self : t) : list (string * json) :=
  [ ("version", JStr (version self));
    ("timestamp", num_json (timestamp self));
    ("previous_hash", JStr (previous_hash self));
    ("miner", JStr (miner self));
    ("transactions",
      JList (List.map (fun tx => JDict (tx_to_dict tx)) (transactions self)));
    ("nonce", JInt (nonce self));
    ("difficulty", JInt (difficulty self));
    ("merkle_root", JStr (merkle_root self)) ]%string.

Definition calculate_hash (self : t) : string :=
  hash_data (DataDict (block_dict self)).

Definition set_merkle_root (self : t) (r : string) : t :=
  mk (version self) (timestamp self) (previous_hash self) (miner self)
     (transactions self) (nonce self) (difficulty self) r (hash self).

Definition set_hash (self : t) (h : string) : t :=
  mk (version self) (timestamp self) (previous_hash self) (miner self)
     (transactions self) (nonce self) (difficulty self) (merkle_root self) h.

Definition set_nonce (self : t) (n : Z) : t :=
  mk (version self) (timestamp self) (previous_hash self) (miner self)
     (transactions self) n (difficulty self) (merkle_root self) (hash self).

(** [Block.__init__]; [now] is what [time.time()] returns when the
    [timestamp] argument is [None] or falsy ([timestamp or time.time()]). *)
Definition init (now : spec_float) (miner : string)
    (transactions : list tx_object) (previous_hash : string)
    (timestamp : option pynum) (nonce : Z) (difficulty : Z) : t :=
  let ts := match timestamp with
            | Some x => if num_truthy x then x else PyFloat now
            | None => PyFloat now
            end in
  let self := mk "1.0" ts previous_hash miner transactions nonce difficulty
                 EmptyString EmptyString in
  let self := set_merkle_root self (_calculate_merkle_root transactions) in
  set_hash self (calculate_hash self).

Definition is_valid (self : t) : bool :=
  if negb (String.eqb (hash self) (calculate_hash self)) then false
  else if negb (String.prefix (zeros_string (difficulty self)) (hash self))
  then false
  else if negb (forallb isinstance_Transaction (transactions self)) then false
  else true.

Definition to_dict (self : t) : list (string * json) :=
  [ ("version", JStr (version self));
    ("timestamp", num_json (timestamp self));
    ("previous_hash", JStr (previous_hash self));
    ("miner", JStr (miner self));
    ("transactions",
      JList (List.map (fun tx => JDict (tx_to_dict tx)) (transactions self)));
    ("nonce", JInt (nonce self));
    ("difficulty", JInt (difficulty self));
    ("merkle_root", JStr (merkle_root self));
    ("hash", JStr (hash self)) ]%string.

(** [[Transaction.from_dict(tx) for tx in items]]: keyword arguments are
    unpacked from a mapping, so an item that is not a dictionary raises
    [TypeError]. *)
Fixpoint transactions_from (default_timestamp : spec_float) (items : list json)
  : partial (list tx_object) :=
  match items with
  | [] => Some (Ret [])
  | JDict d :: rest =>
      partial_bind (Transaction.from_dict default_timestamp d) (fun tx =>
      partial_bind (transactions_from default_timestamp rest) (fun txs =>
      Some (Ret (BlockTx tx :: txs))))
  | _ :: rest => Some (Raise TypeError)
  end.

(** The iteration [for tx in data['transactions']]: a list gives its items,
    a dictionary its keys and a string its characters (none of which is a
    mapping); other values are not iterable. *)
Definition transactions_of (default_timestamp : spec_float) (j : json)
  : partial (list tx_object) :=
  match j with
  | JList items => transactions_from default_timestamp items
  | JDict [] | JStr EmptyString => Some (Ret [])
  | _ => Some (Raise TypeError)
  end.

(** [Block.from_dict(data)]: the block is built by the constructor, which
    computes the Merkle root and the hash again and replaces a missing or
    falsy timestamp by [now]; then [data['hash']] is stored. *)
Definition from_dict (now default_timestamp : spec_float)
    (data : list (string * json)) : partial t :=
  partial_bind (Some (dict_get data "transactions")) (fun items =>
  partial_bind (transactions_of default_timestamp items) (fun transactions =>
  partial_bind (Some (dict_get data "miner")) (fun miner =>
  partial_bind (Some (dict_get data "previous_hash")) (fun previous_hash =>
  partial_bind (Some (dict_get data "timestamp")) (fun timestamp =>
  partial_bind (Some (dict_get data "nonce")) (fun nonce =>
  partial_bind (Some (dict_get data "difficulty")) (fun difficulty =>
  partial_bind (as_str miner) (fun miner =>
  partial_bind (as_str previous_hash) (fun previous_hash =>
  partial_bind
    (match timestamp with
     | JNull => Some (Ret None)
     | j => partial_bind (as_num j) (fun x => Some (Ret (Some x)))
     end) (fun timestamp =>
  partial_bind (as_int nonce) (fun nonce =>
  partial_bind (as_int difficulty) (fun difficulty =>
  let block :=
    init now miner transactions previous_hash timestamp nonce difficulty in
  partial_bind (Some (dict_get data "hash")) (fun hash =>
  partial_bind (as_str hash) (fun hash =>
  Some (Ret (set_hash block hash)))))))))))))))).

End Block.

(* ===================================================================== *)
(** * [blockchain/merkle-tree.py] *)
(* ===================================================================== *)

Module MerkleTree.

Inductive MerkleNode : Type :=
  | Node (hash : string) (left right : option MerkleNode).

Definition node_hash (n : MerkleNode) : string :=
  match n with Node h _ _ => h end.

Record t : Type := mk {
  transactions : list (list (string * json));
  leaves : list MerkleNode;
  root : option MerkleNode
}.

(** The parents of one level of even length. *)
Fixpoint parents (nodes : list MerkleNode) : list MerkleNode :=
  match nodes with
  | a :: b :: rest =>
      Node (hash_data (DataStr (node_hash a +:+ node_hash b))) (Some a) (Some b)
      :: parents rest
  | _ => []
  end.

(** [while len(nodes) > 1: ...] of [_build_tree]. *)
Fixpoint build_loop (fuel : nat) (nodes : list MerkleNode) : list MerkleNode :=
  match fuel with
  | O => nodes
  | S fuel' =>
      if (1 <? List.length nodes)%nat
      then build_loop fuel' (parents (pad_odd nodes))
      else nodes
  end.

(** The nodes of level [k] of the tree over [nodes], an odd level padded as
    the loops pad it: level 0 holds the nodes themselves, every other level
    the parents of the level below. *)
Fixpoint level (k : nat) (nodes : list MerkleNode) : list MerkleNode :=
  match k with
  | O => pad_odd nodes
  | S k' => level k' (parents (pad_odd nodes))
  end.

(** [MerkleTree.__init__] and [_build_tree].  [nodes = self.leaves] binds
    the same list object, so the [append] of the first pass also extends
    [self.leaves]; later passes work on fresh [parents] lists. *)
Definition init (transactions : list (list (string * json))) : t :=
  let leaves :=
    List.map (fun tx => Node (hash_data (DataDict tx)) None None) transactions in
  match leaves with
  | [] => mk transactions [] (Some (Node (hash_data (DataStr "empty_tree")) None None))
  | _ =>
      let nodes := build_loop (List.length leaves) leaves in
      let leaves' := if (1 <? List.length leaves)%nat then pad_odd leaves else leaves in
      mk transactions leaves' (List.head nodes)
  end.

Definition get_root_hash (self : t) : string :=
  match root self with
  | Some r => node_hash r
  | None => EmptyString
  end.

(** One entry of a proof: [{'hash': ..., 'position': ...}]. *)
Record step : Type := mk_step {
  step_hash : string;
  position : string
}.

(** [for i, leaf in enumerate(self.leaves): if leaf.hash == h: ...; break]. *)
Fixpoint find_leaf (leaves : list MerkleNode) (transaction_hash : string) (i : nat)
  : option nat :=
  match leaves with
  | [] => None
  | leaf :: rest =>
      if String.eqb (node_hash leaf) transaction_hash then Some i
      else find_leaf rest transaction_hash (S i)
  end.

(** [while len(nodes) > 1: ...] of [get_proof]; [nodes[sibling_index]] is
    read after the padding, so the index is in range. *)
Fixpoint proof_loop (fuel : nat) (nodes : list MerkleNode) (current_index : nat)
  : list step :=
  match fuel with
  | O => []
  | S fuel' =>
      if (1 <? List.length nodes)%nat then
        let nodes := pad_odd nodes in
        let is_right := Nat.even current_index in
        let sibling_index :=
          if is_right then (current_index + 1)%nat else (current_index - 1)%nat in
        match List.nth_error nodes sibling_index with
        | Some sibling =>
            mk_step (node_hash sibling) (if is_right then "right" else "left")
            :: proof_loop fuel' (parents nodes) (current_index / 2)
        | None => []
        end
      else []
  end.

(** [get_proof]: the proof, and the tree after the call ([nodes = self.leaves]
    again shares the list, so a first pass over an odd level appends to it). *)
Definition get_proof (self : t) (transaction_hash : string) : list step * t :=
  match root self with
  | None => ([], self)
  | Some _ =>
      match find_leaf (leaves self) transaction_hash 0 with
      | None => ([], self)
      | Some leaf_index =>
          let nodes := leaves self in
          let leaves' := if (1 <? List.length nodes)%nat then pad_odd nodes else nodes in
          (proof_loop (List.length nodes) nodes leaf_index,
           mk (transactions self) leaves' (root self))
      end
  end.

(** The body of the loop of [verify_proof]. *)
Definition verify_step (current_hash : string) (step : step) : string :=
  let sibling_hash := step_hash step in
  if String.eqb (position step) "left"
  then hash_data (DataStr (sibling_hash +:+ current_hash))
  else hash_data (DataStr (current_hash +:+ sibling_hash)).

Definition verify_proof (transaction_hash : string) (proof : list step)
    (root_hash : string) : bool :=
  let current_hash := fold_left verify_step proof transaction_hash in
  String.eqb current_hash root_hash.

End MerkleTree.

(* ===================================================================== *)
(** * [consensus/proof_of_work.py] *)
(* ===================================================================== *)

Module ProofOfWork.

Record t : Type := mk {
  difficulty : Z;
  target : string
}.

Definition init (difficulty : Z) : t := mk difficulty (zeros_string difficulty).

(** [block.height]: [Block] objects have no such attribute. *)
Definition block_height (block : Block.t) : outcome Z := Raise AttributeError.

(** [for nonce in range(max_nonce): ...]: the first nonce from [nonce] on,
    among [n] candidates, whose hash starts with the target. *)
Fixpoint mine_loop (self : t) (n : nat) (nonce : Z) (block : Block.t)
  : Block.t * bool :=
  match n with
  | O => (block, false)
  | S n' =>
      let block := Block.set_nonce block nonce in
      let block_hash := Block.calculate_hash block in
      if String.prefix (target self) block_hash
      then (Block.set_hash block block_hash, true)
      else mine_loop self n' (nonce + 1) block
  end.

(** [mine]: the log line that opens it formats [block.height], which raises
    before the loop is entered. *)
Definition mine (self : t) (block : Block.t) : outcome (Block.t * bool) :=
  _ ← block_height block;
  Ret (mine_loop self (Z.to_nat (2 ^ 32)) 0 block).

Definition validate (self : t) (block : Block.t) : bool :=
  let block_hash := Block.calculate_hash block in
  if negb (String.eqb block_hash (Block.hash block)) then false
  else if negb (String.prefix (target self) block_hash) then false
  else true.

End ProofOfWork.

(* ===================================================================== *)
(** * [blockchain/blockchain.py] *)
(* ===================================================================== *)

(** A Python [dict] keyed by strings keeps its items in insertion order. *)
Section Dict.
Context {V : Type}.

Definition dict_has (d : list (string * V)) (k : string) : bool :=
  existsb (fun kv => String.eqb (fst kv) k) d.

(** [d[k] = v]: an existing key keeps its place. *)
Definition dict_set (d : list (string * V)) (k : string) (v : V)
  : list (string * V) :=
  if dict_has d k
  then List.map (fun kv => if String.eqb (fst kv) k then (k, v) else kv) d
  else d ++ [(k, v)].

(** [del d[k]]: [KeyError] when the key is missing. *)
Definition dict_del (d : list (string * V)) (k : string)
  : outcome (list (string * V)) :=
  if dict_has d k
  then Ret (List.filter (fun kv => negb (String.eqb (fst kv) k)) d)
  else Raise KeyError.
End Dict.

Module Blockchain.

Record t : Type := mk {
  difficulty : Z;
  unconfirmed_transactions : list tx_object;
  chain : list Block.t;
  orphan_blocks : list (string * Block.t);
  pending_blocks : list (string * Block.t);
  known_transactions : gset string;
  pow : ProofOfWork.t
}.

Definition set_chain (self : t) (c : list Block.t) : t :=
  mk (difficulty self) (unconfirmed_transactions self) c (orphan_blocks self)
     (pending_blocks self) (known_transactions self) (pow self).

Definition set_pending_blocks (self : t) (p : list (string * Block.t)) : t :=
  mk (difficulty self) (unconfirmed_transactions self) (chain self)
     (orphan_blocks self) p (known_transactions self) (pow self).

Definition set_unconfirmed_transactions (self : t) (u : list tx_object) : t :=
  mk (difficulty self) u (chain self) (orphan_blocks self)
     (pending_blocks self) (known_transactions self) (pow self).

Definition set_known_transactions (self : t) (k : gset string) : t :=
  mk (difficulty self) (unconfirmed_transactions self) (chain self)
     (orphan_blocks self) (pending_blocks self) k (pow self).

Definition genesis_tx : Transaction.t :=
  Transaction.mk "0" "Genesis" (PyInt 0) (Some "0"%string) (PyInt 0).

(** [create_genesis_block]: the block is built with [timestamp=0], which
    [Block.__init__] replaces by the clock. *)
Definition genesis_block (now : spec_float) (difficulty : Z) : Block.t :=
  Block.init now "Genesis" [BlockTx genesis_tx] (FloatRepr.zeros 64)
             (Some (PyInt 0)) 0 difficulty.

(** [Blockchain.__init__]; [now] is the reading of [time.time()]. *)
Definition init (now : spec_float) (difficulty : Z) : t :=
  mk difficulty [] [genesis_block now difficulty] [] [] ∅
     (ProofOfWork.init difficulty).

(** [self.chain[-1]]. *)
Definition last_block (self : t) : outcome Block.t :=
  match chain self with
  | [] => Raise IndexError
  | b :: rest => Ret (List.last rest b)
  end.

Definition validate_transaction (transaction : tx_object) : bool :=
  if String.eqb (tx_sender transaction) EmptyString
     || String.eqb (tx_recipient transaction) EmptyString then false
  else if num_le_zero (tx_amount transaction) then false
  else
    match tx_signature transaction with
    | None => false
    | Some s => if String.eqb s EmptyString then false else true
    end.

Definition add_transaction (self : t) (transaction : tx_object)
  : t * outcome bool :=
  match tx_calculate_hash transaction with
  | Raise e => (self, Raise e)
  | Ret tx_hash =>
      if bool_decide (tx_hash ∈ known_transactions self) then (self, Ret false)
      else if negb (validate_transaction transaction) then (self, Ret false)
      else
        let self :=
          set_unconfirmed_transactions self
            (unconfirmed_transactions self ++ [transaction]) in
        let self :=
          set_known_transactions self (known_transactions self ∪ {[tx_hash]}) in
        (self, Ret true)
  end.

(** [for block_hash, block in list(self.pending_blocks.items()): ...] of
    [_process_pending_blocks]; the result is [added_blocks]. *)
Fixpoint scan_pending (add_block : t -> Block.t -> t * outcome bool)
    (items : list (string * Block.t)) (self : t) : t * outcome bool :=
  match items with
  | [] => (self, Ret false)
  | (block_hash, block) :: rest =>
      match last_block self with
      | Raise e => (self, Raise e)
      | Ret last =>
          if String.eqb (Block.previous_hash block) (Block.hash last) then
            match add_block self block with
            | (self, Raise e) => (self, Raise e)
            | (self, Ret true) =>
                match dict_del (pending_blocks self) block_hash with
                | Raise e => (self, Raise e)
                | Ret p => (set_pending_blocks self p, Ret true)
                end
            | (self, Ret false) => scan_pending add_block rest self
            end
          else scan_pending add_block rest self
      end
  end.

(** [while added_blocks: ...]: a pass that adds a block removes an entry of
    [pending_blocks], so [n] passes suffice when [n] exceeds their number. *)
Fixpoint drain_pending (add_block : t -> Block.t -> t * outcome bool)
    (n : nat) (self : t) : t * outcome unit :=
  match n with
  | O => (self, Ret tt)
  | S n' =>
      match scan_pending add_block (pending_blocks self) self with
      | (self, Raise e) => (self, Raise e)
      | (self, Ret true) => drain_pending add_block n' self
      | (self, Ret false) => (self, Ret tt)
      end
  end.

Definition _process_pending_blocks
    (add_block : t -> Block.t -> t * outcome bool) (self : t) : t * outcome unit :=
  drain_pending add_block (S (List.length (pending_blocks self))) self.

(** [add_block] and [_process_pending_blocks] call each other; [depth] is
    the number of nested calls the interpreter's stack still allows, and a
    call beyond it raises [RecursionError]. *)
Fixpoint add_block (depth : nat) (self : t) (block : Block.t)
  : t * outcome bool :=
  if negb (Block.is_valid block) then (self, Ret false)
  else
    match last_block self with
    | Raise e => (self, Raise e)
    | Ret last =>
        if String.eqb (Block.previous_hash block) (Block.hash last) then
          if negb (ProofOfWork.validate (pow self) block) then (self, Ret false)
          else
            let self := set_chain self (chain self ++ [block]) in
            match depth with
            | O => (self, Raise RecursionError)
            | S depth' =>
                match _process_pending_blocks (add_block depth') self with
                | (self, Raise e) => (self, Raise e)
                | (self, Ret _) => (self, Ret true)
                end
            end
        else
          (set_pending_blocks self
             (dict_set (pending_blocks self) (Block.hash block) block),
           Ret false)
    end.

(** [mine_block]; the result is the mined block or [None]. *)
Definition mine_block (depth : nat) (now : spec_float) (self : t)
    (miner_address : string) : t * outcome (option Block.t) :=
  match unconfirmed_transactions self with
  | [] => (self, Ret None)
  | _ =>
      match last_block self with
      | Raise e => (self, Raise e)
      | Ret last =>
          let new_block :=
            Block.init now miner_address
              (firstn 10 (unconfirmed_transactions self)) (Block.hash last)
              None 0 (difficulty self) in
          match ProofOfWork.mine (pow self) new_block with
          | Raise e => (self, Raise e)
          | Ret (new_block, true) =>
              let self :=
                set_unconfirmed_transactions self
                  (skipn 10 (unconfirmed_transactions self)) in
              match add_block depth self new_block with
              | (self, Raise e) => (self, Raise e)
              | (self, Ret true) => (self, Ret (Some new_block))
              | (self, Ret false) => (self, Ret None)
              end
          | Ret (_, false) => (self, Ret None)
          end
      end
  end.

(** The inner loop of [get_balance] over one block. *)
Fixpoint balance_txs (address : string) (txs : list tx_object)
    (balance : spec_float) : outcome spec_float :=
  match txs with
  | [] => Ret balance
  | tx :: rest =>
      balance ← (if String.eqb (tx_recipient tx) address
                 then float_add_num balance (tx_amount tx) else Ret balance);
      balance ← (if String.eqb (tx_sender tx) address
                 then float_sub_num balance (tx_amount tx) else Ret balance);
      balance_txs address rest balance
  end.

Fixpoint balance_blocks (address : string) (blocks : list Block.t)
    (balance : spec_float) : outcome spec_float :=
  match blocks with
  | [] => Ret balance
  | block :: rest =>
      balance ← balance_txs address (Block.transactions block) balance;
      balance_blocks address rest balance
  end.

Definition get_balance (self : t) (address : string) : outcome spec_float :=
  balance_blocks address (chain self) (S754_zero false).

(** The loop [for i in range(1, len(chain))] shared by [verify_chain] and
    [_validate_chain]: [previous] is [chain[i-1]]. *)
Fixpoint check_blocks (pow : ProofOfWork.t) (previous : Block.t)
    (rest : list Block.t) : bool :=
  match rest with
  | [] => true
  | current :: rest' =>
      if negb (Block.is_valid current) then false
      else if negb (String.eqb (Block.previous_hash current) (Block.hash previous))
      then false
      else if negb (ProofOfWork.validate pow current) then false
      else check_blocks pow current rest'
  end.

Definition verify_chain (self : t) : bool :=
  match chain self with
  | [] => true
  | first :: rest => check_blocks (pow self) first rest
  end.

Definition _validate_chain (self : t) (chain' : list Block.t) : outcome bool :=
  match chain' with
  | [] => Ret false
  | first :: rest =>
      match chain self with
      | [] => Raise IndexError
      | genesis :: _ =>
          if negb (String.eqb (Block.hash first) (Block.hash genesis))
          then Ret false
          else Ret (check_blocks (pow self) first rest)
      end
  end.

Definition replace_chain (self : t) (new_chain : list Block.t)
  : t * outcome bool :=
  match _validate_chain self new_chain with
  | Raise e => (self, Raise e)
  | Ret false => (self, Ret false)
  | Ret true =>
      if (List.length new_chain <=? List.length (chain self))%nat
      then (self, Ret false)
      else (set_chain self new_chain, Ret true)
  end.

End Blockchain.

(* ===================================================================== *)
(** * [blockchain/wallet.py]: [Wallet] *)
(* ===================================================================== *)

Module Wallet.

Definition alphabet : string :=
  "123456789ABCDEFGHJKLMNPQRSTUVWXYZabcdefghijkmnopqrstuvwxyz".

(** [alphabet[i]] for [0 <= i < 58]. *)
Definition alphabet_at (i : nat) : ascii :=
  match String.get i alphabet with
  | Some c => c
  | None => "000"%char
  end.

(** [while value: value, mod = divmod(value, 58); result = alphabet[mod] + result].
    Every iteration at least halves [value]; [fuel] bounds the iterations and
    [None] stands for a loop that is cut short. *)
Fixpoint b58_loop (fuel : nat) (value : Z) (result : string) : option string :=
  if value =? 0 then Some result
  else
    match fuel with
    | O => None
    | S fuel' =>
        b58_loop fuel' (value / 58)
          (String (alphabet_at (Z.to_nat (value mod 58))) result)
    end.

(** [for byte in versioned_hash: if byte == 0: result = alphabet[0] + result
    else: break]. *)
Fixpoint leading_zeros (versioned_hash : bytes) (result : string) : string :=
  match versioned_hash with
  | x00 :: rest => leading_zeros rest (String (alphabet_at 0) result)
  | _ => result
  end.

(** [Wallet._generate_address], from the compressed point [public_bytes] of the
    wallet's public key. *)
Definition _generate_address (public_bytes : bytes) : option string :=
  let sha256_hash := SHA256.digest public_bytes in
  let ripemd160_hash := RIPEMD160.digest sha256_hash in
  let versioned_hash := x00 :: ripemd160_hash in
  let checksum := firstn 4 (SHA256.digest (SHA256.digest versioned_hash)) in
  let binary_address := versioned_hash ++ checksum in
  let value := int_from_bytes binary_address in
  match b58_loop (8 * List.length binary_address) value EmptyString with
  | Some result => Some (leading_zeros versioned_hash result)
  | None => None
  end.

(** [for char in address: value = value * 58 + alphabet.index(char)];
    [str.index] raises [ValueError] for a character outside the alphabet. *)
Fixpoint b58_decode (address : string) (value : Z) : outcome Z :=
  match address with
  | EmptyString => Ret value
  | String char rest =>
      match String.index 0 (String char EmptyString) alphabet with
      | Some i => b58_decode rest (value * 58 + Z.of_nat i)
      | None => Raise ValueError
      end
  end.

(** [int.bit_length] of a non-negative integer. *)
Definition bit_length (v : Z) : Z := if v =? 0 then 0 else Z.log2 v + 1.

(** [Wallet._is_valid_address]: every exception is caught and gives [False]. *)
Definition _is_valid_address (address : string) : bool :=
  match b58_decode address 0 with
  | Raise _ => false
  | Ret value =>
      let binary_address :=
        int_to_bytes (Z.to_nat ((bit_length value + 7) / 8)) value in
      if negb (List.length binary_address =? 25)%nat then false
      else
        let n := List.length binary_address in
        let versioned_hash := firstn (n - 4) binary_address in
        let checksum := skipn (n - 4) binary_address in
        let calculated_checksum :=
          firstn 4 (SHA256.digest (SHA256.digest versioned_hash)) in
        bool_decide (checksum = calculated_checksum)
  end.

(** [bytes.fromhex]: pairs of hexadecimal digits, ASCII whitespace between
    them skipped; [ValueError] otherwise. *)
Definition hex_value (c : ascii) : option Z :=
  let n := Z.of_nat (nat_of_ascii c) in
  if (48 <=? n) && (n <=? 57) then Some (n - 48)
  else if (97 <=? n) && (n <=? 102) then Some (n - 87)
  else if (65 <=? n) && (n <=? 70) then Some (n - 55)
  else None.

Definition is_space (c : ascii) : bool :=
  let n := Z.of_nat (nat_of_ascii c) in
  (n =? 32) || ((9 <=? n) && (n <=? 13)).

Fixpoint bytes_fromhex (s : string) : outcome bytes :=
  match s with
  | EmptyString => Ret []
  | String c rest =>
      if is_space c then bytes_fromhex rest
      else
        match hex_value c, rest with
        | Some hi, String c' rest' =>
            match hex_value c' with
            | Some lo =>
                tail ← bytes_fromhex rest';
                Ret (Z_to_byte (16 * hi + lo) :: tail)
            | None => Raise ValueError
            end
        | _, _ => Raise ValueError
        end
  end.

Section Crypto.
(** The calls into the [cryptography] and [base64] libraries.  A failure
    of [load_pem_public_key] is a [ValueError] or an
    [UnsupportedAlgorithm]; [binascii.Error], raised by [b64decode] on
    malformed text, is a [ValueError]; a failed [verify] raises
    [InvalidSignature]. *)
Variable public_key : Type.
Variable load_pem_public_key : bytes -> outcome public_key.
Variable b64decode_str : string -> outcome bytes.
Variable ecdsa_verify : public_key -> bytes -> bytes -> outcome unit.

(** [base64.b64decode(s)]: an argument that is neither a string nor
    bytes-like, such as [None], raises [TypeError]. *)
Definition b64decode (s : option string) : outcome bytes :=
  match s with
  | None => Raise TypeError
  | Some s => b64decode_str s
  end.

(** [Wallet.verify_transaction]: [except (InvalidSignature, ValueError)]. *)
Definition verify_transaction (transaction : WalletTransaction.t)
    (public_key_bytes : bytes) : outcome bool :=
  let body :=
    public_key ← load_pem_public_key public_key_bytes;
    signature ← b64decode (WalletTransaction.signature transaction);
    tx_hash ← bytes_fromhex (WalletTransaction.calculate_hash transaction);
    _ ← ecdsa_verify public_key signature tx_hash;
    Ret true in
  match body with
  | Raise InvalidSignature => Ret false
  | Raise ValueError => Ret false
  | r => r
  end.
End Crypto.

(** The loops of [Wallet.get_balance]; [seen] is [seen_transactions]. *)
Fixpoint balance_txs (address : string) (txs : list tx_object)
    (seen : gset string) (balance : spec_float)
  : outcome (gset string * spec_float) :=
  match txs with
  | [] => Ret (seen, balance)
  | tx :: rest =>
      tx_hash ← tx_calculate_hash tx;
      if bool_decide (tx_hash ∈ seen) then balance_txs address rest seen balance
      else
        let seen := seen ∪ {[tx_hash]} in
        balance ← (if String.eqb (tx_recipient tx) address
                   then float_add_num balance (tx_amount tx) else Ret balance);
        balance ← (if String.eqb (tx_sender tx) address
                   then fee ← tx_fee tx;
                        debit ← num_add (tx_amount tx) fee;
                        float_sub_num balance debit
                   else Ret balance);
        balance_txs address rest seen balance
  end.

Fixpoint balance_blocks (address : string) (blocks : list Block.t)
    (seen : gset string) (balance : spec_float) : outcome spec_float :=
  match blocks with
  | [] => Ret balance
  | block :: rest =>
      '(seen, balance) ← balance_txs address (Block.transactions block) seen balance;
      balance_blocks address rest seen balance
  end.

(** [Wallet.get_balance] of the wallet with address [address]. *)
Definition get_balance (address : string) (blockchain : Blockchain.t)
  : outcome spec_float :=
  balance_blocks address (Blockchain.chain blockchain) ∅ (S754_zero false).

(** The fields of a [Wallet] object that [create_transaction] reads and
    writes; the key pair stays behind the library calls. *)
Record t : Type := mk {
  version : string;
  address : string;
  transaction_history : list WalletTransaction.t;
  nonce : Z
}.

Definition set_nonce (self : t) (n : Z) : t :=
  mk (version self) (address self) (transaction_history self) n.

(** [x < 0]. *)
Definition num_lt_zero (x : pynum) : bool :=
  match x with
  | PyInt z => z <? 0
  | PyFloat f => SFltb f (S754_zero false)
  end.

Section Signing.
(** [self._private_key.sign(data, ec.ECDSA(hashes.SHA256()))] and
    [base64.b64encode(b).decode('utf-8')]. *)
Variable ecdsa_sign : bytes -> outcome bytes.
Variable b64encode : bytes -> string.

Definition _sign_transaction (transaction : WalletTransaction.t) : outcome string :=
  let tx_hash := WalletTransaction.calculate_hash transaction in
  data ← bytes_fromhex tx_hash;
  signature ← ecdsa_sign data;
  Ret (b64encode signature).

(** [create_transaction]; [now] is the reading of [time.time()].  The
    result is the wallet after the call and the transaction or the
    exception. *)
Definition create_transaction (now : spec_float) (self : t) (recipient : string)
    (amount fee : pynum) (data : option (list (string * json)))
  : t * outcome WalletTransaction.t :=
  if negb (_is_valid_address recipient) then (self, Raise ValueError)
  else if num_le_zero amount then (self, Raise ValueError)
  else if num_lt_zero fee then (self, Raise ValueError)
  else
    let transaction :=
      WalletTransaction.mk (address self) recipient amount (PyFloat now)
                           (nonce self) fee data None in
    match _sign_transaction transaction with
    | Raise e => (self, Raise e)
    | Ret signature =>
        let transaction :=
          WalletTransaction.set_signature transaction (Some signature) in
        (set_nonce self (nonce self + 1), Ret transaction)
    end.
End Signing.

End Wallet.

(* ===================================================================== *)
(** * Example inputs *)
(* ===================================================================== *)

(** The compressed public key of the secp256k1 generator point (private
    key 1), an input of [Wallet._generate_address]. *)
Definition generator_public_bytes : bytes :=
  [ x02; x79; xbe; x66; x7e; xf9; xdc; xbb; xac; x55; xa0; x62; x95; xce; x87;
    x0b; x07; x02; x9b; xfc; xdb; x2d; xce; x28; xd9; x59; xf2; x81; x5b; x16;
    xf8; x17; x98 ].

(** Five transactions, as dictionaries, for a Merkle tree. *)
Definition example_tx (i : Z) : Transaction.t :=
  Transaction.mk "A" "B" (PyInt i) (Some "sig"%string) (PyInt 1).

Definition example_transactions : list (list (string * json)) :=
  List.map (fun i => Transaction.to_dict (example_tx i)) [1; 2; 3; 4; 5].

(* ===================================================================== *)
(** * The chain state machine *)
(* ===================================================================== *)

(** One operation of the node on its chain state; the operations leave a
    state behind whether they return or raise. *)
Inductive chain_step : Blockchain.t -> Blockchain.t -> Prop :=
  | step_add_transaction (self : Blockchain.t) (transaction : tx_object) :
      chain_step self (fst (Blockchain.add_transaction self transaction))
  | step_mine_block (depth : nat) (now : spec_float) (self : Blockchain.t)
      (miner_address : string) :
      chain_step self (fst (Blockchain.mine_block depth now self miner_address))
  | step_add_block (depth : nat) (self : Blockchain.t) (block : Block.t) :
      chain_step self (fst (Blockchain.add_block depth self block))
  | step_replace_chain (self : Blockchain.t) (new_chain : list Block.t) :
      chain_step self (fst (Blockchain.replace_chain self new_chain)).

(** The states reached from [Blockchain(difficulty)], constructed when the
    clock reads [now]. *)
Inductive reachable (now : spec_float) (difficulty : Z) : Blockchain.t -> Prop :=
  | reachable_init : reachable now difficulty (Blockchain.init now difficulty)
  | reachable_step (self self' : Blockchain.t) :
      reachable now difficulty self -> chain_step self self' ->
      reachable now difficulty self'.

(** What [is_valid], the link test and [validate] establish for the block
    [current] that follows [previous]. *)
Definition block_checked (pow : ProofOfWork.t) (previous current : Block.t) : Prop :=
  Block.is_valid current = true /\
  Block.previous_hash current = Block.hash previous /\
  ProofOfWork.validate pow current = true.

(** Every block at an index [>= 1] passes the checks against the block
    before it. *)
Definition blocks_checked (pow : ProofOfWork.t) (c : list Block.t) : Prop :=
  forall i previous current,
    nth_error c i = Some previous -> nth_error c (S i) = Some current ->
    block_checked pow previous current.

(** What every reachable state satisfies: the validator is the one built
    from the difficulty, and the chain passes [verify_chain]. *)
Definition chain_ok (difficulty : Z) (self : Blockchain.t) : Prop :=
  Blockchain.difficulty self = difficulty /\
  Blockchain.pow self = ProofOfWork.init difficulty /\
  Blockchain.verify_chain self = true.

(** A chain of difficulty 1 constructed when the clock reads
    [1700000000.5], and blocks mined for it (the nonces are the first ones
    whose hash starts with ['0']). *)
Definition example_now : spec_float :=
  binary_normalize prec emax 3400000001 (-1) false.

Definition example_chain : Blockchain.t := Blockchain.init example_now 1.

(** The blocks are kept evaluated: their fields are the strings and numbers
    that the constructor computes. *)
Definition example_G : Block.t :=
  Eval vm_compute in Blockchain.genesis_block example_now 1.

Definition example_transfer (sender recipient : string) (amount timestamp : Z)
  : tx_object :=
  BlockTx (Transaction.mk sender recipient (PyInt amount) (Some "sig"%string)
                          (PyInt timestamp)).

(** Block 1 holds the same transaction twice. *)
Definition example_B1 : Block.t :=
  Eval vm_compute in
    Block.init example_now "M"
      [example_transfer "A" "B" 5 1; example_transfer "A" "B" 5 1]
      (Block.hash example_G) (Some (PyInt 1)) 11 1.

Definition example_B2 : Block.t :=
  Eval vm_compute in
    Block.init example_now "M" [example_transfer "B" "C" 2 2]
      (Block.hash example_B1) (Some (PyInt 2)) 2 1.

Definition example_B3 : Block.t :=
  Eval vm_compute in
    Block.init example_now "M" [example_transfer "C" "A" 1 3]
      (Block.hash example_B2) (Some (PyInt 3)) 1 1.

(** A competing successor of block 1. *)
Definition example_F2 : Block.t :=
  Eval vm_compute in
    Block.init example_now "N" [example_transfer "B" "D" 2 2]
      (Block.hash example_B1) (Some (PyInt 2)) 4 1.

(** The state after the blocks of [blocks] were offered to [add_block] in
    turn. *)
Definition offer_blocks (self : Blockchain.t) (blocks : list Block.t)
  : Blockchain.t :=
  fold_left (fun s b => fst (Blockchain.add_block 100 s b)) blocks self.

(** The states of the examples, evaluated: the chain after [example_B1]; the
    chain with [example_B3] and [example_B2] pending, and what
    [add_block(example_B1)] makes of it; the same with the competing block
    [example_F2] received first. *)
Definition example_chain_1 : Blockchain.t :=
  Eval vm_compute in fst (Blockchain.add_block 100 example_chain example_B1).



Definition example_fork_pending : Blockchain.t :=
  Eval vm_compute in
    offer_blocks example_chain [example_F2; example_B2; example_B3].

Definition example_fork_drained : Blockchain.t :=
  Eval vm_compute in
    fst (Blockchain.add_block 100 example_fork_pending example_B1).

(** A wallet transaction, and its copy with another signature string. *)
Definition example_wallet_tx : WalletTransaction.t :=
  WalletTransaction.mk "A" "B" (PyInt 5) (PyInt 1) 0 (PyInt 1) None
                       (Some "sig"%string).

Definition example_unsigned_tx : WalletTransaction.t :=
  WalletTransaction.mk "A" "B" (PyInt 5) (PyInt 1) 0 (PyInt 1) None None.

(** The float of an integer that a float represents exactly. *)
Definition float_of_Z (z : Z) : spec_float := binary_normalize prec emax z 0 false.

(* ===================================================================== *)
(** * The pending drain *)
(* ===================================================================== *)

(** The keys of [pending_blocks]. *)
Definition pending_keys (self : Blockchain.t) : list string :=
  List.map fst (Blockchain.pending_blocks self).



(** [self'] continues [self]: the chain grew at its end, the validator is
    the same, and no key was added to the pending set. *)
Definition continues (self self' : Blockchain.t) : Prop :=
  (exists post, Blockchain.chain self' = Blockchain.chain self ++ post) /\
  Blockchain.pow self' = Blockchain.pow self /\
  (forall k, In k (pending_keys self') -> In k (pending_keys self)).

(** [block] connects to the tip of [self]. *)
Definition connects (self : Blockchain.t) (block : Block.t) : Prop :=
  exists tip, Blockchain.last_block self = Ret tip /\
              Block.previous_hash block = Block.hash tip.

(** What a call of [add_block] (at some depth) does to the state: the chain
    grows at its end, the validator stays, a block that connects to the tip
    adds no pending key, and a result [True] means the block was appended. *)
Definition add_block_effect
    (add : Blockchain.t -> Block.t -> Blockchain.t * outcome bool) : Prop :=
  forall self block,
    (exists post,
        Blockchain.chain (fst (add self block)) = Blockchain.chain self ++ post) /\
    Blockchain.pow (fst (add self block)) = Blockchain.pow self /\
    (connects self block ->
     forall k, In k (pending_keys (fst (add self block))) ->
               In k (pending_keys self)) /\
    (snd (add self block) = Ret true ->
     exists post,
       Blockchain.chain (fst (add self block))
       = Blockchain.chain self ++ block :: post).

(* ===================================================================== *)
(** * Invariants of the node *)
(* ===================================================================== *)

(** The chain starts with a block that carries the hash of the genesis
    block, and the fields that no operation writes keep their first values. *)
Definition chain_rooted (now : spec_float) (difficulty : Z) (self : Blockchain.t)
  : Prop :=
  (exists first rest,
      Blockchain.chain self = first :: rest /\
      Block.hash first = Block.hash (Blockchain.genesis_block now difficulty)) /\
  Blockchain.orphan_blocks self = [] /\
  Blockchain.difficulty self = difficulty.

(** The pending set is a dictionary from a block's hash to the block, and
    every block in it passed [is_valid] when it was stored. *)
Definition pending_ok (self : Blockchain.t) : Prop :=
  NoDup (pending_keys self) /\
  forall k b,
    In (k, b) (Blockchain.pending_blocks self) ->
    k = Block.hash b /\ Block.is_valid b = true.

(** Every entry of the mempool is a wallet transaction that passed
    [validate_transaction]; the identities of the entries are pairwise
    different, and they are the known identities. *)
Definition mempool_ok (self : Blockchain.t) : Prop :=
  NoDup (List.map tx_calculate_hash (Blockchain.unconfirmed_transactions self)) /\
  (forall tx,
      In tx (Blockchain.unconfirmed_transactions self) ->
      isinstance_Transaction tx = false /\
      Blockchain.validate_transaction tx = true) /\
  (forall h,
      h ∈ Blockchain.known_transactions self <->
      exists tx,
        In tx (Blockchain.unconfirmed_transactions self) /\
        tx_calculate_hash tx = Ret h).

(* ===================================================================== *)
(** * Part II: properties of the embedding *)
(* ===================================================================== *)

(* --------------------------------------------------------------------- *)
(** ** Bytes and integers *)
(* --------------------------------------------------------------------- *)

Lemma byte_to_Z_range (b : byte) : 0 <= byte_to_Z b < 256.
Proof.
  unfold byte_to_Z. pose proof (Byte.to_N_bounded b). lia.
Qed.

Lemma int_from_bytes_acc (b : bytes) (acc k : Z) :
  0 <= k -> 0 <= acc < 256 ^ k ->
  0 <= fold_left (fun a x => a * 256 + byte_to_Z x) b acc
    < 256 ^ (k + Z.of_nat (List.length b)).
Proof.
  revert acc k. induction b as [|x b IH]; intros acc k Hk Hacc;
    cbn [fold_left List.length].
  - rewrite Z.add_0_r. exact Hacc.
  - rewrite Nat2Z.inj_succ.
    replace (k + Z.succ (Z.of_nat (List.length b)))
      with ((k + 1) + Z.of_nat (List.length b)) by lia.
    apply IH; [lia|].
    pose proof (byte_to_Z_range x).
    rewrite Z.pow_add_r, Z.pow_1_r by lia. nia.
Qed.

Lemma int_from_bytes_bound (b : bytes) :
  0 <= int_from_bytes b < 256 ^ Z.of_nat (List.length b).
Proof.
  unfold int_from_bytes.
  apply (int_from_bytes_acc b 0 0); [lia | simpl; lia].
Qed.

Lemma int_from_bytes_zero (b : bytes) :
  int_from_bytes (x00 :: b) = int_from_bytes b.
Proof. reflexivity. Qed.

Lemma int_to_bytes_length (n : nat) (v : Z) :
  List.length (int_to_bytes n v) = n.
Proof.
  revert v. induction n as [|n IH]; intros v; simpl; [reflexivity|].
  rewrite length_app, IH. simpl. lia.
Qed.

Lemma int_to_bytes_le_length (n : nat) (v : Z) :
  List.length (int_to_bytes_le n v) = n.
Proof. unfold int_to_bytes_le. rewrite length_rev. apply int_to_bytes_length. Qed.

Lemma concat_words_length (enc : Z -> bytes) (k : nat) (l : list Z) :
  (forall v, List.length (enc v) = k) ->
  List.length (concat (map enc l)) = (k * List.length l)%nat.
Proof.
  intros Henc. induction l as [|v l IH]; simpl; [lia|].
  rewrite length_app, Henc, IH. lia.
Qed.

(* --------------------------------------------------------------------- *)
(** ** The digests have their fixed sizes *)
(* --------------------------------------------------------------------- *)

Lemma sha256_round_length (s : list Z) (kw : Z * Z) :
  List.length (SHA256.round s kw) = List.length s.
Proof.
  unfold SHA256.round.
  repeat (match goal with
          | |- context [match ?x with _ => _ end] => destruct x
          end; try reflexivity).
Qed.

Lemma sha256_rounds_length (kws : list (Z * Z)) :
  forall s, List.length (fold_left SHA256.round kws s) = List.length s.
Proof.
  induction kws as [|kw kws IH]; intros s; cbn [fold_left]; [reflexivity|].
  rewrite IH. apply sha256_round_length.
Qed.

Lemma sha256_compress_length (h : list Z) (block : bytes) :
  List.length (SHA256.compress h block) = List.length h.
Proof.
  unfold SHA256.compress.
  rewrite length_map, length_combine, sha256_rounds_length. lia.
Qed.

Lemma sha256_blocks_length (n : nat) (h : list Z) (b : bytes) :
  List.length (SHA256.blocks n h b) = List.length h.
Proof.
  revert h b. induction n as [|n IH]; intros h b; cbn [SHA256.blocks];
    [reflexivity|].
  rewrite IH. apply sha256_compress_length.
Qed.

Lemma sha256_digest_length (msg : bytes) :
  List.length (SHA256.digest msg) = 32%nat.
Proof.
  unfold SHA256.digest.
  rewrite (concat_words_length _ 4) by apply int_to_bytes_length.
  rewrite sha256_blocks_length. reflexivity.
Qed.

Lemma ripemd160_compress_length (h : list Z) (block : bytes) :
  List.length (RIPEMD160.compress h block) = List.length h.
Proof.
  unfold RIPEMD160.compress.
  generalize (RIPEMD160.line (words_of int_from_bytes_le 16 block) true 80 0 h).
  generalize (RIPEMD160.line (words_of int_from_bytes_le 16 block) false 80 0 h).
  intros r l.
  repeat (match goal with
          | |- context [match ?x with _ => _ end] => destruct x
          end; try reflexivity).
Qed.

Lemma ripemd160_blocks_length (n : nat) (h : list Z) (b : bytes) :
  List.length (RIPEMD160.blocks n h b) = List.length h.
Proof.
  revert h b. induction n as [|n IH]; intros h b; cbn [RIPEMD160.blocks];
    [reflexivity|].
  rewrite IH. apply ripemd160_compress_length.
Qed.

Lemma ripemd160_digest_length (msg : bytes) :
  List.length (RIPEMD160.digest msg) = 20%nat.
Proof.
  unfold RIPEMD160.digest.
  rewrite (concat_words_length _ 4) by apply int_to_bytes_le_length.
  rewrite ripemd160_blocks_length. reflexivity.
Qed.

(* --------------------------------------------------------------------- *)
(** ** Base58: decoding undoes encoding *)
(* --------------------------------------------------------------------- *)

Lemma alphabet_index (i : nat) :
  (i < 58)%nat ->
  String.index 0 (String (Wallet.alphabet_at i) EmptyString) Wallet.alphabet = Some i.
Proof.
  intros Hi.
  do 58 (destruct i as [|i]; [reflexivity|]). lia.
Qed.

Lemma b58_decode_digit (i : Z) (rest : string) (value : Z) :
  0 <= i < 58 ->
  Wallet.b58_decode (String (Wallet.alphabet_at (Z.to_nat i)) rest) value
  = Wallet.b58_decode rest (value * 58 + i).
Proof.
  intros Hi. cbn [Wallet.b58_decode].
  rewrite alphabet_index by lia. rewrite Z2Nat.id by lia. reflexivity.
Qed.

Lemma b58_loop_decode (fuel : nat) :
  forall value result s,
    0 <= value ->
    Wallet.b58_loop fuel value result = Some s ->
    Wallet.b58_decode s 0 = Wallet.b58_decode result value.
Proof.
  induction fuel as [|fuel IH]; intros value result s Hv H; simpl in H.
  - destruct (value =? 0) eqn:E; [|discriminate].
    apply Z.eqb_eq in E. subst value. congruence.
  - destruct (value =? 0) eqn:E.
    + apply Z.eqb_eq in E. subst value. congruence.
    + apply IH in H; [|apply Z.div_pos; lia].
      rewrite H, b58_decode_digit by (apply Z.mod_pos_bound; lia).
      f_equal. pose proof (Z.div_mod value 58). lia.
Qed.

Lemma b58_loop_total (fuel : nat) :
  forall value result,
    0 <= value < 2 ^ Z.of_nat fuel ->
    exists s, Wallet.b58_loop fuel value result = Some s.
Proof.
  induction fuel as [|fuel IH]; intros value result Hv; simpl.
  - change (2 ^ Z.of_nat 0) with 1 in Hv.
    replace value with 0 by lia. simpl. eauto.
  - destruct (value =? 0) eqn:E; [eauto|].
    apply IH. rewrite Nat2Z.inj_succ, Z.pow_succ_r in Hv by lia.
    split; [apply Z.div_pos; lia|].
    apply Z.div_lt_upper_bound; lia.
Qed.

Lemma leading_zeros_decode (versioned_hash : bytes) :
  forall result, Wallet.b58_decode (Wallet.leading_zeros versioned_hash result) 0
                 = Wallet.b58_decode result 0.
Proof.
  induction versioned_hash as [|b rest IH]; intros result; [reflexivity|].
  destruct b; try reflexivity.
  cbn [Wallet.leading_zeros]. rewrite IH. reflexivity.
Qed.

Lemma bit_length_bound (v k : Z) :
  0 <= k -> 0 <= v < 2 ^ k -> Wallet.bit_length v <= k.
Proof.
  intros Hk Hv. unfold Wallet.bit_length.
  destruct (v =? 0) eqn:E; [lia|].
  apply Z.eqb_neq in E.
  assert (Z.log2 v < k) by (apply Z.log2_lt_pow2; lia). lia.
Qed.

(** The integer of a generated address starts with the zero version byte, so
    it fits 24 bytes. *)
Lemma generated_value_bound (public_bytes : bytes) :
  let versioned_hash := x00 :: RIPEMD160.digest (SHA256.digest public_bytes) in
  let checksum := firstn 4 (SHA256.digest (SHA256.digest versioned_hash)) in
  0 <= int_from_bytes (versioned_hash ++ checksum) < 2 ^ 192.
Proof.
  intros versioned_hash checksum.
  unfold versioned_hash. rewrite <- app_comm_cons, int_from_bytes_zero.
  pose proof (int_from_bytes_bound
                (RIPEMD160.digest (SHA256.digest public_bytes) ++ checksum)) as Hb.
  rewrite length_app, ripemd160_digest_length in Hb.
  assert (List.length checksum <= 4)%nat as Hc
    by (unfold checksum; apply firstn_le_length).
  split; [lia|].
  eapply Z.lt_le_trans; [apply Hb|].
  change (2 ^ 192) with (256 ^ 24).
  apply Z.pow_le_mono_r; lia.
Qed.

(** C1 (the code departs from the claim): the address that
    [Wallet._generate_address] derives from any compressed public key is
    rejected by [Wallet._is_valid_address].  Derivation always returns an
    address; decoding it gives back the integer of the 25-byte
    [versioned_hash + checksum], whose leading byte is the version byte
    [0x00]; [to_bytes((bit_length + 7) // 8)] therefore yields at most 24
    bytes and the length test [!= 25] answers [False]. *)
Theorem generated_address_is_rejected (public_bytes : bytes) :
  exists address,
    Wallet._generate_address public_bytes = Some address /\
    Wallet._is_valid_address address = false.
Proof.
  pose proof (generated_value_bound public_bytes) as Hv. cbv zeta in Hv.
  unfold Wallet._generate_address.
  set (versioned_hash := x00 :: RIPEMD160.digest (SHA256.digest public_bytes)) in *.
  set (checksum := firstn 4 (SHA256.digest (SHA256.digest versioned_hash))) in *.
  set (value := int_from_bytes (versioned_hash ++ checksum)) in *.
  destruct (b58_loop_total (8 * List.length (versioned_hash ++ checksum))
              value EmptyString) as [s Hs].
  { split; [lia|]. eapply Z.lt_le_trans; [apply Hv|].
    apply Z.pow_le_mono_r; [lia|].
    rewrite length_app. unfold versioned_hash, checksum.
    rewrite length_cons, ripemd160_digest_length, length_take,
      sha256_digest_length. lia. }
  rewrite Hs. eexists; split; [reflexivity|].
  unfold Wallet._is_valid_address.
  rewrite leading_zeros_decode, (b58_loop_decode _ _ _ _ (proj1 Hv) Hs).
  cbn [Wallet.b58_decode]. rewrite int_to_bytes_length.
  assert (Wallet.bit_length value <= 192) by (apply bit_length_bound; lia).
  assert ((Wallet.bit_length value + 7) / 8 < 25)
    by (apply Z.div_lt_upper_bound; lia).
  destruct (Nat.eqb_spec (Z.to_nat ((Wallet.bit_length value + 7) / 8)) 25) as [E|E];
    [lia | reflexivity].
Qed.

Example generator_address :
  Wallet._generate_address generator_public_bytes
  = Some "1BgGZ9tcN4rm9KBzDn7KprQz87SZ26SAMH"%string.
Proof. vm_compute. reflexivity. Qed.

Example generator_address_rejected :
  Wallet._is_valid_address "1BgGZ9tcN4rm9KBzDn7KprQz87SZ26SAMH" = false.
Proof. vm_compute. reflexivity. Qed.

(* --------------------------------------------------------------------- *)
(** ** Merkle levels *)
(* --------------------------------------------------------------------- *)

Arguments hash_data : simpl never.
Arguments sha256_hexdigest : simpl never.
Arguments json_dumps : simpl never.
Arguments SHA256.digest : simpl never.
Arguments RIPEMD160.digest : simpl never.
Arguments Block.calculate_hash : simpl never.

(** Induction over a list two elements at a time. *)
Lemma list_pair_ind {A : Type} (P : list A -> Prop) :
  P [] -> (forall a, P [a]) -> (forall a b l, P l -> P (a :: b :: l)) ->
  forall l, P l.
Proof.
  intros H0 H1 H2.
  assert (forall l, P l /\ forall a, P (a :: l)) as H.
  { induction l as [|b l [IHl IHl']]; split; auto. }
  intros l. apply H.
Qed.

Lemma pad_odd_length {A : Type} (l : list A) :
  List.length (pad_odd l)
  = (List.length l + if Nat.odd (List.length l) then 1 else 0)%nat.
Proof.
  unfold pad_odd. destruct (Nat.odd (List.length l)) eqn:E; [|lia].
  destruct l as [|x rest]; [discriminate|].
  rewrite length_app. reflexivity.
Qed.

Lemma pad_odd_even {A : Type} (l : list A) :
  Nat.even (List.length (pad_odd l)) = true.
Proof.
  rewrite pad_odd_length.
  destruct (Nat.odd (List.length l)) eqn:E.
  - rewrite Nat.add_1_r, Nat.even_succ. exact E.
  - rewrite Nat.add_0_r, <- Nat.negb_odd, E. reflexivity.
Qed.

Lemma pad_odd_idem {A : Type} (l : list A) : pad_odd (pad_odd l) = pad_odd l.
Proof.
  pose proof (pad_odd_even l) as E.
  unfold pad_odd at 1. rewrite <- Nat.negb_even, E. reflexivity.
Qed.

Lemma pad_odd_nth_error {A : Type} (l : list A) (i : nat) (x : A) :
  nth_error l i = Some x -> nth_error (pad_odd l) i = Some x.
Proof.
  intros H. unfold pad_odd.
  destruct (Nat.odd (List.length l)); [|exact H].
  destruct l as [|y rest]; [exact H|].
  rewrite nth_error_app1; [exact H|].
  apply nth_error_Some. congruence.
Qed.

Lemma pad_odd_map {A B : Type} (f : A -> B) (l : list A) :
  List.map f (pad_odd l) = pad_odd (List.map f l).
Proof.
  unfold pad_odd. rewrite length_map.
  destruct (Nat.odd (List.length l)); [|reflexivity].
  destruct l as [|x rest]; [reflexivity|].
  cbn [List.map]. rewrite map_app. cbn [List.map].
  do 2 f_equal. clear. revert x.
  induction rest as [|y rest IH]; intros x; [reflexivity|].
  cbn [List.map]. destruct rest as [|z rest]; [reflexivity|].
  change (List.last (y :: z :: rest) x) with (List.last (z :: rest) x).
  change (List.last (f y :: List.map f (z :: rest)) (f x))
    with (List.last (List.map f (z :: rest)) (f x)).
  apply IH.
Qed.

Lemma parents_length (nodes : list MerkleTree.MerkleNode) :
  List.length (MerkleTree.parents nodes) = (List.length nodes / 2)%nat.
Proof.
  induction nodes as [|a|a b l IH] using list_pair_ind; try reflexivity.
  cbn [MerkleTree.parents List.length]. rewrite IH.
  change (S (S (List.length l))) with (2 + List.length l)%nat.
  replace (2 + List.length l)%nat with (1 * 2 + List.length l)%nat by lia.
  rewrite Nat.div_add_l by lia. lia.
Qed.

Lemma parents_hashes (nodes : list MerkleTree.MerkleNode) :
  List.map MerkleTree.node_hash (MerkleTree.parents nodes)
  = Block.pair_hashes (List.map MerkleTree.node_hash nodes).
Proof.
  induction nodes as [|a|a b l IH] using list_pair_ind; try reflexivity.
  cbn [MerkleTree.parents List.map Block.pair_hashes MerkleTree.node_hash].
  rewrite IH. reflexivity.
Qed.

Lemma build_loop_hashes (fuel : nat) :
  forall nodes,
    List.map MerkleTree.node_hash (MerkleTree.build_loop fuel nodes)
    = Block.merkle_loop fuel (List.map MerkleTree.node_hash nodes).
Proof.
  induction fuel as [|fuel IH]; intros nodes; [reflexivity|].
  cbn [MerkleTree.build_loop Block.merkle_loop]. rewrite length_map.
  destruct (1 <? List.length nodes)%nat; [|reflexivity].
  rewrite IH, parents_hashes, pad_odd_map. reflexivity.
Qed.

(** The sibling of [nodes[i]] and their parent, in a level of even length. *)
Lemma parents_nth (nodes : list MerkleTree.MerkleNode) :
  Nat.even (List.length nodes) = true ->
  forall i x,
    nth_error nodes i = Some x ->
    exists sibling parent,
      nth_error nodes (if Nat.even i then i + 1 else i - 1)%nat = Some sibling /\
      nth_error (MerkleTree.parents nodes) (i / 2) = Some parent /\
      MerkleTree.node_hash parent
      = if Nat.even i
        then hash_data (DataStr (MerkleTree.node_hash x +:+ MerkleTree.node_hash sibling))
        else hash_data (DataStr (MerkleTree.node_hash sibling +:+ MerkleTree.node_hash x)).
Proof.
  induction nodes as [|a|a b l IH] using list_pair_ind; intros Hev i x Hx.
  - destruct i; discriminate.
  - discriminate.
  - destruct i as [|[|i]].
    + injection Hx as <-. exists b. eexists. repeat split.
    + injection Hx as <-. exists a. eexists. repeat split.
    + cbn [nth_error] in Hx.
      destruct (IH Hev i x Hx) as (sibling & parent & Hs & Hp & Hh).
      exists sibling, parent.
      rewrite Nat.even_succ_succ.
      replace (S (S i) / 2)%nat with (S (i / 2)).
      2:{ change (S (S i)) with (2 + i)%nat.
          replace (2 + i)%nat with (1 * 2 + i)%nat by lia.
          rewrite Nat.div_add_l by lia. lia. }
      repeat split; [|exact Hp|exact Hh].
      destruct (Nat.even i) eqn:E.
      * replace (S (S i) + 1)%nat with (S (S (i + 1))) by lia. exact Hs.
      * destruct i as [|i]; [discriminate|].
        replace (S (S (S i)) - 1)%nat with (S (S (S i - 1))) by lia. exact Hs.
Qed.

(** Level by level, the proof of [nodes[i]] leads to the root that
    [_build_tree] computes, whenever the fuels cover the levels. *)
Lemma proof_reaches_root (n : nat) :
  forall nodes f1 f2 i x,
    (List.length nodes <= n)%nat ->
    (List.length nodes <= S f1)%nat ->
    (List.length nodes <= S f2)%nat ->
    nth_error nodes i = Some x ->
    exists r,
      MerkleTree.build_loop f1 nodes = [r] /\
      fold_left MerkleTree.verify_step (MerkleTree.proof_loop f2 nodes i)
                (MerkleTree.node_hash x)
      = MerkleTree.node_hash r.
Proof.
  induction n as [|n IH]; intros nodes f1 f2 i x Hn H1 H2 Hx.
  - destruct nodes; [destruct i; discriminate | cbn in Hn; lia].
  - destruct (Nat.ltb_spec 1 (List.length nodes)) as [Hlen|Hlen].
    + destruct f1 as [|f1]; [lia|]. destruct f2 as [|f2]; [lia|].
      cbn [MerkleTree.build_loop MerkleTree.proof_loop].
      apply Nat.ltb_lt in Hlen as Hlt. rewrite Hlt.
      destruct (parents_nth (pad_odd nodes) (pad_odd_even nodes) i x
                  (pad_odd_nth_error _ _ _ Hx))
        as (sibling & parent & Hs & Hp & Hh).
      rewrite Hs. cbn [fold_left].
      assert (List.length (MerkleTree.parents (pad_odd nodes)) <= n
              /\ List.length (MerkleTree.parents (pad_odd nodes)) <= S f1
              /\ List.length (MerkleTree.parents (pad_odd nodes)) <= S f2)%nat
        as (Ha & Hb & Hc).
      { rewrite parents_length, pad_odd_length.
        assert (forall k, (2 <= k)%nat ->
                  ((k + if Nat.odd k then 1 else 0) / 2 <= k - 1)%nat) as Hhalf.
        { intros k Hk. apply Nat.Div0.div_le_upper_bound.
          destruct (Nat.eq_dec k 2%nat) as [->|Hk2]; [cbn; lia|].
          destruct (Nat.odd k); lia. }
        specialize (Hhalf (List.length nodes) Hlen). lia. }
      destruct (IH _ f1 f2 (i / 2)%nat parent Ha Hb Hc Hp) as (r & Hr & Hf).
      exists r. split; [exact Hr|].
      rewrite <- Hf. f_equal.
      unfold MerkleTree.verify_step. cbn [MerkleTree.position MerkleTree.step_hash].
      rewrite Hh. destruct (Nat.even i); reflexivity.
    + destruct nodes as [|y [|z nodes]]; [destruct i; discriminate| |cbn in Hlen; lia].
      destruct i as [|i]; [|destruct i; discriminate].
      injection Hx as <-. exists y. split.
      * destruct f1; reflexivity.
      * destruct f2; reflexivity.
Qed.

Lemma find_leaf_nth (leaves : list MerkleTree.MerkleNode) (h : string) :
  forall k,
    In h (List.map MerkleTree.node_hash leaves) ->
    exists i x,
      MerkleTree.find_leaf leaves h k = Some (k + i)%nat /\
      nth_error leaves i = Some x /\ MerkleTree.node_hash x = h.
Proof.
  induction leaves as [|leaf rest IH]; intros k Hin; [destruct Hin|].
  cbn [MerkleTree.find_leaf].
  destruct (String.eqb_spec (MerkleTree.node_hash leaf) h) as [E|E].
  - exists 0%nat, leaf. rewrite Nat.add_0_r. auto.
  - destruct Hin as [Hin|Hin]; [contradiction|].
    destruct (IH (S k) Hin) as (i & x & Hf & Hx & Hh).
    exists (S i), x. rewrite Hf. split; [f_equal; lia|auto].
Qed.

Lemma build_loop_pad (fuel : nat) (nodes : list MerkleTree.MerkleNode) :
  (1 < List.length nodes)%nat ->
  MerkleTree.build_loop (S fuel) (pad_odd nodes)
  = MerkleTree.build_loop (S fuel) nodes.
Proof.
  intros Hlen. cbn [MerkleTree.build_loop].
  rewrite pad_odd_idem.
  assert ((1 <? List.length (pad_odd nodes))%nat = true) as ->
    by (apply Nat.ltb_lt; rewrite pad_odd_length; lia).
  apply Nat.ltb_lt in Hlen. rewrite Hlen. reflexivity.
Qed.

(** The proof that [get_proof] returns for a leaf hash of a non-empty tree
    verifies against the root hash of the tree. *)
Lemma merkle_proof_verifies
    (transactions : list (list (string * json))) (leaf_hash : string) :
  transactions <> [] ->
  In leaf_hash
     (List.map MerkleTree.node_hash (MerkleTree.leaves (MerkleTree.init transactions))) ->
  MerkleTree.verify_proof leaf_hash
    (fst (MerkleTree.get_proof (MerkleTree.init transactions) leaf_hash))
    (MerkleTree.get_root_hash (MerkleTree.init transactions)) = true.
Proof.
  intros Hne Hin.
  destruct transactions as [|tx0 txs]; [contradiction|].
  unfold MerkleTree.init in *.
  set (leaves := List.map
                   (fun tx => MerkleTree.Node (hash_data (DataDict tx)) None None)
                   (tx0 :: txs)) in *.
  assert (exists l0 ls, leaves = l0 :: ls) as (l0 & ls & Hl)
    by (unfold leaves; cbn [List.map]; eauto).
  rewrite Hl in *. rewrite <- Hl in *.
  cbn [MerkleTree.leaves MerkleTree.root] in *.
  set (leaves' := if (1 <? List.length leaves)%nat then pad_odd leaves else leaves) in *.
  destruct (find_leaf_nth leaves' leaf_hash 0 Hin) as (i & x & Hfind & Hx & Hh).
  assert (List.length leaves <= List.length leaves'
          /\ List.length leaves' <= S (List.length leaves))%nat as [Hle1 Hle2].
  { unfold leaves'. destruct (1 <? List.length leaves)%nat; [|lia].
    rewrite pad_odd_length. destruct (Nat.odd (List.length leaves)); lia. }
  destruct (proof_reaches_root (List.length leaves') leaves'
              (List.length leaves) (List.length leaves') i x
              (le_n _) Hle2 (Nat.le_succ_diag_r _) Hx) as (r & Hr & Hf).
  assert (MerkleTree.build_loop (List.length leaves) leaves = [r]) as Hroot.
  { rewrite <- Hr. unfold leaves'.
    destruct (Nat.ltb_spec 1 (List.length leaves)) as [Hlen|Hlen]; [|reflexivity].
    destruct (List.length leaves) as [|k] eqn:Ek; [lia|].
    symmetry. apply build_loop_pad. lia. }
  unfold MerkleTree.get_proof, MerkleTree.get_root_hash.
  cbn [MerkleTree.leaves MerkleTree.root].
  rewrite Hroot. cbn [List.head]. fold leaves'.
  rewrite Hfind. cbn [fst Nat.add].
  unfold MerkleTree.verify_proof. rewrite <- Hh, Hf.
  apply String.eqb_refl.
Qed.

(** The step that [get_proof] records at level [k]: the hash of the sibling
    of the node on the path, with its side. *)
Lemma proof_loop_shape (fuel : nat) :
  forall nodes i k step,
    nth_error (MerkleTree.proof_loop fuel nodes i) k = Some step ->
    let index := (i / 2 ^ k)%nat in
    MerkleTree.position step
    = (if Nat.even index then "right" else "left")%string /\
    exists sibling,
      nth_error (MerkleTree.level k nodes)
                (if Nat.even index then index + 1 else index - 1)%nat
      = Some sibling /\
      MerkleTree.step_hash step = MerkleTree.node_hash sibling.
Proof.
  induction fuel as [|fuel IH]; intros nodes i k step H;
    cbn [MerkleTree.proof_loop] in H; [destruct k; discriminate|].
  destruct (1 <? List.length nodes)%nat; [|destruct k; discriminate].
  destruct (nth_error (pad_odd nodes) _) as [sibling|] eqn:Hsib;
    [|destruct k; discriminate].
  destruct k as [|k].
  - cbn [nth_error] in H. injection H as <-. cbv zeta.
    cbn [Nat.pow MerkleTree.level MerkleTree.position MerkleTree.step_hash].
    rewrite Nat.div_1_r.
    split; [destruct (Nat.even i); reflexivity|].
    exists sibling. split; [exact Hsib|reflexivity].
  - cbn [nth_error] in H. apply IH in H. cbv zeta in H |- *.
    cbn [MerkleTree.level].
    replace (i / 2 ^ S k)%nat with (i / 2 / 2 ^ k)%nat; [exact H|].
    rewrite Nat.Div0.div_div. reflexivity.
Qed.

Lemma verify_proof_nil (current root_hash : string) :
  MerkleTree.verify_proof current [] root_hash = String.eqb current root_hash.
Proof. reflexivity. Qed.

Lemma verify_proof_cons (current root_hash : string) (step : MerkleTree.step)
    (proof : list MerkleTree.step) :
  MerkleTree.verify_proof current (step :: proof) root_hash
  = MerkleTree.verify_proof
      (if String.eqb (MerkleTree.position step) "left"
       then hash_data (DataStr (MerkleTree.step_hash step +:+ current))
       else hash_data (DataStr (current +:+ MerkleTree.step_hash step)))
      proof root_hash.
Proof. reflexivity. Qed.

(** C8: for a tree built from a non-empty transaction list and a leaf hash
    found among its leaves, with [proof] the list that [get_proof] returns
    for the hash:
    - [verify_proof(leaf_hash, proof, root_hash)] is [True];
    - the target index [i] is the one the search loop of [get_proof] finds,
      and the step of level [k] holds the hash of the sibling of the node on
      the path, whose index is [i // 2 ** k], with position ['right'] when
      that index is even (the sibling is the next node of the level) and
      ['left'] when it is odd (the sibling is the node before);
    - [verify_proof] accepts the empty proof exactly when the current hash
      is the root hash, and a step replaces the current hash by
      [hash(sibling + current)] when its position is ['left'] and by
      [hash(current + sibling)] otherwise. *)
Theorem merkle_proof_round_trip
    (transactions : list (list (string * json))) (leaf_hash : string) :
  transactions <> [] ->
  In leaf_hash
     (List.map MerkleTree.node_hash (MerkleTree.leaves (MerkleTree.init transactions))) ->
  let tree := MerkleTree.init transactions in
  let proof := fst (MerkleTree.get_proof tree leaf_hash) in
  MerkleTree.verify_proof leaf_hash proof (MerkleTree.get_root_hash tree) = true /\
  (exists i leaf,
      MerkleTree.find_leaf (MerkleTree.leaves tree) leaf_hash 0 = Some i /\
      nth_error (MerkleTree.leaves tree) i = Some leaf /\
      MerkleTree.node_hash leaf = leaf_hash /\
      forall k step,
        nth_error proof k = Some step ->
        let index := (i / 2 ^ k)%nat in
        MerkleTree.position step
        = (if Nat.even index then "right" else "left")%string /\
        exists sibling,
          nth_error (MerkleTree.level k (MerkleTree.leaves tree))
                    (if Nat.even index then index + 1 else index - 1)%nat
          = Some sibling /\
          MerkleTree.step_hash step = MerkleTree.node_hash sibling) /\
  (forall current root_hash,
      MerkleTree.verify_proof current [] root_hash = String.eqb current root_hash) /\
  (forall current root_hash step rest,
      MerkleTree.verify_proof current (step :: rest) root_hash
      = MerkleTree.verify_proof
          (if String.eqb (MerkleTree.position step) "left"
           then hash_data (DataStr (MerkleTree.step_hash step +:+ current))
           else hash_data (DataStr (current +:+ MerkleTree.step_hash step)))
          rest root_hash).
Proof.
  intros Hne Hin tree proof.
  split; [exact (merkle_proof_verifies transactions leaf_hash Hne Hin)|].
  split; [|split; [exact verify_proof_nil|intros; apply verify_proof_cons]].
  destruct (find_leaf_nth (MerkleTree.leaves tree) leaf_hash 0 Hin)
    as (i & leaf & Hfind & Hleaf & Hhash).
  cbn [Nat.add] in Hfind.
  exists i, leaf. repeat (split; [assumption|]).
  intros k step Hstep. unfold proof, MerkleTree.get_proof in Hstep.
  destruct (MerkleTree.root tree); [|destruct k; discriminate].
  rewrite Hfind in Hstep. cbn [fst] in Hstep.
  exact (proof_loop_shape _ _ _ _ _ Hstep).
Qed.

(* --------------------------------------------------------------------- *)
(** ** The two Merkle roots *)
(* --------------------------------------------------------------------- *)

Lemma merkle_loop_single (n : nat) :
  forall leaves fuel,
    (List.length leaves <= n)%nat -> (List.length leaves <= S fuel)%nat ->
    leaves <> [] ->
    exists r, Block.merkle_loop fuel leaves = [r].
Proof.
  intros leaves fuel Hn Hf Hne.
  destruct leaves as [|h hs]; [contradiction|].
  set (nodes := List.map (fun h => MerkleTree.Node h None None) (h :: hs)).
  assert (List.map MerkleTree.node_hash nodes = h :: hs) as Hm.
  { unfold nodes. rewrite map_map. cbn [MerkleTree.node_hash]. apply map_id. }
  destruct (proof_reaches_root (List.length nodes) nodes fuel fuel 0%nat
              (MerkleTree.Node h None None)) as (r & Hr & _).
  - lia.
  - unfold nodes. rewrite length_map. exact Hf.
  - unfold nodes. rewrite length_map. exact Hf.
  - reflexivity.
  - exists (MerkleTree.node_hash r).
    rewrite <- Hm, <- build_loop_hashes, Hr. reflexivity.
Qed.

(** X23: for a non-empty transaction list the block's Merkle root is the
    root hash of the tree built over the same transactions. *)
Lemma merkle_roots_agree_nonempty (transactions : list tx_object) :
  transactions <> [] ->
  Block._calculate_merkle_root transactions
  = MerkleTree.get_root_hash
      (MerkleTree.init (List.map tx_to_dict transactions)).
Proof.
  intros Hne. destruct transactions as [|tx txs]; [contradiction|].
  unfold Block._calculate_merkle_root, MerkleTree.init, MerkleTree.get_root_hash.
  set (leaves := List.map
                   (fun d => MerkleTree.Node (hash_data (DataDict d)) None None)
                   (List.map tx_to_dict (tx :: txs))).
  assert (exists l0 ls, leaves = l0 :: ls) as (l0 & ls & Hl)
    by (unfold leaves; cbn [List.map]; eauto).
  rewrite Hl. rewrite <- Hl. cbn [MerkleTree.root].
  assert (List.map (fun tx0 => hash_data (DataDict (tx_to_dict tx0))) (tx :: txs)
          = List.map MerkleTree.node_hash leaves) as ->.
  { unfold leaves. rewrite !map_map. reflexivity. }
  rewrite <- build_loop_hashes, length_map.
  destruct (MerkleTree.build_loop (List.length leaves) leaves) as [|r rest];
    reflexivity.
Qed.

(** C2 (the code departs from the claim): a block without transactions
    stores [hash_data("empty_block")] as its Merkle root, while the tree built
    over the same, empty, list has the root hash [hash_data("empty_tree")];
    the two digests differ. *)
Theorem empty_block_merkle_root_differs
    (now : spec_float) (miner previous_hash : string)
    (timestamp : option pynum) (nonce difficulty : Z) :
  let B := Block.init now miner [] previous_hash timestamp nonce difficulty in
  (Block.merkle_root B = hash_data (DataStr "empty_block")) /\
  (MerkleTree.get_root_hash
     (MerkleTree.init (List.map tx_to_dict (Block.transactions B)))
   = hash_data (DataStr "empty_tree")) /\
  (Block.merkle_root B
   <> MerkleTree.get_root_hash
        (MerkleTree.init (List.map tx_to_dict (Block.transactions B)))).
Proof.
  cbv zeta. cbn [Block.init Block.set_hash Block.set_merkle_root
                 Block.merkle_root Block.transactions List.map].
  change (Block._calculate_merkle_root []) with (hash_data (DataStr "empty_block")).
  change (MerkleTree.get_root_hash (MerkleTree.init []))
    with (hash_data (DataStr "empty_tree")).
  repeat split. vm_compute. discriminate.
Qed.

Lemma merkle_proof_round_trip_witness :
  let leaf_hash := hash_data (DataDict (Transaction.to_dict (example_tx 5))) in
  let tree := MerkleTree.init example_transactions in
  let proof := fst (MerkleTree.get_proof tree leaf_hash) in
  MerkleTree.verify_proof leaf_hash proof (MerkleTree.get_root_hash tree) = true /\
  (exists i leaf,
      MerkleTree.find_leaf (MerkleTree.leaves tree) leaf_hash 0 = Some i /\
      nth_error (MerkleTree.leaves tree) i = Some leaf /\
      MerkleTree.node_hash leaf = leaf_hash /\
      forall k step,
        nth_error proof k = Some step ->
        let index := (i / 2 ^ k)%nat in
        MerkleTree.position step
        = (if Nat.even index then "right" else "left")%string /\
        exists sibling,
          nth_error (MerkleTree.level k (MerkleTree.leaves tree))
                    (if Nat.even index then index + 1 else index - 1)%nat
          = Some sibling /\
          MerkleTree.step_hash step = MerkleTree.node_hash sibling) /\
  (forall current root_hash,
      MerkleTree.verify_proof current [] root_hash = String.eqb current root_hash) /\
  (forall current root_hash step rest,
      MerkleTree.verify_proof current (step :: rest) root_hash
      = MerkleTree.verify_proof
          (if String.eqb (MerkleTree.position step) "left"
           then hash_data (DataStr (MerkleTree.step_hash step +:+ current))
           else hash_data (DataStr (current +:+ MerkleTree.step_hash step)))
          rest root_hash).
Proof.
  apply (merkle_proof_round_trip example_transactions).
  - discriminate.
  - cbn [example_transactions MerkleTree.init List.map MerkleTree.leaves List.length
         Nat.ltb Nat.leb pad_odd Nat.odd Nat.even negb app List.last
         MerkleTree.node_hash].
    do 4 right. left. reflexivity.
Defined.

(* --------------------------------------------------------------------- *)
(** ** The checks on the blocks of a chain *)
(* --------------------------------------------------------------------- *)

Lemma is_valid_true (b : Block.t) :
  Block.is_valid b = true <->
  Block.hash b = Block.calculate_hash b /\
  String.prefix (zeros_string (Block.difficulty b)) (Block.hash b) = true /\
  forallb isinstance_Transaction (Block.transactions b) = true.
Proof.
  unfold Block.is_valid.
  destruct (String.eqb_spec (Block.hash b) (Block.calculate_hash b)) as [E|E];
    cbn [negb].
  - destruct (String.prefix _ (Block.hash b)); cbn [negb].
    + destruct (forallb _ _); cbn [negb]; intuition congruence.
    + intuition congruence.
  - intuition congruence.
Qed.

Lemma validate_true (pow : ProofOfWork.t) (b : Block.t) :
  ProofOfWork.validate pow b = true <->
  Block.hash b = Block.calculate_hash b /\
  String.prefix (ProofOfWork.target pow) (Block.hash b) = true.
Proof.
  unfold ProofOfWork.validate.
  destruct (String.eqb_spec (Block.calculate_hash b) (Block.hash b)) as [E|E];
    cbn [negb].
  - rewrite E. destruct (String.prefix _ (Block.hash b)); cbn [negb];
      intuition congruence.
  - intuition congruence.
Qed.

Lemma check_blocks_cons (pow : ProofOfWork.t) (previous current : Block.t)
    (rest : list Block.t) :
  Blockchain.check_blocks pow previous (current :: rest) = true <->
  block_checked pow previous current /\
  Blockchain.check_blocks pow current rest = true.
Proof.
  unfold block_checked. cbn [Blockchain.check_blocks].
  destruct (Block.is_valid current); cbn [negb]; [|intuition congruence].
  destruct (String.eqb_spec (Block.previous_hash current) (Block.hash previous));
    cbn [negb]; [|intuition congruence].
  destruct (ProofOfWork.validate pow current); cbn [negb]; intuition congruence.
Qed.

Lemma check_blocks_spec (pow : ProofOfWork.t) (rest : list Block.t) :
  forall first,
    Blockchain.check_blocks pow first rest = true <->
    blocks_checked pow (first :: rest).
Proof.
  induction rest as [|current rest IH]; intros first.
  - split; [|reflexivity].
    intros _ i previous current _ H. destruct i; discriminate.
  - rewrite check_blocks_cons, IH. split.
    + intros [Hc Hrest] i previous current' Hp Hcur.
      destruct i as [|i].
      * injection Hp as <-. injection Hcur as <-. exact Hc.
      * exact (Hrest i previous current' Hp Hcur).
    + intros H. split.
      * exact (H 0%nat first current eq_refl eq_refl).
      * intros i previous current' Hp Hcur.
        exact (H (S i) previous current' Hp Hcur).
Qed.

Lemma last_cons {A : Type} (l : list A) :
  forall x d, List.last (x :: l) d = List.last l x.
Proof.
  induction l as [|y l IH]; intros x d; [reflexivity|].
  change (List.last (x :: y :: l) d) with (List.last (y :: l) d).
  rewrite !IH. reflexivity.
Qed.

Lemma check_blocks_app (pow : ProofOfWork.t) (rest : list Block.t) (b : Block.t) :
  forall first,
    Blockchain.check_blocks pow first (rest ++ [b]) = true <->
    Blockchain.check_blocks pow first rest = true /\
    block_checked pow (List.last rest first) b.
Proof.
  induction rest as [|current rest IH]; intros first.
  - cbn [app List.last]. rewrite check_blocks_cons.
    cbn [Blockchain.check_blocks]. tauto.
  - rewrite <- app_comm_cons, !check_blocks_cons, IH.
    rewrite last_cons. tauto.
Qed.

(* --------------------------------------------------------------------- *)
(** ** The fresh chain *)
(* --------------------------------------------------------------------- *)

(** C10: a freshly constructed [Blockchain(d)] verifies, for every
    difficulty [d] and every reading of the clock: the loops of
    [verify_chain] and [_validate_chain] start at index 1 and the genesis
    block is the only block.  The two functions read nothing of the first
    block but its hash, so the checks never bear on it. *)
Theorem fresh_chain_verifies (now : spec_float) (difficulty : Z) :
  let self := Blockchain.init now difficulty in
  Blockchain.verify_chain self = true /\
  Blockchain._validate_chain self (Blockchain.chain self) = Ret true /\
  (forall (s : Blockchain.t) (first first' : Block.t) (rest : list Block.t),
      Block.hash first' = Block.hash first ->
      Blockchain.verify_chain (Blockchain.set_chain s (first' :: rest))
      = Blockchain.verify_chain (Blockchain.set_chain s (first :: rest)) /\
      Blockchain._validate_chain s (first' :: rest)
      = Blockchain._validate_chain s (first :: rest)).
Proof.
  cbv zeta. split; [reflexivity|]. split.
  - unfold Blockchain._validate_chain, Blockchain.init.
    cbn [Blockchain.chain]. rewrite String.eqb_refl. reflexivity.
  - intros s first first' rest Hh.
    assert (Blockchain.check_blocks (Blockchain.pow s) first' rest
            = Blockchain.check_blocks (Blockchain.pow s) first rest) as Hc.
    { destruct rest as [|current rest]; [reflexivity|].
      cbn [Blockchain.check_blocks]. rewrite Hh. reflexivity. }
    split.
    + unfold Blockchain.verify_chain, Blockchain.set_chain.
      cbn [Blockchain.chain Blockchain.pow]. exact Hc.
    + unfold Blockchain._validate_chain. rewrite Hh, Hc. reflexivity.
Qed.

(* --------------------------------------------------------------------- *)
(** ** Chain replacement *)
(* --------------------------------------------------------------------- *)


(* --------------------------------------------------------------------- *)
(** ** The invariant of the chain state machine *)
(* --------------------------------------------------------------------- *)

Lemma chain_ok_init (now : spec_float) (difficulty : Z) :
  chain_ok difficulty (Blockchain.init now difficulty).
Proof. repeat split. Qed.

Lemma last_block_last (self : Blockchain.t) (tip : Block.t) :
  Blockchain.last_block self = Ret tip ->
  exists first rest,
    Blockchain.chain self = first :: rest /\ tip = List.last rest first.
Proof.
  unfold Blockchain.last_block.
  destruct (Blockchain.chain self) as [|first rest]; [discriminate|].
  intros [= <-]. eauto.
Qed.

(** Appending a block that passed the checks of [add_block]. *)
Lemma chain_ok_append (difficulty : Z) (self : Blockchain.t) (tip block : Block.t) :
  chain_ok difficulty self ->
  Blockchain.last_block self = Ret tip ->
  block_checked (Blockchain.pow self) tip block ->
  chain_ok difficulty
    (Blockchain.set_chain self (Blockchain.chain self ++ [block])).
Proof.
  intros (Hd & Hp & Hv) Htip Hb.
  destruct (last_block_last _ _ Htip) as (first & rest & Hc & ->).
  repeat split; [exact Hd | exact Hp |].
  unfold Blockchain.verify_chain in *.
  cbn [Blockchain.set_chain Blockchain.chain Blockchain.pow].
  rewrite Hc in *. rewrite <- app_comm_cons.
  apply check_blocks_app. split; [exact Hv | exact Hb].
Qed.

Lemma chain_ok_set_pending (difficulty : Z) (self : Blockchain.t)
    (p : list (string * Block.t)) :
  chain_ok difficulty self ->
  chain_ok difficulty (Blockchain.set_pending_blocks self p).
Proof. intros H. exact H. Qed.

Section Drain.
Variable difficulty : Z.
Variable add : Blockchain.t -> Block.t -> Blockchain.t * outcome bool.
Hypothesis add_ok :
  forall self block, chain_ok difficulty self ->
                     chain_ok difficulty (fst (add self block)).

Lemma scan_pending_ok (items : list (string * Block.t)) :
  forall self,
    chain_ok difficulty self ->
    chain_ok difficulty (fst (Blockchain.scan_pending add items self)).
Proof.
  induction items as [|[block_hash block] rest IH]; intros self Hok;
    cbn [Blockchain.scan_pending]; [exact Hok|].
  destruct (Blockchain.last_block self) as [tip|e]; [|exact Hok].
  destruct (String.eqb (Block.previous_hash block) (Block.hash tip));
    [|apply IH; exact Hok].
  pose proof (add_ok self block Hok) as Hadd.
  destruct (add self block) as [self1 [[|]|e]]; cbn [fst] in Hadd.
  - destruct (dict_del (Blockchain.pending_blocks self1) block_hash);
      cbn [fst]; exact Hadd.
  - apply IH. exact Hadd.
  - exact Hadd.
Qed.

Lemma drain_pending_ok (n : nat) :
  forall self,
    chain_ok difficulty self ->
    chain_ok difficulty (fst (Blockchain.drain_pending add n self)).
Proof.
  induction n as [|n IH]; intros self Hok; cbn [Blockchain.drain_pending];
    [exact Hok|].
  pose proof (scan_pending_ok (Blockchain.pending_blocks self) self Hok) as Hs.
  destruct (Blockchain.scan_pending add (Blockchain.pending_blocks self) self)
    as [self1 [[|]|e]]; cbn [fst] in Hs |- *.
  - apply IH. exact Hs.
  - exact Hs.
  - exact Hs.
Qed.
End Drain.

Lemma add_block_ok (difficulty : Z) (depth : nat) :
  forall self block,
    chain_ok difficulty self ->
    chain_ok difficulty (fst (Blockchain.add_block depth self block)).
Proof.
  induction depth as [|depth IH]; intros self block Hok;
    cbn [Blockchain.add_block].
  - destruct (Block.is_valid block) eqn:Hv; cbn [negb]; [|exact Hok].
    destruct (Blockchain.last_block self) as [tip|e] eqn:Htip; [|exact Hok].
    destruct (String.eqb_spec (Block.previous_hash block) (Block.hash tip));
      [|exact Hok].
    destruct (ProofOfWork.validate (Blockchain.pow self) block) eqn:Hw;
      cbn [negb fst]; [|exact Hok].
    apply (chain_ok_append difficulty self tip block Hok Htip).
    repeat split; assumption.
  - destruct (Block.is_valid block) eqn:Hv; cbn [negb]; [|exact Hok].
    destruct (Blockchain.last_block self) as [tip|e] eqn:Htip; [|exact Hok].
    destruct (String.eqb_spec (Block.previous_hash block) (Block.hash tip));
      [|exact Hok].
    destruct (ProofOfWork.validate (Blockchain.pow self) block) eqn:Hw;
      cbn [negb]; [|exact Hok].
    assert (chain_ok difficulty
              (Blockchain.set_chain self (Blockchain.chain self ++ [block])))
      as Hok1.
    { apply (chain_ok_append difficulty self tip block Hok Htip).
      repeat split; assumption. }
    unfold Blockchain._process_pending_blocks.
    set (self1 := Blockchain.set_chain self (Blockchain.chain self ++ [block])) in *.
    pose proof (drain_pending_ok difficulty (Blockchain.add_block depth) IH
                  (S (List.length (Blockchain.pending_blocks self1))) self1 Hok1)
      as Hdrain.
    destruct (Blockchain.drain_pending (Blockchain.add_block depth) _ self1)
      as [self2 [u|e']]; exact Hdrain.
Qed.

Lemma chain_step_ok (difficulty : Z) (self self' : Blockchain.t) :
  chain_ok difficulty self -> chain_step self self' ->
  chain_ok difficulty self'.
Proof.
  intros Hok Hstep. destruct Hstep as
      [self transaction | depth now self miner_address
       | depth self block | self new_chain].
  - unfold Blockchain.add_transaction.
    destruct (tx_calculate_hash transaction) as [tx_hash|e]; [|exact Hok].
    destruct (bool_decide _); [exact Hok|].
    destruct (Blockchain.validate_transaction transaction); cbn [negb fst];
      exact Hok.
  - unfold Blockchain.mine_block.
    destruct (Blockchain.unconfirmed_transactions self) as [|tx txs] eqn:Hu;
      [exact Hok|].
    destruct (Blockchain.last_block self) as [tip|e]; [|exact Hok].
    destruct (ProofOfWork.mine _ _) as [[new_block [|]]|e]; try exact Hok.
    pose proof (add_block_ok difficulty depth
                  (Blockchain.set_unconfirmed_transactions self
                     (skipn 10 (tx :: txs))) new_block Hok) as Hadd.
    destruct (Blockchain.add_block depth _ new_block) as [self1 [[|]|e]];
      exact Hadd.
  - apply add_block_ok. exact Hok.
  - destruct Hok as (Hd & Hp & Hv).
    unfold Blockchain.replace_chain, Blockchain._validate_chain.
    destruct new_chain as [|first rest]; [repeat split; assumption|].
    destruct (Blockchain.chain self) as [|genesis others] eqn:Hc;
      [repeat split; assumption|].
    destruct (negb _); [repeat split; assumption|].
    destruct (Blockchain.check_blocks (Blockchain.pow self) first rest) eqn:Hcb;
      [|repeat split; assumption].
    destruct (Nat.leb _ _); cbn [fst]; [repeat split; assumption|].
    repeat split; try assumption.
Qed.

Lemma reachable_ok (now : spec_float) (difficulty : Z) (self : Blockchain.t) :
  reachable now difficulty self -> chain_ok difficulty self.
Proof.
  induction 1 as [|self self' _ IH Hstep].
  - apply chain_ok_init.
  - exact (chain_step_ok difficulty self self' IH Hstep).
Qed.

(** C5: in every state reached from [Blockchain(difficulty)] by any sequence
    of [add_transaction], [mine_block], [add_block] and [replace_chain], each
    block [B] at an index [i + 1 > 0] of the chain has a hash that starts with
    [difficulty] characters ['0'], that equals the hash recomputed from its
    contents, and its [previous_hash] is the hash of the block at index [i]. *)
Theorem reachable_chain_invariant (now : spec_float) (difficulty : Z)
    (self : Blockchain.t) (i : nat) (previous B : Block.t) :
  reachable now difficulty self ->
  nth_error (Blockchain.chain self) i = Some previous ->
  nth_error (Blockchain.chain self) (S i) = Some B ->
  String.prefix (zeros_string difficulty) (Block.hash B) = true /\
  Block.hash B = Block.calculate_hash B /\
  Block.previous_hash B = Block.hash previous.
Proof.
  intros Hreach Hp HB.
  destruct (reachable_ok now difficulty self Hreach) as (Hd & Hpow & Hv).
  unfold Blockchain.verify_chain in Hv.
  destruct (Blockchain.chain self) as [|first rest];
    [destruct i; discriminate|].
  apply check_blocks_spec in Hv.
  destruct (Hv i previous B Hp HB) as (_ & Hlink & Hw).
  apply validate_true in Hw. destruct Hw as [Hh Ht].
  rewrite Hpow in Ht. auto.
Qed.

(* --------------------------------------------------------------------- *)
(** ** Runs of the examples *)
(* --------------------------------------------------------------------- *)

(** The evaluated states are the ones the calls produce, and the pending
    blocks of the examples pass both checks of [add_block]. *)
Lemma example_chain_1_run :
  Blockchain.add_block 100 example_chain example_B1 = (example_chain_1, Ret true).
Proof. vm_compute. reflexivity. Qed.



Lemma example_fork_pending_run :
  offer_blocks example_chain [example_F2; example_B2; example_B3]
  = example_fork_pending.
Proof. vm_compute. reflexivity. Qed.

Lemma example_fork_drained_run :
  Blockchain.add_block 100 example_fork_pending example_B1
  = (example_fork_drained, Ret true).
Proof. vm_compute. reflexivity. Qed.

Lemma example_B2_checked :
  Block.is_valid example_B2 = true /\
  ProofOfWork.validate (ProofOfWork.init 1) example_B2 = true.
Proof. vm_compute. split; reflexivity. Qed.

Lemma example_B3_checked :
  Block.is_valid example_B3 = true /\
  ProofOfWork.validate (ProofOfWork.init 1) example_B3 = true.
Proof. vm_compute. split; reflexivity. Qed.

(* --------------------------------------------------------------------- *)
(** ** Balances *)
(* --------------------------------------------------------------------- *)

(** C3 (the code departs from the claim): on the chain made of the genesis
    block and [example_B1], a valid block accepted by [add_block] that holds
    the transaction [A -> B, 5] twice, [Blockchain.get_balance] credits [B]
    with [10.0] and debits [A] by [10.0]: the two occurrences of the one
    transaction identity are both counted.  ([get_balance] reads [tx.amount]
    only; no fee is debited.) *)
Theorem get_balance_counts_duplicates :
  let self := offer_blocks example_chain [example_B1] in
  Blockchain.chain self = [example_G; example_B1] /\
  Block.transactions example_B1
  = [example_transfer "A" "B" 5 1; example_transfer "A" "B" 5 1] /\
  Blockchain.get_balance self "B" = Ret (float_of_Z 10) /\
  Blockchain.get_balance self "A" = Ret (SFopp (float_of_Z 10)).
Proof.
  cbv zeta. unfold offer_blocks. cbn [fold_left].
  rewrite example_chain_1_run. cbn [fst].
  repeat split.
Qed.

(* --------------------------------------------------------------------- *)
(** ** The mempool *)
(* --------------------------------------------------------------------- *)

(** C4 (the code departs from the claim): [add_transaction] starts with
    [transaction.calculate_hash()], a method that the [Transaction] class of
    [block.py] -- the class [blockchain.py] imports and the gossip handler
    builds -- does not have.  Every call with such a transaction raises
    [AttributeError] and leaves the state as it was, whatever its fields. *)
Theorem add_transaction_raises (self : Blockchain.t) (transaction : Transaction.t) :
  Blockchain.add_transaction self (BlockTx transaction)
  = (self, Raise AttributeError).
Proof. reflexivity. Qed.

(** With an object that has [calculate_hash] (a wallet transaction), the
    first call with valid fields and an unknown identity returns [True] and
    appends one entry; a call with a known identity returns [False] and
    changes nothing. *)
Lemma add_transaction_wallet (self : Blockchain.t) (transaction : WalletTransaction.t) :
  let tx := WalletTx transaction in
  let tx_hash := WalletTransaction.calculate_hash transaction in
  (tx_hash ∈ Blockchain.known_transactions self ->
   Blockchain.add_transaction self tx = (self, Ret false)) /\
  (tx_hash ∉ Blockchain.known_transactions self ->
   Blockchain.validate_transaction tx = true ->
   let self' := fst (Blockchain.add_transaction self tx) in
   snd (Blockchain.add_transaction self tx) = Ret true /\
   Blockchain.unconfirmed_transactions self'
   = Blockchain.unconfirmed_transactions self ++ [tx] /\
   Blockchain.known_transactions self'
   = Blockchain.known_transactions self ∪ {[tx_hash]} /\
   Blockchain.add_transaction self' tx = (self', Ret false)).
Proof.
  cbv zeta. unfold Blockchain.add_transaction. cbn [tx_calculate_hash].
  split.
  - intros Hin. rewrite bool_decide_eq_true_2 by exact Hin. reflexivity.
  - intros Hnotin Hvalid.
    rewrite bool_decide_eq_false_2 by exact Hnotin.
    rewrite Hvalid. cbn [negb fst snd].
    cbn [Blockchain.known_transactions Blockchain.unconfirmed_transactions
         Blockchain.set_known_transactions
         Blockchain.set_unconfirmed_transactions].
    repeat split.
    rewrite bool_decide_eq_true_2 by set_solver. reflexivity.
Qed.

(* --------------------------------------------------------------------- *)
(** ** Signature verification *)
(* --------------------------------------------------------------------- *)

(** C9 (the code departs from the claim): [verify_transaction] catches
    [InvalidSignature] and [ValueError] only.  For a transaction without a
    signature ([signature] is [None], the default of the field) and a public
    key that loads, [base64.b64decode(None)] raises [TypeError], which
    propagates to the caller. *)
Theorem verify_transaction_propagates
    (public_key : Type)
    (load_pem_public_key : bytes -> outcome public_key)
    (b64decode_str : string -> outcome bytes)
    (ecdsa_verify : public_key -> bytes -> bytes -> outcome unit)
    (transaction : WalletTransaction.t) (public_key_bytes : bytes)
    (key : public_key) :
  load_pem_public_key public_key_bytes = Ret key ->
  WalletTransaction.signature transaction = None ->
  Wallet.verify_transaction public_key load_pem_public_key b64decode_str
    ecdsa_verify transaction public_key_bytes
  = Raise TypeError.
Proof.
  intros Hload Hsig. unfold Wallet.verify_transaction.
  rewrite Hload, Hsig. reflexivity.
Qed.

Lemma verify_transaction_propagates_witness :
  Wallet.verify_transaction unit (fun _ => Ret tt) (fun _ => Ret [])
    (fun _ _ _ => Ret tt) example_unsigned_tx []
  = Raise TypeError.
Proof.
  apply (verify_transaction_propagates unit (fun _ => Ret tt) (fun _ => Ret [])
           (fun _ _ _ => Ret tt) example_unsigned_tx [] tt); reflexivity.
Defined.

(** [Wallet.get_balance] asks every chain transaction for [calculate_hash];
    the genesis transaction is a [block.py] transaction, so the query raises
    on the chain of every fresh node. *)
Lemma wallet_get_balance_raises (now : spec_float) (difficulty : Z) (address : string) :
  Wallet.get_balance address (Blockchain.init now difficulty)
  = Raise AttributeError.
Proof. reflexivity. Qed.

(* --------------------------------------------------------------------- *)
(** ** Instances of the chain theorems *)
(* --------------------------------------------------------------------- *)

Lemma reachable_chain_invariant_witness :
  String.prefix (zeros_string 1) (Block.hash example_B1) = true /\
  Block.hash example_B1 = Block.calculate_hash example_B1 /\
  Block.previous_hash example_B1 = Block.hash example_G.
Proof.
  apply (reachable_chain_invariant example_now 1
           (fst (Blockchain.add_block 100 example_chain example_B1)) 0).
  - apply (reachable_step _ _ example_chain); [apply reachable_init|].
    apply step_add_block.
  - rewrite example_chain_1_run. reflexivity.
  - rewrite example_chain_1_run. reflexivity.
Defined.


(* --------------------------------------------------------------------- *)
(** ** The pending drain *)
(* --------------------------------------------------------------------- *)

Lemma continues_refl (self : Blockchain.t) : continues self self.
Proof. split; [exists []; symmetry; apply app_nil_r | split; auto]. Qed.

Lemma continues_trans (s1 s2 s3 : Blockchain.t) :
  continues s1 s2 -> continues s2 s3 -> continues s1 s3.
Proof.
  intros ([p1 H1] & Hp1 & Hk1) ([p2 H2] & Hp2 & Hk2). split; [|split].
  - exists (p1 ++ p2). rewrite H2, H1, app_assoc. reflexivity.
  - congruence.
  - auto.
Qed.

Lemma dict_del_keys (p p' : list (string * Block.t)) (k : string) :
  dict_del p k = Ret p' ->
  ~ In k (List.map fst p') /\
  forall k', In k' (List.map fst p') -> In k' (List.map fst p).
Proof.
  unfold dict_del. destruct (dict_has p k); [|discriminate].
  intros [= <-]. split.
  - intros Hin. apply in_map_iff in Hin as ([k0 b] & Hk & Hf).
    apply filter_In in Hf as [_ Hf]. cbn [fst] in *. subst k0.
    rewrite String.eqb_refl in Hf. discriminate.
  - intros k' Hin. apply in_map_iff in Hin as (kv & Hk & Hf).
    apply filter_In in Hf as [Hf _]. apply in_map_iff. eauto.
Qed.

Lemma continues_del (self : Blockchain.t) (k : string)
    (p : list (string * Block.t)) :
  dict_del (Blockchain.pending_blocks self) k = Ret p ->
  continues self (Blockchain.set_pending_blocks self p) /\
  ~ In k (pending_keys (Blockchain.set_pending_blocks self p)).
Proof.
  intros Hdel. destruct (dict_del_keys _ _ _ Hdel) as [Hno Hsub].
  split; [|exact Hno].
  split; [exists []; symmetry; apply app_nil_r | split; [reflexivity|exact Hsub]].
Qed.


Section DrainEffect.
Variable add : Blockchain.t -> Block.t -> Blockchain.t * outcome bool.
Hypothesis add_effect : add_block_effect add.

Lemma add_continues (self : Blockchain.t) (block : Block.t) :
  connects self block -> continues self (fst (add self block)).
Proof.
  intros Hc. destruct (add_effect self block) as (Hchain & Hpow & Hkeys & _).
  split; [exact Hchain | split; [exact Hpow | exact (Hkeys Hc)]].
Qed.

Lemma scan_pending_continues (items : list (string * Block.t)) :
  forall self, continues self (fst (Blockchain.scan_pending add items self)).
Proof.
  induction items as [|[block_hash block] rest IH]; intros self;
    cbn [Blockchain.scan_pending]; [apply continues_refl|].
  destruct (Blockchain.last_block self) as [tip|e] eqn:Htip;
    [|apply continues_refl].
  destruct (String.eqb_spec (Block.previous_hash block) (Block.hash tip))
    as [Hlink|Hlink]; [|apply IH].
  assert (connects self block) as Hc by (exists tip; auto).
  pose proof (add_continues self block Hc) as Hadd.
  destruct (add self block) as [self1 [[|]|e]]; cbn [fst] in Hadd.
  - destruct (dict_del (Blockchain.pending_blocks self1) block_hash) as [p|e]
      eqn:Hdel; cbn [fst]; [|exact Hadd].
    apply (continues_trans _ _ _ Hadd). apply (continues_del _ _ _ Hdel).
  - apply (continues_trans _ _ _ Hadd). apply IH.
  - exact Hadd.
Qed.

Lemma drain_pending_continues (n : nat) :
  forall self, continues self (fst (Blockchain.drain_pending add n self)).
Proof.
  induction n as [|n IH]; intros self; cbn [Blockchain.drain_pending];
    [apply continues_refl|].
  pose proof (scan_pending_continues (Blockchain.pending_blocks self) self) as Hs.
  destruct (Blockchain.scan_pending add (Blockchain.pending_blocks self) self)
    as [self1 [[|]|e]]; cbn [fst] in Hs |- *; try exact Hs.
  apply (continues_trans _ _ _ Hs). apply IH.
Qed.

End DrainEffect.



Lemma add_block_has_effect (depth : nat) :
  add_block_effect (Blockchain.add_block depth).
Proof.
  induction depth as [|depth IH]; intros self block.
  - cbn [Blockchain.add_block].
    destruct (Block.is_valid block); cbn [negb].
    2:{ cbn [fst snd]. repeat split; auto; try discriminate.
        exists []. symmetry. apply app_nil_r. }
    destruct (Blockchain.last_block self) as [tip|e] eqn:Htip.
    2:{ cbn [fst snd]. repeat split; auto; try discriminate.
        exists []. symmetry. apply app_nil_r. }
    destruct (String.eqb_spec (Block.previous_hash block) (Block.hash tip))
      as [Hlink|Hlink].
    + destruct (ProofOfWork.validate (Blockchain.pow self) block); cbn [negb fst snd].
      * repeat split; auto; try discriminate. exists [block]. reflexivity.
      * repeat split; auto; try discriminate.
        exists []. symmetry. apply app_nil_r.
    + cbn [fst snd]. repeat split; try discriminate.
      * exists []. symmetry. apply app_nil_r.
      * intros (tip' & Htip' & Hl). congruence.
  - cbn [Blockchain.add_block].
    destruct (Block.is_valid block); cbn [negb].
    2:{ cbn [fst snd]. repeat split; auto; try discriminate.
        exists []. symmetry. apply app_nil_r. }
    destruct (Blockchain.last_block self) as [tip|e] eqn:Htip.
    2:{ cbn [fst snd]. repeat split; auto; try discriminate.
        exists []. symmetry. apply app_nil_r. }
    destruct (String.eqb_spec (Block.previous_hash block) (Block.hash tip))
      as [Hlink|Hlink].
    + destruct (ProofOfWork.validate (Blockchain.pow self) block); cbn [negb].
      2:{ cbn [fst snd]. repeat split; auto; try discriminate.
          exists []. symmetry. apply app_nil_r. }
      set (self1 := Blockchain.set_chain self (Blockchain.chain self ++ [block])).
      unfold Blockchain._process_pending_blocks.
      pose proof (drain_pending_continues (Blockchain.add_block depth) IH
                    (S (List.length (Blockchain.pending_blocks self1))) self1)
        as ([post Hpost] & Hpow & Hkeys).
      assert (Blockchain.chain
                (fst (Blockchain.drain_pending (Blockchain.add_block depth)
                        (S (List.length (Blockchain.pending_blocks self1))) self1))
              = Blockchain.chain self ++ block :: post) as Hchain.
      { rewrite Hpost. unfold self1. cbn [Blockchain.set_chain Blockchain.chain].
        rewrite <- app_assoc. reflexivity. }
      destruct (Blockchain.drain_pending (Blockchain.add_block depth) _ self1)
        as [self2 [u|e]]; cbn [fst snd] in *.
      * repeat split; eauto.
      * repeat split; eauto; try discriminate.
    + cbn [fst snd]. repeat split; try discriminate.
      * exists []. symmetry. apply app_nil_r.
      * intros (tip' & Htip' & Hl). congruence.
Qed.





(** The run of the counterexample: the chain ends with [example_F2], and the
    two blocks of the claim are still pending. *)
Example pending_drain_fork_run :
  let self := offer_blocks example_chain [example_F2; example_B2; example_B3] in
  let self' := fst (Blockchain.add_block 100 self example_B1) in
  snd (Blockchain.add_block 100 self example_B1) = Ret true /\
  Blockchain.chain self' = [example_G; example_B1; example_F2] /\
  pending_keys self' = [Block.hash example_B2; Block.hash example_B3].
Proof.
  cbv zeta. rewrite example_fork_pending_run, example_fork_drained_run.
  repeat split.
Qed.

(* --------------------------------------------------------------------- *)
(** ** Hexadecimal digests *)
(* --------------------------------------------------------------------- *)

Lemma hex_of_bytes_length (b : bytes) :
  String.length (hex_of_bytes b) = (2 * List.length b)%nat.
Proof.
  induction b as [|x b IH]; cbn [hex_of_bytes String.length List.length];
    [reflexivity|].
  rewrite IH. lia.
Qed.

Lemma sha256_hexdigest_length (b : bytes) :
  String.length (sha256_hexdigest b) = 64%nat.
Proof.
  unfold sha256_hexdigest. rewrite hex_of_bytes_length, sha256_digest_length.
  reflexivity.
Qed.

Lemma hex_digits_of_byte (x : byte) :
  exists hi lo,
    0 <= hi < 16 /\ 0 <= lo < 16 /\
    byte_to_Z x / 16 = hi /\ byte_to_Z x mod 16 = lo /\
    Z_to_byte (16 * hi + lo) = x.
Proof.
  exists (byte_to_Z x / 16), (byte_to_Z x mod 16).
  pose proof (byte_to_Z_range x) as Hx.
  repeat split; try (apply Z.div_pos; lia); try (apply Z.div_lt_upper_bound; lia);
    try (apply Z.mod_pos_bound; lia).
  rewrite <- Z.div_mod by lia.
  unfold Z_to_byte, byte_to_Z in *. rewrite Z.mod_small by lia.
  rewrite N2Z.id, Byte.of_to_N. reflexivity.
Qed.

Lemma hex_digit_value (n : Z) :
  0 <= n < 16 ->
  Wallet.hex_value (hex_digit n) = Some n /\ Wallet.is_space (hex_digit n) = false /\
  In (hex_digit n) (list_ascii_of_string "0123456789abcdef").
Proof.
  intros Hn. rewrite <- (Z2Nat.id n) by lia.
  assert (Z.to_nat n < 16)%nat as Hk by lia.
  revert Hk. generalize (Z.to_nat n). intros k Hk.
  do 16 (destruct k as [|k]; [vm_compute; intuition congruence|]).
  lia.
Qed.

Lemma bytes_fromhex_hex (b : bytes) :
  Wallet.bytes_fromhex (hex_of_bytes b) = Ret b.
Proof.
  induction b as [|x b IH]; [reflexivity|].
  destruct (hex_digits_of_byte x) as (hi & lo & Hhi & Hlo & Ehi & Elo & Ex).
  cbn [hex_of_bytes]. rewrite Ehi, Elo.
  destruct (hex_digit_value hi Hhi) as (Hv1 & Hs1 & _).
  destruct (hex_digit_value lo Hlo) as (Hv2 & _ & _).
  cbn [Wallet.bytes_fromhex]. rewrite Hs1, Hv1, Hv2, IH.
  cbn. rewrite Ex. reflexivity.
Qed.

Lemma hex_of_bytes_digits (b : bytes) :
  Forall (fun c => In c (list_ascii_of_string "0123456789abcdef"))
         (list_ascii_of_string (hex_of_bytes b)).
Proof.
  induction b as [|x b IH]; cbn [hex_of_bytes list_ascii_of_string]; [constructor|].
  destruct (hex_digits_of_byte x) as (hi & lo & Hhi & Hlo & Ehi & Elo & _).
  rewrite Ehi, Elo.
  constructor; [apply (hex_digit_value hi Hhi)|].
  constructor; [apply (hex_digit_value lo Hlo)|exact IH].
Qed.

Lemma hash_data_digest (d : data) :
  exists b, hash_data d = sha256_hexdigest b.
Proof. destruct d; unfold hash_data; eauto. Qed.

(* --------------------------------------------------------------------- *)
(** ** Difficulty and leading zeros *)
(* --------------------------------------------------------------------- *)

Lemma prefix_zeros_length (n : nat) (s : string) :
  String.prefix (FloatRepr.zeros n) s = true -> (n <= String.length s)%nat.
Proof.
  revert s. induction n as [|n IH]; intros s H; [lia|].
  destruct s as [|c s]; cbn [FloatRepr.zeros String.prefix] in H; [discriminate|].
  destruct (Ascii.ascii_dec "0"%char c); [|discriminate].
  apply IH in H. cbn [String.length]. lia.
Qed.

Lemma prefix_zeros_le (n m : nat) (s : string) :
  (n <= m)%nat ->
  String.prefix (FloatRepr.zeros m) s = true ->
  String.prefix (FloatRepr.zeros n) s = true.
Proof.
  revert m s. induction n as [|n IH]; intros m s Hnm H.
  - destruct s; reflexivity.
  - destruct m as [|m]; [lia|].
    destruct s as [|c s]; cbn [FloatRepr.zeros String.prefix] in H |- *;
      [discriminate|].
    destruct (Ascii.ascii_dec "0"%char c); [|discriminate].
    apply (IH m); [lia|exact H].
Qed.

Lemma calculate_hash_length (b : Block.t) :
  String.length (Block.calculate_hash b) = 64%nat.
Proof.
  unfold Block.calculate_hash.
  destruct (hash_data_digest (DataDict (Block.block_dict b))) as [x ->].
  apply sha256_hexdigest_length.
Qed.

(** X3: a block that passes [is_valid] has a hash of 64 characters and a
    difficulty of at most 64: no hash starts with more zeros than it has
    characters. *)
Theorem is_valid_difficulty_bound (b : Block.t) :
  Block.is_valid b = true ->
  Block.difficulty b <= 64 /\ String.length (Block.hash b) = 64%nat.
Proof.
  intros H. apply is_valid_true in H. destruct H as (Hh & Hp & _).
  assert (String.length (Block.hash b) = 64%nat) as Hlen
    by (rewrite Hh; apply calculate_hash_length).
  split; [|exact Hlen].
  apply prefix_zeros_length in Hp. unfold zeros_string in Hp. lia.
Qed.

(** X4: a block that passes [is_valid] and whose own [difficulty] is at least
    the difficulty of a validator passes that validator's [validate]: the
    second check of [add_block] can fail only for a block that declares a
    lower difficulty than the chain's. *)
Theorem is_valid_validate (b : Block.t) (difficulty : Z) :
  Block.is_valid b = true ->
  difficulty <= Block.difficulty b ->
  ProofOfWork.validate (ProofOfWork.init difficulty) b = true.
Proof.
  intros H Hd. apply is_valid_true in H. destruct H as (Hh & Hp & _).
  apply validate_true. split; [exact Hh|].
  cbn [ProofOfWork.init ProofOfWork.target]. unfold zeros_string in *.
  apply (prefix_zeros_le _ (Z.to_nat (Block.difficulty b))); [lia|exact Hp].
Qed.

Lemma is_valid_difficulty_bound_witness :
  Block.difficulty example_B2 <= 64 /\
  String.length (Block.hash example_B2) = 64%nat.
Proof.
  apply (is_valid_difficulty_bound example_B2). exact (proj1 example_B2_checked).
Defined.

Lemma is_valid_validate_witness :
  ProofOfWork.validate (ProofOfWork.init 0) example_B3 = true.
Proof.
  apply (is_valid_validate example_B3 0).
  - exact (proj1 example_B3_checked).
  - discriminate.
Defined.

(* --------------------------------------------------------------------- *)
(** ** Mining *)
(* --------------------------------------------------------------------- *)

(** The block that the loop tries at [nonce]. *)
Lemma mine_loop_spec (self : ProofOfWork.t) (n : nat) :
  forall (nonce : Z) (block block' : Block.t),
    ProofOfWork.mine_loop self n nonce block = (block', true) ->
    exists k : nat,
      (k < n)%nat /\
      (let tried := Block.set_nonce block (nonce + Z.of_nat k) in
       block' = Block.set_hash tried (Block.calculate_hash tried) /\
       String.prefix (ProofOfWork.target self) (Block.calculate_hash tried) = true) /\
      (forall j : nat,
          (j < k)%nat ->
          String.prefix (ProofOfWork.target self)
            (Block.calculate_hash (Block.set_nonce block (nonce + Z.of_nat j)))
          = false).
Proof.
  induction n as [|n IH]; intros nonce block block' H;
    cbn [ProofOfWork.mine_loop] in H; [discriminate|].
  destruct (String.prefix (ProofOfWork.target self)
              (Block.calculate_hash (Block.set_nonce block nonce))) eqn:Hp.
  - exists 0%nat. rewrite Z.add_0_r. cbv zeta.
    split; [lia|]. split; [split; [congruence|exact Hp]|]. intros j Hj. lia.
  - apply IH in H. destruct H as (k & Hk & (Hb & Ht) & Hmin).
    assert (forall z, Block.set_nonce (Block.set_nonce block nonce) z
                      = Block.set_nonce block z) as Hset by reflexivity.
    rewrite Hset in Hb, Ht.
    exists (S k). cbv zeta.
    replace (nonce + Z.of_nat (S k)) with (nonce + 1 + Z.of_nat k) by lia.
    split; [lia|]. split; [split; [exact Hb|exact Ht]|].
    intros [|j] Hj.
    + rewrite Z.add_0_r. exact Hp.
    + specialize (Hmin j ltac:(lia)). rewrite Hset in Hmin.
      replace (nonce + Z.of_nat (S j)) with (nonce + 1 + Z.of_nat j) by lia.
      exact Hmin.
Qed.

(** X5: when the search loop of [mine] ends with [True], the block it leaves
    passes [validate]; its nonce is the least one, from the start of the
    search, whose hash starts with the target; and the block passes
    [is_valid] when the target is the one of the block's own difficulty and
    its transactions are [block.py] transactions. *)
Theorem mine_loop_validates (self : ProofOfWork.t) (n : nat) (nonce : Z)
    (block block' : Block.t) :
  ProofOfWork.mine_loop self n nonce block = (block', true) ->
  ProofOfWork.validate self block' = true /\
  (exists k : nat,
      (k < n)%nat /\ Block.nonce block' = nonce + Z.of_nat k /\
      forall j : nat,
        (j < k)%nat ->
        String.prefix (ProofOfWork.target self)
          (Block.calculate_hash (Block.set_nonce block (nonce + Z.of_nat j)))
        = false) /\
  (ProofOfWork.target self = zeros_string (Block.difficulty block) ->
   forallb isinstance_Transaction (Block.transactions block) = true ->
   Block.is_valid block' = true).
Proof.
  intros H. apply mine_loop_spec in H.
  destruct H as (k & Hk & (Hb & Ht) & Hmin). cbv zeta in Hb, Ht.
  assert (Block.hash block' = Block.calculate_hash block') as Hh
    by (subst block'; reflexivity).
  assert (Block.calculate_hash block'
          = Block.calculate_hash (Block.set_nonce block (nonce + Z.of_nat k)))
    as Hc by (subst block'; reflexivity).
  split; [|split].
  - apply validate_true. split; [exact Hh|]. rewrite Hh, Hc. exact Ht.
  - exists k. split; [exact Hk|]. split; [subst block'; reflexivity|exact Hmin].
  - intros Htarget Htx. apply is_valid_true. split; [exact Hh|].
    split.
    + rewrite Hh, Hc.
      replace (Block.difficulty block') with (Block.difficulty block)
        by (subst block'; reflexivity).
      rewrite <- Htarget. exact Ht.
    + subst block'. exact Htx.
Qed.

(** The search from nonce 0 finds the nonce of [example_B2]. *)
Lemma example_B2_mined :
  ProofOfWork.mine_loop (ProofOfWork.init 1) 5 0 example_B2 = (example_B2, true).
Proof. vm_compute. reflexivity. Qed.

Lemma mine_loop_validates_witness :
  ProofOfWork.validate (ProofOfWork.init 1) example_B2 = true /\
  (exists k : nat,
      (k < 5)%nat /\ Block.nonce example_B2 = 0 + Z.of_nat k /\
      forall j : nat,
        (j < k)%nat ->
        String.prefix (ProofOfWork.target (ProofOfWork.init 1))
          (Block.calculate_hash (Block.set_nonce example_B2 (0 + Z.of_nat j)))
        = false) /\
  (ProofOfWork.target (ProofOfWork.init 1)
   = zeros_string (Block.difficulty example_B2) ->
   forallb isinstance_Transaction (Block.transactions example_B2) = true ->
   Block.is_valid example_B2 = true).
Proof.
  exact (mine_loop_validates (ProofOfWork.init 1) 5 0 example_B2 example_B2
           example_B2_mined).
Defined.

(** X6: [mine_block] never mines: [ProofOfWork.mine] formats [block.height],
    which no [Block] has, before it enters its loop.  The call leaves the
    node as it was and never returns a block; it returns [None] for an empty
    mempool and raises [AttributeError] otherwise (on a non-empty chain). *)
Theorem mine_block_never_mines (depth : nat) (now : spec_float)
    (self : Blockchain.t) (miner_address : string) :
  fst (Blockchain.mine_block depth now self miner_address) = self /\
  (forall block,
      snd (Blockchain.mine_block depth now self miner_address) <> Ret (Some block)) /\
  (Blockchain.unconfirmed_transactions self = [] ->
   snd (Blockchain.mine_block depth now self miner_address) = Ret None) /\
  (Blockchain.unconfirmed_transactions self <> [] ->
   Blockchain.chain self <> [] ->
   snd (Blockchain.mine_block depth now self miner_address) = Raise AttributeError).
Proof.
  unfold Blockchain.mine_block, Blockchain.last_block, ProofOfWork.mine.
  destruct (Blockchain.unconfirmed_transactions self) as [|tx txs];
    [cbn [fst snd]; repeat split; congruence|].
  destruct (Blockchain.chain self) as [|first rest];
    cbn [fst snd mbind outcome_bind ProofOfWork.block_height];
    repeat split; congruence.
Qed.

(* --------------------------------------------------------------------- *)
(** ** What [add_block] changes *)
(* --------------------------------------------------------------------- *)

(** Every state change of [add_block] is one of three: a checked block is
    appended to the chain, a valid block that does not connect is stored in
    the pending set, or a key is deleted from the pending set.  A relation
    that contains these changes and is reflexive and transitive relates the
    state before a call to the state after it. *)
Section AddBlockChanges.
Variable R : Blockchain.t -> Blockchain.t -> Prop.
Hypothesis R_refl : forall s, R s s.
Hypothesis R_trans : forall s1 s2 s3, R s1 s2 -> R s2 s3 -> R s1 s3.
Hypothesis R_append :
  forall s block tip,
    Blockchain.last_block s = Ret tip ->
    Block.is_valid block = true ->
    Block.previous_hash block = Block.hash tip ->
    ProofOfWork.validate (Blockchain.pow s) block = true ->
    R s (Blockchain.set_chain s (Blockchain.chain s ++ [block])).
Hypothesis R_store :
  forall s block tip,
    Blockchain.last_block s = Ret tip ->
    Block.is_valid block = true ->
    Block.previous_hash block <> Block.hash tip ->
    R s (Blockchain.set_pending_blocks s
           (dict_set (Blockchain.pending_blocks s) (Block.hash block) block)).
Hypothesis R_del :
  forall s k p,
    dict_del (Blockchain.pending_blocks s) k = Ret p ->
    R s (Blockchain.set_pending_blocks s p).

Section Loops.
Variable add : Blockchain.t -> Block.t -> Blockchain.t * outcome bool.
Hypothesis add_R : forall s b, R s (fst (add s b)).

Lemma scan_pending_changes (items : list (string * Block.t)) :
  forall s, R s (fst (Blockchain.scan_pending add items s)).
Proof.
  induction items as [|[block_hash block] rest IH]; intros s;
    cbn [Blockchain.scan_pending]; [apply R_refl|].
  destruct (Blockchain.last_block s) as [tip|e]; [|apply R_refl].
  destruct (String.eqb (Block.previous_hash block) (Block.hash tip)); [|apply IH].
  pose proof (add_R s block) as Hadd.
  destruct (add s block) as [s1 [[|]|e]]; cbn [fst] in Hadd.
  - destruct (dict_del (Blockchain.pending_blocks s1) block_hash) as [p|e]
      eqn:Hdel; cbn [fst]; [|exact Hadd].
    exact (R_trans _ _ _ Hadd (R_del _ _ _ Hdel)).
  - exact (R_trans _ _ _ Hadd (IH s1)).
  - exact Hadd.
Qed.

Lemma drain_pending_changes (n : nat) :
  forall s, R s (fst (Blockchain.drain_pending add n s)).
Proof.
  induction n as [|n IH]; intros s; cbn [Blockchain.drain_pending];
    [apply R_refl|].
  pose proof (scan_pending_changes (Blockchain.pending_blocks s) s) as Hs.
  destruct (Blockchain.scan_pending add (Blockchain.pending_blocks s) s)
    as [s1 [[|]|e]]; cbn [fst] in Hs |- *; try exact Hs.
  exact (R_trans _ _ _ Hs (IH s1)).
Qed.
End Loops.

Lemma add_block_changes (depth : nat) :
  forall s block, R s (fst (Blockchain.add_block depth s block)).
Proof.
  induction depth as [|depth IH]; intros s block; cbn [Blockchain.add_block];
    destruct (Block.is_valid block) eqn:Hvalid; cbn [negb fst];
    try apply R_refl;
    (destruct (Blockchain.last_block s) as [tip|e] eqn:Htip;
     [|apply R_refl]);
    (destruct (String.eqb_spec (Block.previous_hash block) (Block.hash tip))
       as [Hlink|Hlink]; [|exact (R_store s block tip Htip Hvalid Hlink)]);
    (destruct (ProofOfWork.validate (Blockchain.pow s) block) eqn:Hpow;
     cbn [negb fst]; [|apply R_refl]);
    pose proof (R_append s block tip Htip Hvalid Hlink Hpow) as Happ.
  - exact Happ.
  - unfold Blockchain._process_pending_blocks.
    pose proof (drain_pending_changes (Blockchain.add_block depth) IH
                  (S (List.length
                        (Blockchain.pending_blocks
                           (Blockchain.set_chain s (Blockchain.chain s ++ [block])))))
                  (Blockchain.set_chain s (Blockchain.chain s ++ [block]))) as Hd.
    destruct (Blockchain.drain_pending _ _ _) as [s2 [u|e]]; cbn [fst] in Hd |- *;
      exact (R_trans _ _ _ Happ Hd).
Qed.
End AddBlockChanges.

Lemma add_block_chain_frame (depth : nat) (self : Blockchain.t) (block : Block.t) :
  (exists post,
      Blockchain.chain (fst (Blockchain.add_block depth self block))
      = Blockchain.chain self ++ post) /\
  Blockchain.unconfirmed_transactions (fst (Blockchain.add_block depth self block))
  = Blockchain.unconfirmed_transactions self /\
  Blockchain.known_transactions (fst (Blockchain.add_block depth self block))
  = Blockchain.known_transactions self /\
  Blockchain.orphan_blocks (fst (Blockchain.add_block depth self block))
  = Blockchain.orphan_blocks self /\
  Blockchain.difficulty (fst (Blockchain.add_block depth self block))
  = Blockchain.difficulty self /\
  Blockchain.pow (fst (Blockchain.add_block depth self block))
  = Blockchain.pow self.
Proof.
  apply (add_block_changes
           (fun s s' =>
              (exists post, Blockchain.chain s' = Blockchain.chain s ++ post) /\
              Blockchain.unconfirmed_transactions s'
              = Blockchain.unconfirmed_transactions s /\
              Blockchain.known_transactions s' = Blockchain.known_transactions s /\
              Blockchain.orphan_blocks s' = Blockchain.orphan_blocks s /\
              Blockchain.difficulty s' = Blockchain.difficulty s /\
              Blockchain.pow s' = Blockchain.pow s)).
  - intros s. split; [exists []; symmetry; apply app_nil_r|]. repeat split.
  - intros s1 s2 s3 ([p1 H1] & Ha1 & Hb1 & Hc1 & Hd1 & He1)
      ([p2 H2] & Ha2 & Hb2 & Hc2 & Hd2 & He2).
    split; [exists (p1 ++ p2); rewrite H2, H1, app_assoc; reflexivity|].
    repeat split; congruence.
  - intros s b tip _ _ _ _. split; [exists [b]; reflexivity|]. repeat split.
  - intros s b tip _ _ _. split; [exists []; symmetry; apply app_nil_r|].
    repeat split.
  - intros s k p _. split; [exists []; symmetry; apply app_nil_r|]. repeat split.
Qed.

Lemma add_block_false_chain (depth : nat) (self : Blockchain.t) (block : Block.t) :
  snd (Blockchain.add_block depth self block) = Ret false ->
  Blockchain.chain (fst (Blockchain.add_block depth self block))
  = Blockchain.chain self.
Proof.
  destruct depth as [|depth]; cbn [Blockchain.add_block];
    (destruct (Block.is_valid block); cbn [negb]; [|reflexivity]);
    (destruct (Blockchain.last_block self) as [tip|e]; [|reflexivity]);
    (destruct (String.eqb (Block.previous_hash block) (Block.hash tip));
     [|reflexivity]);
    (destruct (ProofOfWork.validate (Blockchain.pow self) block); cbn [negb];
     [|reflexivity]).
  - discriminate.
  - destruct (Blockchain._process_pending_blocks _ _) as [s [u|e]]; discriminate.
Qed.

(** X7: [add_block] never rewrites the chain: the chain before the call is a
    prefix of the chain after it; a result [True] means that the block
    was appended right after the old chain, a result [False] that the chain
    did not change.  The mempool, the known identities, the orphan set, the
    difficulty and the validator are left alone, also when the new blocks
    hold transactions of the mempool. *)
Theorem add_block_frame (depth : nat) (self : Blockchain.t) (block : Block.t) :
  let self' := fst (Blockchain.add_block depth self block) in
  (exists post, Blockchain.chain self' = Blockchain.chain self ++ post) /\
  (snd (Blockchain.add_block depth self block) = Ret true ->
   exists post, Blockchain.chain self' = Blockchain.chain self ++ block :: post) /\
  (snd (Blockchain.add_block depth self block) = Ret false ->
   Blockchain.chain self' = Blockchain.chain self) /\
  Blockchain.unconfirmed_transactions self' = Blockchain.unconfirmed_transactions self /\
  Blockchain.known_transactions self' = Blockchain.known_transactions self /\
  Blockchain.orphan_blocks self' = Blockchain.orphan_blocks self /\
  Blockchain.difficulty self' = Blockchain.difficulty self /\
  Blockchain.pow self' = Blockchain.pow self.
Proof.
  cbv zeta.
  destruct (add_block_chain_frame depth self block) as (Hc & Hrest).
  destruct (add_block_has_effect depth self block) as (_ & _ & _ & Htrue).
  split; [exact Hc|]. split; [exact Htrue|].
  split; [apply add_block_false_chain|exact Hrest].
Qed.

(* --------------------------------------------------------------------- *)
(** ** Invariants of the reachable states *)
(* --------------------------------------------------------------------- *)

Lemma add_transaction_frame (self : Blockchain.t) (transaction : tx_object) :
  let self' := fst (Blockchain.add_transaction self transaction) in
  Blockchain.chain self' = Blockchain.chain self /\
  Blockchain.pending_blocks self' = Blockchain.pending_blocks self /\
  Blockchain.orphan_blocks self' = Blockchain.orphan_blocks self /\
  Blockchain.difficulty self' = Blockchain.difficulty self /\
  Blockchain.pow self' = Blockchain.pow self.
Proof.
  cbv zeta. unfold Blockchain.add_transaction.
  destruct (tx_calculate_hash transaction) as [h|e]; [|repeat split].
  destruct (bool_decide (h ∈ Blockchain.known_transactions self)); [repeat split|].
  destruct (Blockchain.validate_transaction transaction); repeat split.
Qed.

Lemma mine_block_state (depth : nat) (now : spec_float) (self : Blockchain.t)
    (miner_address : string) :
  fst (Blockchain.mine_block depth now self miner_address) = self.
Proof.
  unfold Blockchain.mine_block, Blockchain.last_block, ProofOfWork.mine.
  destruct (Blockchain.unconfirmed_transactions self) as [|tx txs]; [reflexivity|].
  destruct (Blockchain.chain self) as [|first rest]; reflexivity.
Qed.

Lemma replace_chain_state (self : Blockchain.t) (new_chain : list Block.t) :
  fst (Blockchain.replace_chain self new_chain) = self \/
  (fst (Blockchain.replace_chain self new_chain)
   = Blockchain.set_chain self new_chain /\
   exists first rest genesis rest',
     new_chain = first :: rest /\
     Blockchain.chain self = genesis :: rest' /\
     Block.hash first = Block.hash genesis).
Proof.
  unfold Blockchain.replace_chain, Blockchain._validate_chain.
  destruct new_chain as [|first rest]; [left; reflexivity|].
  destruct (Blockchain.chain self) as [|genesis rest'] eqn:Hchain;
    [left; reflexivity|].
  destruct (String.eqb_spec (Block.hash first) (Block.hash genesis)) as [E|E];
    cbn [negb]; [|left; reflexivity].
  destruct (Blockchain.check_blocks (Blockchain.pow self) first rest);
    [|left; reflexivity].
  destruct (_ <=? _)%nat; [left; reflexivity|].
  right. split; [reflexivity|]. exists first, rest, genesis, rest'. auto.
Qed.

Lemma chain_rooted_step (now : spec_float) (difficulty : Z)
    (self self' : Blockchain.t) :
  chain_rooted now difficulty self -> chain_step self self' ->
  chain_rooted now difficulty self'.
Proof.
  intros ((first & rest & Hchain & Hhash) & Horphan & Hd) Hstep.
  destruct Hstep as [s tx|depth now' s miner|depth s block|s new_chain].
  - destruct (add_transaction_frame s tx) as (Hc & _ & Ho & Hd' & _).
    cbv zeta in *. unfold chain_rooted. rewrite Hc, Ho, Hd'.
    split; [exists first, rest; auto|auto].
  - rewrite mine_block_state. split; [exists first, rest; auto|auto].
  - destruct (add_block_chain_frame depth s block)
      as ([post Hc] & _ & _ & Ho & Hd' & _).
    unfold chain_rooted. rewrite Hc, Ho, Hd', Hchain.
    split; [exists first, (rest ++ post); auto|auto].
  - destruct (replace_chain_state s new_chain)
      as [->|[-> (f & r & g & r' & -> & Hg & Hh)]].
    + split; [exists first, rest; auto|auto].
    + split; [|auto]. exists f, r. split; [reflexivity|].
      rewrite Hchain in Hg. injection Hg as <- <-. congruence.
Qed.

Lemma reachable_rooted (now : spec_float) (difficulty : Z) (self : Blockchain.t) :
  reachable now difficulty self -> chain_rooted now difficulty self.
Proof.
  induction 1 as [|s s' _ IH Hstep].
  - split; [|split; reflexivity]. eexists _, []. split; reflexivity.
  - exact (chain_rooted_step now difficulty s s' IH Hstep).
Qed.

(** X9: in every state reachable from [Blockchain(difficulty)] the chain is
    non-empty, so that [last_block] returns; its first block carries the
    hash of the genesis block that the node created; [orphan_blocks] is
    empty and [difficulty] is unchanged. *)
Theorem reachable_chain_rooted (now : spec_float) (difficulty : Z)
    (self : Blockchain.t) :
  reachable now difficulty self ->
  (exists first rest,
      Blockchain.chain self = first :: rest /\
      Block.hash first = Block.hash (Blockchain.genesis_block now difficulty)) /\
  (exists tip, Blockchain.last_block self = Ret tip) /\
  Blockchain.orphan_blocks self = [] /\
  Blockchain.difficulty self = difficulty.
Proof.
  intros H. destruct (reachable_rooted now difficulty self H)
    as ((first & rest & Hchain & Hhash) & Horphan & Hd).
  split; [exists first, rest; auto|]. split; [|auto].
  unfold Blockchain.last_block. rewrite Hchain. eauto.
Qed.

Lemma reachable_chain_rooted_witness :
  (exists first rest,
      Blockchain.chain example_chain_1 = first :: rest /\
      Block.hash first = Block.hash (Blockchain.genesis_block example_now 1)) /\
  (exists tip, Blockchain.last_block example_chain_1 = Ret tip) /\
  Blockchain.orphan_blocks example_chain_1 = [] /\
  Blockchain.difficulty example_chain_1 = 1.
Proof.
  apply (reachable_chain_rooted example_now 1 example_chain_1).
  apply (reachable_step _ _ example_chain); [apply reachable_init|].
  pose proof (step_add_block 100 example_chain example_B1) as H.
  rewrite example_chain_1_run in H. exact H.
Defined.

(* --------------------------------------------------------------------- *)
(** ** The pending set *)
(* --------------------------------------------------------------------- *)

Section DictFacts.
Context {V : Type}.

Lemma dict_has_In (d : list (string * V)) (k : string) :
  dict_has d k = true <-> In k (List.map fst d).
Proof.
  unfold dict_has. rewrite existsb_exists, in_map_iff.
  split; intros (kv & H1 & H2).
  - apply String.eqb_eq in H2. eauto.
  - exists kv. split; [exact H2|]. apply String.eqb_eq. exact H1.
Qed.

Lemma dict_set_keys (d : list (string * V)) (k : string) (v : V) :
  List.map fst (dict_set d k v)
  = if dict_has d k then List.map fst d else List.map fst d ++ [k].
Proof.
  unfold dict_set. destruct (dict_has d k).
  - rewrite map_map. apply map_ext. intros [k' v']. cbn [fst].
    destruct (String.eqb_spec k' k); [subst; reflexivity|reflexivity].
  - rewrite map_app. reflexivity.
Qed.

Lemma dict_set_In (d : list (string * V)) (k : string) (v : V) (k' : string) (v' : V) :
  In (k', v') (dict_set d k v) -> (k', v') = (k, v) \/ In (k', v') d.
Proof.
  unfold dict_set. destruct (dict_has d k).
  - intros H. apply in_map_iff in H as ([k0 v0] & Heq & Hin). cbn [fst] in Heq.
    destruct (String.eqb k0 k); [left; congruence|right; congruence].
  - intros H. apply in_app_or in H as [H|[H|[]]]; [right; exact H|left; congruence].
Qed.

Lemma dict_set_NoDup (d : list (string * V)) (k : string) (v : V) :
  NoDup (List.map fst d) -> NoDup (List.map fst (dict_set d k v)).
Proof.
  intros H. rewrite dict_set_keys.
  destruct (dict_has d k) eqn:Hhas; [exact H|].
  apply NoDup_app. split; [exact H|]. split; [|apply NoDup_singleton].
  intros x Hx Hk. apply list_elem_of_singleton in Hk. subst x.
  apply list_elem_of_In, dict_has_In in Hx. congruence.
Qed.

Lemma filter_keys_NoDup (f : string * V -> bool) (d : list (string * V)) :
  NoDup (List.map fst d) -> NoDup (List.map fst (List.filter f d)).
Proof.
  induction d as [|kv d IH]; cbn [List.filter List.map]; [auto|].
  intros H. apply NoDup_cons in H as [Hnot Hd].
  destruct (f kv); [|auto]. cbn [List.map]. apply NoDup_cons. split; [|auto].
  intros Hin. apply Hnot. apply list_elem_of_In.
  apply list_elem_of_In, in_map_iff in Hin as (kv' & Hk & Hf).
  apply filter_In in Hf as [Hf _]. apply in_map_iff. eauto.
Qed.

Lemma dict_del_NoDup (d p : list (string * V)) (k : string) :
  dict_del d k = Ret p ->
  (NoDup (List.map fst d) -> NoDup (List.map fst p)) /\
  (forall kv, In kv p -> In kv d).
Proof.
  unfold dict_del. destruct (dict_has d k); [|discriminate].
  intros [= <-]. split; [apply filter_keys_NoDup|].
  intros kv Hin. apply filter_In in Hin. tauto.
Qed.
End DictFacts.

Lemma add_block_pending_ok (depth : nat) (self : Blockchain.t) (block : Block.t) :
  pending_ok self -> pending_ok (fst (Blockchain.add_block depth self block)).
Proof.
  apply (add_block_changes (fun s s' => pending_ok s -> pending_ok s')).
  - auto.
  - auto.
  - intros s b tip _ _ _ _ H. exact H.
  - intros s b tip _ Hvalid _ [Hnd Hall]. split.
    + unfold pending_keys. cbn [Blockchain.set_pending_blocks Blockchain.pending_blocks].
      apply dict_set_NoDup. exact Hnd.
    + cbn [Blockchain.set_pending_blocks Blockchain.pending_blocks].
      intros k b' Hin. apply dict_set_In in Hin as [Heq|Hin]; [|auto].
      injection Heq as -> ->. auto.
  - intros s k p Hdel [Hnd Hall]. destruct (dict_del_NoDup _ _ _ Hdel) as [H1 H2].
    split.
    + unfold pending_keys. cbn [Blockchain.set_pending_blocks Blockchain.pending_blocks].
      apply H1. exact Hnd.
    + cbn [Blockchain.set_pending_blocks Blockchain.pending_blocks]. auto.
Qed.

Lemma reachable_pending_ok (now : spec_float) (difficulty : Z) (self : Blockchain.t) :
  reachable now difficulty self -> pending_ok self.
Proof.
  induction 1 as [|s s' _ IH Hstep].
  - split; [constructor|]. intros k b [].
  - destruct Hstep as [s tx|depth now' s miner|depth s block|s new_chain].
    + destruct (add_transaction_frame s tx) as (_ & Hp & _). cbv zeta in Hp.
      unfold pending_ok, pending_keys. rewrite Hp. exact IH.
    + rewrite mine_block_state. exact IH.
    + apply add_block_pending_ok. exact IH.
    + destruct (replace_chain_state s new_chain) as [->|[-> _]]; exact IH.
Qed.

(** X10: in every reachable state the keys of [pending_blocks] are pairwise
    different, every entry is stored under the hash of its block, and every
    pending block passes [is_valid]. *)
Theorem reachable_pending_keyed (now : spec_float) (difficulty : Z)
    (self : Blockchain.t) :
  reachable now difficulty self ->
  NoDup (pending_keys self) /\
  forall k b,
    In (k, b) (Blockchain.pending_blocks self) ->
    k = Block.hash b /\ Block.is_valid b = true.
Proof. apply reachable_pending_ok. Qed.

Lemma reachable_offer_blocks (now : spec_float) (difficulty : Z)
    (blocks : list Block.t) :
  forall self,
    reachable now difficulty self ->
    reachable now difficulty (offer_blocks self blocks).
Proof.
  unfold offer_blocks.
  induction blocks as [|b blocks IH]; intros self H; cbn [fold_left]; [exact H|].
  apply IH. apply (reachable_step _ _ self); [exact H|apply step_add_block].
Qed.

Lemma reachable_pending_keyed_witness :
  let self := offer_blocks example_chain [example_B3; example_B2] in
  NoDup (pending_keys self) /\
  forall k b,
    In (k, b) (Blockchain.pending_blocks self) ->
    k = Block.hash b /\ Block.is_valid b = true.
Proof.
  apply (reachable_pending_keyed example_now 1).
  apply reachable_offer_blocks. apply reachable_init.
Defined.

(* --------------------------------------------------------------------- *)
(** ** The mempool *)
(* --------------------------------------------------------------------- *)

Lemma add_transaction_mempool_ok (self : Blockchain.t) (transaction : tx_object) :
  mempool_ok self -> mempool_ok (fst (Blockchain.add_transaction self transaction)).
Proof.
  intros (Hnd & Hall & Hknown). unfold Blockchain.add_transaction.
  destruct (tx_calculate_hash transaction) as [h|e] eqn:Hh;
    [|split; [exact Hnd|split; [exact Hall|exact Hknown]]].
  destruct (bool_decide_reflect (h ∈ Blockchain.known_transactions self))
    as [Hin|Hin]; [split; [exact Hnd|split; [exact Hall|exact Hknown]]|].
  destruct (Blockchain.validate_transaction transaction) eqn:Hv; cbn [negb];
    [|split; [exact Hnd|split; [exact Hall|exact Hknown]]].
  cbv zeta. unfold mempool_ok.
  cbn [fst Blockchain.set_known_transactions Blockchain.set_unconfirmed_transactions
       Blockchain.unconfirmed_transactions Blockchain.known_transactions].
  split; [|split].
  - rewrite map_app. cbn [List.map]. apply NoDup_app.
    split; [exact Hnd|]. split; [|apply NoDup_singleton].
    intros x Hx Hs. apply list_elem_of_singleton in Hs. subst x.
    apply list_elem_of_In, in_map_iff in Hx as (tx & Htx & Hintx).
    apply Hin. apply Hknown. exists tx. rewrite Htx, Hh. auto.
  - intros tx Hintx. apply in_app_or in Hintx as [Hintx|[<-|[]]]; [auto|].
    split; [|exact Hv].
    destruct transaction; [discriminate|reflexivity].
  - intros h'. rewrite elem_of_union, elem_of_singleton, Hknown. split.
    + intros [(tx & Hintx & Htx)| ->].
      * exists tx. split; [apply in_or_app; auto|exact Htx].
      * exists transaction. split; [apply in_or_app; right; left; reflexivity|exact Hh].
    + intros (tx & Hintx & Htx). apply in_app_or in Hintx as [Hintx|[<-|[]]].
      * left. eauto.
      * right. congruence.
Qed.

Lemma reachable_mempool_ok (now : spec_float) (difficulty : Z) (self : Blockchain.t) :
  reachable now difficulty self -> mempool_ok self.
Proof.
  induction 1 as [|s s' _ IH Hstep].
  - split; [constructor|]. split; [intros tx []|].
    intros h. cbn [Blockchain.init Blockchain.known_transactions
                   Blockchain.unconfirmed_transactions].
    split; [intros Hin; apply not_elem_of_empty in Hin; contradiction|].
    intros (tx & [] & _).
  - destruct Hstep as [s tx|depth now' s miner|depth s block|s new_chain].
    + apply add_transaction_mempool_ok. exact IH.
    + rewrite mine_block_state. exact IH.
    + destruct (add_block_chain_frame depth s block) as (_ & Hu & Hk & _).
      unfold mempool_ok. rewrite Hu, Hk. exact IH.
    + destruct (replace_chain_state s new_chain) as [->|[-> _]]; exact IH.
Qed.

(** X11: in every reachable state the identities of the mempool entries are
    pairwise different; every entry passed [validate_transaction] and its
    identity is in [known_transactions]; and every known identity is the one
    of an entry of the mempool. *)
Theorem reachable_mempool (now : spec_float) (difficulty : Z)
    (self : Blockchain.t) :
  reachable now difficulty self ->
  NoDup (List.map tx_calculate_hash (Blockchain.unconfirmed_transactions self)) /\
  (forall tx,
      In tx (Blockchain.unconfirmed_transactions self) ->
      Blockchain.validate_transaction tx = true /\
      exists h, tx_calculate_hash tx = Ret h /\
                h ∈ Blockchain.known_transactions self) /\
  (forall h,
      h ∈ Blockchain.known_transactions self ->
      exists tx,
        In tx (Blockchain.unconfirmed_transactions self) /\
        tx_calculate_hash tx = Ret h).
Proof.
  intros H. destruct (reachable_mempool_ok now difficulty self H)
    as (Hnd & Hall & Hknown).
  split; [exact Hnd|]. split.
  - intros tx Hin. destruct (Hall tx Hin) as [Hi Hv]. split; [exact Hv|].
    destruct tx as [t|w]; [discriminate|].
    exists (WalletTransaction.calculate_hash w). split; [reflexivity|].
    apply Hknown. exists (WalletTx w). auto.
  - intros h Hh. apply Hknown. exact Hh.
Qed.


Lemma reachable_mempool_witness :
  let self := fst (Blockchain.add_transaction example_chain (WalletTx example_wallet_tx)) in
  NoDup (List.map tx_calculate_hash (Blockchain.unconfirmed_transactions self)) /\
  (forall tx,
      In tx (Blockchain.unconfirmed_transactions self) ->
      Blockchain.validate_transaction tx = true /\
      exists h, tx_calculate_hash tx = Ret h /\
                h ∈ Blockchain.known_transactions self) /\
  (forall h,
      h ∈ Blockchain.known_transactions self ->
      exists tx,
        In tx (Blockchain.unconfirmed_transactions self) /\
        tx_calculate_hash tx = Ret h).
Proof.
  apply (reachable_mempool example_now 1).
  apply (reachable_step _ _ example_chain); [apply reachable_init|].
  apply step_add_transaction.
Defined.


(* --------------------------------------------------------------------- *)
(** ** The identity of a wallet transaction *)
(* --------------------------------------------------------------------- *)

Lemma pop_signature_to_dict (t : WalletTransaction.t) :
  WalletTransaction.pop_signature (WalletTransaction.to_dict t)
  = [ ("sender", JStr (WalletTransaction.sender t));
      ("recipient", JStr (WalletTransaction.recipient t));
      ("amount", num_json (WalletTransaction.amount t));
      ("timestamp", num_json (WalletTransaction.timestamp t));
      ("nonce", JInt (WalletTransaction.nonce t));
      ("fee", num_json (WalletTransaction.fee t)) ]%string
    ++ match WalletTransaction.data t with
       | Some d => [("data"%string, JDict d)]
       | None => []
       end.
Proof.
  unfold WalletTransaction.pop_signature, WalletTransaction.to_dict.
  destruct (WalletTransaction.data t), (WalletTransaction.signature t);
    reflexivity.
Qed.

Lemma calculate_hash_set_signature (t : WalletTransaction.t) (s : option string) :
  WalletTransaction.calculate_hash (WalletTransaction.set_signature t s)
  = WalletTransaction.calculate_hash t.
Proof.
  unfold WalletTransaction.calculate_hash.
  rewrite !pop_signature_to_dict. reflexivity.
Qed.

(** X13: the identity of a wallet transaction does not depend on its
    signature: two transactions that agree on all other fields have the same
    [calculate_hash]. *)
Theorem calculate_hash_ignores_signature (t t' : WalletTransaction.t) :
  WalletTransaction.sender t' = WalletTransaction.sender t ->
  WalletTransaction.recipient t' = WalletTransaction.recipient t ->
  WalletTransaction.amount t' = WalletTransaction.amount t ->
  WalletTransaction.timestamp t' = WalletTransaction.timestamp t ->
  WalletTransaction.nonce t' = WalletTransaction.nonce t ->
  WalletTransaction.fee t' = WalletTransaction.fee t ->
  WalletTransaction.data t' = WalletTransaction.data t ->
  WalletTransaction.calculate_hash t' = WalletTransaction.calculate_hash t.
Proof.
  intros H1 H2 H3 H4 H5 H6 H7. unfold WalletTransaction.calculate_hash.
  rewrite !pop_signature_to_dict, H1, H2, H3, H4, H5, H6, H7. reflexivity.
Qed.

Lemma calculate_hash_ignores_signature_witness :
  WalletTransaction.calculate_hash example_unsigned_tx
  = WalletTransaction.calculate_hash example_wallet_tx.
Proof.
  apply (calculate_hash_ignores_signature example_wallet_tx example_unsigned_tx);
    reflexivity.
Defined.

(** X14: a wallet transaction with an unknown identity and valid fields is
    accepted once: the first [add_transaction] returns [True] and appends it;
    sending it again, with the same or with any other signature, returns
    [False] and changes nothing. *)
Theorem add_transaction_once (self : Blockchain.t)
    (transaction : WalletTransaction.t) (s : option string) :
  WalletTransaction.calculate_hash transaction ∉ Blockchain.known_transactions self ->
  Blockchain.validate_transaction (WalletTx transaction) = true ->
  let self' := fst (Blockchain.add_transaction self (WalletTx transaction)) in
  snd (Blockchain.add_transaction self (WalletTx transaction)) = Ret true /\
  Blockchain.unconfirmed_transactions self'
  = Blockchain.unconfirmed_transactions self ++ [WalletTx transaction] /\
  Blockchain.add_transaction self' (WalletTx transaction) = (self', Ret false) /\
  Blockchain.add_transaction self'
    (WalletTx (WalletTransaction.set_signature transaction s))
  = (self', Ret false).
Proof.
  intros Hnew Hvalid.
  destruct (add_transaction_wallet self transaction) as [_ H].
  cbv zeta in H |- *. destruct (H Hnew Hvalid) as (Hret & Hu & Hk & Hagain).
  split; [exact Hret|]. split; [exact Hu|]. split; [exact Hagain|].
  unfold Blockchain.add_transaction at 1. cbn [tx_calculate_hash].
  rewrite calculate_hash_set_signature, Hk.
  rewrite bool_decide_eq_true_2 by set_solver. reflexivity.
Qed.

Lemma add_transaction_once_witness :
  let self' := fst (Blockchain.add_transaction example_chain (WalletTx example_wallet_tx)) in
  snd (Blockchain.add_transaction example_chain (WalletTx example_wallet_tx)) = Ret true /\
  Blockchain.unconfirmed_transactions self'
  = Blockchain.unconfirmed_transactions example_chain ++ [WalletTx example_wallet_tx] /\
  Blockchain.add_transaction self' (WalletTx example_wallet_tx) = (self', Ret false) /\
  Blockchain.add_transaction self'
    (WalletTx (WalletTransaction.set_signature example_wallet_tx None))
  = (self', Ret false).
Proof.
  apply (add_transaction_once example_chain example_wallet_tx None).
  - apply not_elem_of_empty.
  - reflexivity.
Defined.

(* --------------------------------------------------------------------- *)
(** ** [Wallet.get_balance] *)
(* --------------------------------------------------------------------- *)

Lemma wallet_balance_txs_block_tx (address : string) (t : Transaction.t)
    (txs : list tx_object) :
  In (BlockTx t) txs ->
  forall seen balance,
    exists e, Wallet.balance_txs address txs seen balance = Raise e.
Proof.
  induction txs as [|tx txs IH]; intros Hin seen balance; [destruct Hin|].
  cbn [Wallet.balance_txs].
  destruct tx as [t0|w]; [exists AttributeError; reflexivity|].
  destruct Hin as [Hin|Hin]; [discriminate|].
  cbn [tx_calculate_hash mbind outcome_bind].
  destruct (bool_decide _); [apply IH; exact Hin|].
  destruct (if String.eqb _ _ then _ else _) as [b1|e]; [|eauto].
  cbn [mbind outcome_bind].
  destruct (if String.eqb _ _ then _ else _) as [b2|e]; [|eauto].
  cbn [mbind outcome_bind]. apply IH. exact Hin.
Qed.

Lemma wallet_balance_blocks_block_tx (address : string) (t : Transaction.t)
    (block : Block.t) (blocks : list Block.t) :
  In block blocks -> In (BlockTx t) (Block.transactions block) ->
  forall seen balance,
    exists e, Wallet.balance_blocks address blocks seen balance = Raise e.
Proof.
  intros Hb Ht. induction blocks as [|b blocks IH]; intros seen balance;
    [destruct Hb|].
  cbn [Wallet.balance_blocks].
  destruct Hb as [->|Hb].
  - destruct (wallet_balance_txs_block_tx address t _ Ht seen balance) as [e ->].
    eauto.
  - destruct (Wallet.balance_txs address (Block.transactions b) seen balance)
      as [[seen' balance']|e]; [|eauto].
    cbn [mbind outcome_bind]. apply IH. exact Hb.
Qed.

(** X15: [Wallet.get_balance] returns no balance for a chain that holds a
    block with a [block.py] transaction, and so for a chain with a non-empty
    block that passes [is_valid]: the call raises. *)
Theorem wallet_get_balance_needs_wallet_transactions
    (address : string) (blockchain : Blockchain.t) (block : Block.t) :
  In block (Blockchain.chain blockchain) ->
  ((exists t, In (BlockTx t) (Block.transactions block)) ->
   exists e, Wallet.get_balance address blockchain = Raise e) /\
  (Block.is_valid block = true -> Block.transactions block <> [] ->
   exists e, Wallet.get_balance address blockchain = Raise e).
Proof.
  intros Hb. split.
  - intros [t Ht]. unfold Wallet.get_balance.
    apply (wallet_balance_blocks_block_tx address t block); assumption.
  - intros Hv Hne. apply is_valid_true in Hv. destruct Hv as (_ & _ & Hall).
    destruct (Block.transactions block) as [|tx txs] eqn:Htxs; [congruence|].
    cbn [forallb] in Hall. apply andb_true_iff in Hall as [Htx _].
    destruct tx as [t|w]; [|discriminate].
    unfold Wallet.get_balance.
    apply (wallet_balance_blocks_block_tx address t block); [assumption|].
    rewrite Htxs. left. reflexivity.
Qed.

Lemma wallet_get_balance_needs_wallet_transactions_witness :
  ((exists t, In (BlockTx t) (Block.transactions example_G)) ->
   exists e, Wallet.get_balance "A" example_chain_1 = Raise e) /\
  (Block.is_valid example_G = true -> Block.transactions example_G <> [] ->
   exists e, Wallet.get_balance "A" example_chain_1 = Raise e).
Proof.
  apply (wallet_get_balance_needs_wallet_transactions "A" example_chain_1 example_G).
  left. reflexivity.
Defined.

(** The identities that a pass over [txs] leaves in [seen]. *)
Lemma wallet_balance_txs_seen (address : string) (txs : list tx_object) :
  forall seen balance seen' balance',
    Wallet.balance_txs address txs seen balance = Ret (seen', balance') ->
    seen ⊆ seen' /\
    forall tx, In tx txs ->
               exists h, tx_calculate_hash tx = Ret h /\ h ∈ seen'.
Proof.
  induction txs as [|tx txs IH]; intros seen balance seen' balance' H;
    cbn [Wallet.balance_txs] in H.
  - injection H as <- <-. split; [reflexivity|]. intros tx [].
  - destruct (tx_calculate_hash tx) as [h|e] eqn:Hh; [|discriminate].
    cbn [mbind outcome_bind] in H.
    destruct (bool_decide_reflect (h ∈ seen)) as [Hin|Hin].
    + destruct (IH _ _ _ _ H) as [Hsub Hall]. split; [exact Hsub|].
      intros tx' [<-|Htx']; [exists h; split; [exact Hh|set_solver]|auto].
    + destruct (if String.eqb _ _ then _ else _) as [b1|e]; [|discriminate].
      cbn [mbind outcome_bind] in H.
      destruct (if String.eqb _ _ then _ else _) as [b2|e]; [|discriminate].
      cbn [mbind outcome_bind] in H.
      destruct (IH _ _ _ _ H) as [Hsub Hall]. split; [set_solver|].
      intros tx' [<-|Htx']; [exists h; split; [exact Hh|set_solver]|auto].
Qed.

Lemma wallet_balance_txs_skip (address : string) (txs : list tx_object)
    (seen : gset string) (balance : spec_float) :
  (forall tx, In tx txs -> exists h, tx_calculate_hash tx = Ret h /\ h ∈ seen) ->
  Wallet.balance_txs address txs seen balance = Ret (seen, balance).
Proof.
  induction txs as [|tx txs IH]; intros Hall; cbn [Wallet.balance_txs];
    [reflexivity|].
  destruct (Hall tx (or_introl eq_refl)) as (h & -> & Hin).
  cbn [mbind outcome_bind]. rewrite bool_decide_eq_true_2 by exact Hin.
  apply IH. intros tx' Htx'. apply Hall. right. exact Htx'.
Qed.

Lemma wallet_balance_blocks_skip (address : string) (blocks : list Block.t)
    (seen : gset string) (balance : spec_float) :
  (forall block tx,
      In block blocks -> In tx (Block.transactions block) ->
      exists h, tx_calculate_hash tx = Ret h /\ h ∈ seen) ->
  Wallet.balance_blocks address blocks seen balance = Ret balance.
Proof.
  induction blocks as [|b blocks IH]; intros Hall; cbn [Wallet.balance_blocks];
    [reflexivity|].
  rewrite wallet_balance_txs_skip
    by (intros tx Htx; apply (Hall b tx); [left; reflexivity|exact Htx]).
  cbn [mbind outcome_bind]. apply IH.
  intros block tx Hb Htx. apply (Hall block tx); [right; exact Hb|exact Htx].
Qed.

Lemma wallet_balance_blocks_app (address : string) (c1 : list Block.t) :
  forall seen balance,
    (exists e, forall c2,
        Wallet.balance_blocks address (c1 ++ c2) seen balance = Raise e) \/
    (exists seen' balance',
        (forall c2, Wallet.balance_blocks address (c1 ++ c2) seen balance
                    = Wallet.balance_blocks address c2 seen' balance') /\
        seen ⊆ seen' /\
        forall block tx,
          In block c1 -> In tx (Block.transactions block) ->
          exists h, tx_calculate_hash tx = Ret h /\ h ∈ seen').
Proof.
  induction c1 as [|b c1 IH]; intros seen balance.
  - right. exists seen, balance. split; [reflexivity|]. split; [reflexivity|].
    intros block tx [].
  - cbn [app Wallet.balance_blocks].
    destruct (Wallet.balance_txs address (Block.transactions b) seen balance)
      as [[seen1 balance1]|e] eqn:Htxs; [|left; exists e; reflexivity].
    cbn [mbind outcome_bind].
    destruct (wallet_balance_txs_seen _ _ _ _ _ _ Htxs) as [Hsub1 Hall1].
    destruct (IH seen1 balance1) as [[e He]|(seen' & balance' & Heq & Hsub & Hall)].
    + left. exists e. exact He.
    + right. exists seen', balance'. split; [exact Heq|]. split; [set_solver|].
      intros block tx [<-|Hb] Htx; [|eauto].
      destruct (Hall1 tx Htx) as (h & Hh & Hin). exists h. split; [exact Hh|set_solver].
Qed.

(** X16: in [Wallet.get_balance], later blocks whose transactions all carry
    identities that occur earlier in the chain change nothing: every identity
    is counted once. *)
Theorem wallet_get_balance_counts_once (address : string)
    (blockchain : Blockchain.t) (later : list Block.t) :
  (forall block tx,
      In block later -> In tx (Block.transactions block) ->
      exists block0 tx0 h,
        In block0 (Blockchain.chain blockchain) /\
        In tx0 (Block.transactions block0) /\
        tx_calculate_hash tx0 = Ret h /\ tx_calculate_hash tx = Ret h) ->
  Wallet.get_balance address
    (Blockchain.set_chain blockchain (Blockchain.chain blockchain ++ later))
  = Wallet.get_balance address blockchain.
Proof.
  intros Hlater. unfold Wallet.get_balance.
  cbn [Blockchain.set_chain Blockchain.chain].
  destruct (wallet_balance_blocks_app address (Blockchain.chain blockchain)
              ∅ (S754_zero false))
    as [[e He]|(seen' & balance' & Heq & _ & Hall)].
  - rewrite He. specialize (He []). rewrite app_nil_r in He. rewrite He.
    reflexivity.
  - rewrite Heq. pose proof (Heq []) as H0. rewrite app_nil_r in H0.
    rewrite H0. cbn [Wallet.balance_blocks].
    apply wallet_balance_blocks_skip.
    intros block tx Hb Htx.
    destruct (Hlater block tx Hb Htx) as (block0 & tx0 & h & Hb0 & Htx0 & Hh0 & Hh).
    destruct (Hall block0 tx0 Hb0 Htx0) as (h' & Hh' & Hin).
    exists h. split; [exact Hh|]. congruence.
Qed.

Lemma wallet_get_balance_counts_once_witness :
  let block0 := Block.mk "1.0" (PyInt 1) "p" "M" [WalletTx example_wallet_tx]
                         0 1 "r" "h" in
  let block1 := Block.mk "1.0" (PyInt 2) "h" "M" [WalletTx example_unsigned_tx]
                         0 1 "r" "i" in
  let blockchain := Blockchain.set_chain example_chain [block0] in
  Wallet.get_balance "B"
    (Blockchain.set_chain blockchain (Blockchain.chain blockchain ++ [block1]))
  = Wallet.get_balance "B" blockchain.
Proof.
  cbv zeta.
  apply (wallet_get_balance_counts_once "B").
  intros block tx [<-|[]] [<-|[]].
  eexists _, (WalletTx example_wallet_tx), _.
  split; [left; reflexivity|]. split; [left; reflexivity|].
  split; [reflexivity|].
  exact (f_equal Ret (calculate_hash_set_signature example_wallet_tx None)).
Defined.

(* --------------------------------------------------------------------- *)
(** ** Addresses *)
(* --------------------------------------------------------------------- *)

Lemma b58_decode_invalid (address : string) (c : ascii) :
  In c (list_ascii_of_string address) ->
  String.index 0 (String c EmptyString) Wallet.alphabet = None ->
  forall value, Wallet.b58_decode address value = Raise ValueError.
Proof.
  intros Hin Hc. induction address as [|c' rest IH]; intros value;
    [destruct Hin|].
  cbn [Wallet.b58_decode].
  destruct Hin as [->|Hin]; [rewrite Hc; reflexivity|].
  destruct (String.index 0 (String c' EmptyString) Wallet.alphabet);
    [apply IH; exact Hin|reflexivity].
Qed.

(** X18: an address with a character outside the Base58 alphabet is
    rejected: [alphabet.index] raises [ValueError], which [_is_valid_address]
    catches. *)
Theorem is_valid_address_alphabet (address : string) (c : ascii) :
  In c (list_ascii_of_string address) ->
  String.index 0 (String c EmptyString) Wallet.alphabet = None ->
  Wallet._is_valid_address address = false.
Proof.
  intros Hin Hc. unfold Wallet._is_valid_address.
  rewrite (b58_decode_invalid address c Hin Hc). reflexivity.
Qed.

Lemma is_valid_address_alphabet_witness :
  Wallet._is_valid_address "1BgGZ9tcN4rm9KBzDn7KprQz87SZ26SAM0" = false.
Proof.
  apply (is_valid_address_alphabet _ "0"%char).
  - do 33 right. left. reflexivity.
  - reflexivity.
Defined.

Lemma b58_decode_nonneg (address : string) :
  forall value v, 0 <= value -> Wallet.b58_decode address value = Ret v -> 0 <= v.
Proof.
  induction address as [|c rest IH]; intros value v Hv H; cbn [Wallet.b58_decode] in H.
  - congruence.
  - destruct (String.index 0 (String c EmptyString) Wallet.alphabet) as [i|];
      [|discriminate].
    apply (IH (value * 58 + Z.of_nat i) v); [lia|exact H].
Qed.

Lemma bit_length_spec (v : Z) (k : Z) :
  0 <= v -> 0 < k -> (Wallet.bit_length v + 7) / 8 = k ->
  256 ^ (k - 1) <= v < 256 ^ k.
Proof.
  intros Hv Hk H. unfold Wallet.bit_length in H.
  destruct (v =? 0) eqn:E.
  - change ((0 + 7) / 8) with 0 in H. lia.
  - apply Z.eqb_neq in E.
    assert (0 < v) as Hpos by lia.
    pose proof (Z.log2_spec v Hpos) as [Hlo Hhi].
    pose proof (Z.log2_nonneg v) as Hnn.
    assert (8 * k <= Z.log2 v + 1 + 7 < 8 * k + 8) as Hb.
    { pose proof (Z.div_mod (Z.log2 v + 1 + 7) 8 ltac:(lia)) as Hdm.
      pose proof (Z.mod_pos_bound (Z.log2 v + 1 + 7) 8 ltac:(lia)). lia. }
    replace (256 ^ (k - 1)) with (2 ^ (8 * (k - 1)))
      by (rewrite Z.pow_mul_r by lia; reflexivity).
    replace (256 ^ k) with (2 ^ (8 * k))
      by (rewrite Z.pow_mul_r by lia; reflexivity).
    split.
    + eapply Z.le_trans; [|exact Hlo]. apply Z.pow_le_mono_r; lia.
    + eapply Z.lt_le_trans; [exact Hhi|]. apply Z.pow_le_mono_r; lia.
Qed.

(** X19: an address that [_is_valid_address] accepts decodes to an integer of
    exactly 25 bytes, whose first byte is therefore not zero, and whose last
    four bytes are the checksum of the first 21. *)
Theorem is_valid_address_shape (address : string) :
  Wallet._is_valid_address address = true ->
  exists value,
    Wallet.b58_decode address 0 = Ret value /\
    256 ^ 24 <= value < 256 ^ 25 /\
    let binary_address := int_to_bytes 25 value in
    skipn 21 binary_address
    = firstn 4 (SHA256.digest (SHA256.digest (firstn 21 binary_address))).
Proof.
  unfold Wallet._is_valid_address.
  destruct (Wallet.b58_decode address 0) as [value|e] eqn:Hd; [|discriminate].
  rewrite int_to_bytes_length.
  destruct (Nat.eqb_spec (Z.to_nat ((Wallet.bit_length value + 7) / 8)) 25)
    as [E|E]; cbn [negb]; [|discriminate].
  rewrite E. intros H. apply bool_decide_eq_true_1 in H.
  exists value. split; [reflexivity|].
  pose proof (b58_decode_nonneg address 0 value ltac:(lia) Hd) as Hv.
  split; [|exact H].
  apply (bit_length_spec value 25 Hv); lia.
Qed.

Lemma example_address_valid :
  Wallet._is_valid_address "31nM1WuowNDzocNxPPW9NQWJEtwWpjfcLj" = true.
Proof. vm_compute. reflexivity. Qed.

Lemma is_valid_address_shape_witness :
  exists value,
    Wallet.b58_decode "31nM1WuowNDzocNxPPW9NQWJEtwWpjfcLj" 0 = Ret value /\
    256 ^ 24 <= value < 256 ^ 25 /\
    let binary_address := int_to_bytes 25 value in
    skipn 21 binary_address
    = firstn 4 (SHA256.digest (SHA256.digest (firstn 21 binary_address))).
Proof.
  exact (is_valid_address_shape _ example_address_valid).
Defined.

Lemma leading_zeros_prefix (versioned_hash : bytes) :
  forall result,
    String.prefix "1" result = true ->
    String.prefix "1" (Wallet.leading_zeros versioned_hash result) = true.
Proof.
  induction versioned_hash as [|b rest IH]; intros result H; [exact H|].
  destruct b; try exact H.
  cbn [Wallet.leading_zeros]. apply IH.
  change (Wallet.alphabet_at 0) with "1"%char. cbn [String.prefix].
  destruct (Ascii.ascii_dec "1" "1") as [_|E]; [|congruence].
  destruct result; reflexivity.
Qed.

Lemma generated_address_value (public_bytes : bytes) :
  let versioned_hash := x00 :: RIPEMD160.digest (SHA256.digest public_bytes) in
  let checksum := firstn 4 (SHA256.digest (SHA256.digest versioned_hash)) in
  exists address,
    Wallet._generate_address public_bytes = Some address /\
    Wallet.b58_decode address 0 = Ret (int_from_bytes (versioned_hash ++ checksum)) /\
    List.length (versioned_hash ++ checksum) = 25%nat /\
    String.prefix "1" address = true.
Proof.
  intros versioned_hash checksum.
  pose proof (generated_value_bound public_bytes) as Hv. cbv zeta in Hv.
  fold versioned_hash in Hv. fold checksum in Hv.
  assert (List.length (versioned_hash ++ checksum) = 25%nat) as Hlen.
  { rewrite length_app. unfold versioned_hash, checksum.
    rewrite length_cons, ripemd160_digest_length, length_take,
      sha256_digest_length. reflexivity. }
  unfold Wallet._generate_address.
  fold versioned_hash. fold checksum.
  destruct (b58_loop_total (8 * List.length (versioned_hash ++ checksum))
              (int_from_bytes (versioned_hash ++ checksum)) EmptyString) as [s Hs].
  { split; [lia|]. eapply Z.lt_le_trans; [apply Hv|].
    apply Z.pow_le_mono_r; [lia|]. rewrite Hlen. lia. }
  rewrite Hs. eexists. split; [reflexivity|].
  split; [|split; [exact Hlen|]].
  - rewrite leading_zeros_decode, (b58_loop_decode _ _ _ _ (proj1 Hv) Hs).
    reflexivity.
  - unfold versioned_hash. cbn [Wallet.leading_zeros].
    apply leading_zeros_prefix.
    change (Wallet.alphabet_at 0) with "1"%char. cbn [String.prefix].
    destruct (Ascii.ascii_dec "1" "1") as [_|E]; [|congruence].
    destruct s; reflexivity.
Qed.

(** X20: the two Base58 loops agree: for every public key [_generate_address]
    returns an address that starts with ['1'] and that the decoding loop of
    [_is_valid_address] maps back to the integer of the 25 bytes
    [versioned_hash + checksum]. *)
Theorem generated_address_decodes (public_bytes : bytes) :
  let versioned_hash := x00 :: RIPEMD160.digest (SHA256.digest public_bytes) in
  let checksum := firstn 4 (SHA256.digest (SHA256.digest versioned_hash)) in
  exists address,
    Wallet._generate_address public_bytes = Some address /\
    Wallet.b58_decode address 0 = Ret (int_from_bytes (versioned_hash ++ checksum)) /\
    List.length (versioned_hash ++ checksum) = 25%nat /\
    String.prefix "1" address = true.
Proof. exact (generated_address_value public_bytes). Qed.

Lemma generated_address_invalid (public_bytes : bytes) :
  exists address,
    Wallet._generate_address public_bytes = Some address /\
    Wallet._is_valid_address address = false.
Proof.
  destruct (generated_address_value public_bytes) as (address & Hg & Hd & _ & _).
  cbv zeta in Hd.
  exists address. split; [exact Hg|].
  pose proof (generated_value_bound public_bytes) as Hv. cbv zeta in Hv.
  unfold Wallet._is_valid_address. rewrite Hd, int_to_bytes_length.
  set (value := int_from_bytes _) in *.
  assert (Wallet.bit_length value <= 192) by (apply bit_length_bound; lia).
  assert ((Wallet.bit_length value + 7) / 8 < 25)
    by (apply Z.div_lt_upper_bound; lia).
  destruct (Nat.eqb_spec (Z.to_nat ((Wallet.bit_length value + 7) / 8)) 25) as [E|E];
    [lia | reflexivity].
Qed.

(* --------------------------------------------------------------------- *)
(** ** More on the Merkle levels *)
(* --------------------------------------------------------------------- *)

Lemma merkle_roots_agree_nonempty_witness :
  Block._calculate_merkle_root [BlockTx (example_tx 1); BlockTx (example_tx 2)]
  = MerkleTree.get_root_hash
      (MerkleTree.init
         (List.map tx_to_dict [BlockTx (example_tx 1); BlockTx (example_tx 2)])).
Proof.
  apply (merkle_roots_agree_nonempty [BlockTx (example_tx 1); BlockTx (example_tx 2)]).
  discriminate.
Defined.

Lemma pair_hashes_length (leaves : list string) :
  List.length (Block.pair_hashes leaves) = (List.length leaves / 2)%nat.
Proof.
  induction leaves as [| a | a b l IH] using list_pair_ind; [reflexivity..|].
  cbn [Block.pair_hashes List.length]. rewrite IH.
  change (S (S (List.length l))) with (2 + List.length l)%nat.
  replace (2 + List.length l)%nat with (List.length l + 1 * 2)%nat by lia.
  rewrite Nat.div_add by lia. lia.
Qed.

Lemma halved_length {A : Type} (l : list A) :
  (1 < List.length l)%nat ->
  (List.length (pad_odd l) / 2 < List.length l)%nat.
Proof.
  intros H. rewrite pad_odd_length.
  destruct (Nat.odd (List.length l)).
  - apply Nat.Div0.div_lt_upper_bound. lia.
  - apply Nat.Div0.div_lt_upper_bound. lia.
Qed.

(** The loop does not depend on the fuel once the fuel covers the level. *)
Lemma merkle_loop_fuel (n : nat) :
  forall leaves f1 f2,
    (List.length leaves <= n)%nat ->
    (List.length leaves <= S f1)%nat -> (List.length leaves <= S f2)%nat ->
    Block.merkle_loop f1 leaves = Block.merkle_loop f2 leaves.
Proof.
  induction n as [|n IH]; intros leaves f1 f2 Hn H1 H2.
  - destruct leaves; [|cbn in Hn; lia].
    destruct f1, f2; reflexivity.
  - destruct (Nat.ltb_spec 1 (List.length leaves)) as [Hlen|Hlen].
    + destruct f1 as [|f1]; [lia|]. destruct f2 as [|f2]; [lia|].
      cbn [Block.merkle_loop].
      destruct (Nat.ltb_spec 1 (List.length leaves)) as [_|Hc]; [|lia].
      pose proof (halved_length leaves Hlen) as Hh.
      apply IH; rewrite pair_hashes_length; lia.
    + destruct f1, f2; cbn [Block.merkle_loop]; try reflexivity;
        destruct (Nat.ltb_spec 1 (List.length leaves)); try reflexivity; lia.
Qed.

Lemma pad_odd_last {A : Type} (l : list A) (x : A) :
  Nat.odd (List.length (l ++ [x])) = true ->
  pad_odd (l ++ [x]) = l ++ [x; x].
Proof.
  intros Hodd. unfold pad_odd. rewrite Hodd.
  destruct l as [|a l]; [reflexivity|].
  cbn [app]. rewrite last_last, <- app_assoc. reflexivity.
Qed.

Lemma merkle_loop_step (fuel : nat) (leaves : list string) :
  (1 < List.length leaves)%nat ->
  Block.merkle_loop (S fuel) leaves
  = Block.merkle_loop fuel (Block.pair_hashes (pad_odd leaves)).
Proof.
  intros H. cbn [Block.merkle_loop].
  destruct (Nat.ltb_spec 1 (List.length leaves)); [reflexivity|lia].
Qed.

Lemma calculate_merkle_root_nonempty (transactions : list tx_object) :
  transactions <> [] ->
  Block._calculate_merkle_root transactions
  = let leaves :=
      List.map (fun tx => hash_data (DataDict (tx_to_dict tx))) transactions in
    List.hd EmptyString (Block.merkle_loop (List.length leaves) leaves).
Proof. destruct transactions; [contradiction|reflexivity]. Qed.

(** X24: repeating the last transaction of a list of odd length (three or
    more) keeps the Merkle root: [_calculate_merkle_root] pads an odd level
    with its last entry. *)
Theorem merkle_root_duplicate_last (transactions : list tx_object)
    (last : tx_object) :
  transactions <> [] ->
  Nat.odd (List.length (transactions ++ [last])) = true ->
  Block._calculate_merkle_root (transactions ++ [last; last])
  = Block._calculate_merkle_root (transactions ++ [last]).
Proof.
  intros Hne Hodd.
  rewrite !calculate_merkle_root_nonempty
    by (destruct transactions; discriminate).
  cbv zeta.
  set (h := fun tx => hash_data (DataDict (tx_to_dict tx))).
  set (leaves := List.map h (transactions ++ [last])).
  assert (List.map h (transactions ++ [last; last]) = pad_odd leaves) as Hpad.
  { unfold leaves. rewrite <- pad_odd_map, pad_odd_last by exact Hodd.
    reflexivity. }
  assert (List.length leaves = List.length (transactions ++ [last])) as Hlen
    by (unfold leaves; apply length_map).
  assert (1 < List.length leaves)%nat as Hgt.
  { rewrite Hlen, length_app. destruct transactions; [contradiction|].
    cbn [List.length]. lia. }
  rewrite Hpad. f_equal.
  assert (List.length (pad_odd leaves) = S (List.length leaves)) as Hplen.
  { rewrite pad_odd_length, Hlen, Hodd. lia. }
  rewrite Hplen.
  destruct (List.length leaves) as [|k] eqn:Ek; [lia|].
  rewrite (merkle_loop_step (S k) (pad_odd leaves)) by lia.
  rewrite (merkle_loop_step k leaves) by lia.
  rewrite pad_odd_idem.
  pose proof (halved_length leaves ltac:(lia)) as Hh.
  apply (merkle_loop_fuel (List.length (Block.pair_hashes (pad_odd leaves))));
    rewrite ?pair_hashes_length; lia.
Qed.

Lemma merkle_root_duplicate_last_witness :
  Block._calculate_merkle_root
    ([BlockTx (example_tx 1); BlockTx (example_tx 2)]
     ++ [BlockTx (example_tx 3); BlockTx (example_tx 3)])
  = Block._calculate_merkle_root
      ([BlockTx (example_tx 1); BlockTx (example_tx 2)] ++ [BlockTx (example_tx 3)]).
Proof.
  apply (merkle_root_duplicate_last
           [BlockTx (example_tx 1); BlockTx (example_tx 2)] (BlockTx (example_tx 3)));
    [discriminate|reflexivity].
Defined.

(** X25: [get_proof] leaves a tree built by the constructor as it is:
    [_build_tree] has padded the leaves already, so the padding of
    [get_proof], which works on the same list object, adds nothing. *)
Theorem get_proof_keeps_tree (transactions : list (list (string * json)))
    (transaction_hash : string) :
  snd (MerkleTree.get_proof (MerkleTree.init transactions) transaction_hash)
  = MerkleTree.init transactions.
Proof.
  unfold MerkleTree.get_proof.
  destruct (MerkleTree.root (MerkleTree.init transactions)) as [r|] eqn:Hr;
    [|reflexivity].
  destruct (MerkleTree.find_leaf _ _ _) as [i|]; [|reflexivity].
  cbn [snd]. rewrite <- Hr.
  assert ((if (1 <? List.length (MerkleTree.leaves (MerkleTree.init transactions)))%nat
           then pad_odd (MerkleTree.leaves (MerkleTree.init transactions))
           else MerkleTree.leaves (MerkleTree.init transactions))
          = MerkleTree.leaves (MerkleTree.init transactions)) as ->.
  { unfold MerkleTree.init.
    destruct (List.map _ transactions) as [|l0 ls] eqn:E;
      [reflexivity|]. rewrite <- E. cbn [MerkleTree.leaves].
    set (leaves := List.map _ transactions).
    destruct (Nat.ltb_spec 1 (List.length leaves)) as [H1|H1].
    - rewrite pad_odd_idem. destruct (_ <? _)%nat; reflexivity.
    - destruct (Nat.ltb_spec 1 (List.length leaves)); [lia|reflexivity]. }
  destruct (MerkleTree.init transactions); reflexivity.
Qed.
Lemma log2_up_halved (n : nat) :
  (1 < n)%nat ->
  Nat.log2_up n = S (Nat.log2_up ((n + if Nat.odd n then 1 else 0) / 2)).
Proof.
  intros Hn. destruct (Nat.odd n) eqn:Hodd.
  - apply Nat.odd_spec in Hodd. destruct Hodd as [a ->].
    assert (0 < a)%nat as Ha by lia.
    replace ((2 * a + 1 + 1) / 2)%nat with (S a).
    2:{ replace (2 * a + 1 + 1)%nat with ((a + 1) * 2)%nat by lia.
        rewrite Nat.div_mul by lia. lia. }
    rewrite Nat.log2_up_succ_double by exact Ha.
    rewrite (Nat.log2_up_eqn (S a)) by lia. reflexivity.
  - assert (Nat.even n = true) as Heven
      by (rewrite <- Nat.negb_odd, Hodd; reflexivity).
    apply Nat.even_spec in Heven. destruct Heven as [a ->].
    replace ((2 * a + 0) / 2)%nat with a.
    2:{ replace (2 * a + 0)%nat with (a * 2)%nat by lia.
        rewrite Nat.div_mul by lia. reflexivity. }
    apply Nat.log2_up_double. lia.
Qed.

(** The loop of [get_proof] emits one step per level. *)
Lemma proof_loop_length (n : nat) :
  forall nodes fuel i,
    (List.length nodes <= n)%nat -> (List.length nodes <= S fuel)%nat ->
    (i < List.length nodes)%nat ->
    List.length (MerkleTree.proof_loop fuel nodes i)
    = Nat.log2_up (List.length nodes).
Proof.
  induction n as [|n IH]; intros nodes fuel i Hn Hf Hi; [lia|].
  destruct (Nat.ltb_spec 1 (List.length nodes)) as [Hlen|Hlen].
  - destruct fuel as [|fuel]; [lia|].
    cbn [MerkleTree.proof_loop].
    destruct (Nat.ltb_spec 1 (List.length nodes)) as [_|Hc]; [|lia].
    pose proof (pad_odd_length nodes) as Hpl.
    pose proof (pad_odd_even nodes) as Hpe.
    assert ((if Nat.even i then i + 1 else i - 1) < List.length (pad_odd nodes))%nat
      as Hsib.
    { destruct (Nat.even i) eqn:Hei.
      - destruct (Nat.odd (List.length nodes)) eqn:Hodd; [lia|].
        assert (i + 1 <> List.length nodes)%nat; [|lia].
        intros E. rewrite <- E, Nat.add_1_r, Nat.odd_succ, Hei in Hodd.
        discriminate.
      - lia. }
    destruct (nth_error (pad_odd nodes) _) as [sibling|] eqn:Hnth.
    2:{ apply nth_error_None in Hnth. lia. }
    cbn [List.length]. rewrite IH.
    + rewrite parents_length, Hpl. symmetry. apply log2_up_halved. exact Hlen.
    + rewrite parents_length.
      pose proof (halved_length nodes Hlen). lia.
    + rewrite parents_length.
      pose proof (halved_length nodes Hlen). lia.
    + rewrite parents_length, Hpl.
      destruct (Nat.odd (List.length nodes)) eqn:Hodd.
      * apply Nat.Div0.div_lt_upper_bound.
        pose proof (Nat.div_mod_eq (List.length nodes + 1) 2) as E1.
        pose proof (Nat.div_mod_eq i 2) as E2.
        assert ((List.length nodes + 1) mod 2 = 0)%nat as E3.
        { rewrite Hpl in Hpe. apply Nat.even_spec in Hpe. destruct Hpe as [a Ha].
          rewrite Ha. replace (2 * a)%nat with (a * 2)%nat by lia.
          apply Nat.Div0.mod_mul. }
        pose proof (Nat.mod_upper_bound i 2 ltac:(lia)). lia.
      * apply Nat.Div0.div_lt_upper_bound.
        pose proof (Nat.div_mod_eq (List.length nodes + 0) 2) as E1.
        assert ((List.length nodes + 0) mod 2 = 0)%nat as E3.
        { rewrite Hpl in Hpe. apply Nat.even_spec in Hpe. destruct Hpe as [a Ha].
          rewrite Ha. replace (2 * a)%nat with (a * 2)%nat by lia.
          apply Nat.Div0.mod_mul. }
        lia.
  - rewrite Nat.log2_up_eqn0 by lia.
    destruct fuel as [|fuel]; [reflexivity|].
    cbn [MerkleTree.proof_loop].
    destruct (Nat.ltb_spec 1 (List.length nodes)); [lia|reflexivity].
Qed.

Lemma find_leaf_bound (leaves : list MerkleTree.MerkleNode) (h : string) :
  forall k i, MerkleTree.find_leaf leaves h k = Some i ->
              (k <= i < k + List.length leaves)%nat.
Proof.
  induction leaves as [|leaf rest IH]; intros k i H; cbn [MerkleTree.find_leaf] in H;
    [discriminate|].
  destruct (String.eqb (MerkleTree.node_hash leaf) h).
  - injection H as <-. cbn [List.length]. lia.
  - apply IH in H. cbn [List.length]. lia.
Qed.

(** X26: the proof that [get_proof] returns for a leaf of the tree has one
    step per level: its length is the base-2 logarithm of the number of
    transactions, rounded up. *)
Theorem merkle_proof_length (transactions : list (list (string * json)))
    (leaf_hash : string) :
  In leaf_hash
     (List.map MerkleTree.node_hash (MerkleTree.leaves (MerkleTree.init transactions))) ->
  List.length (fst (MerkleTree.get_proof (MerkleTree.init transactions) leaf_hash))
  = Nat.log2_up (List.length transactions).
Proof.
  intros Hin.
  destruct (find_leaf_nth _ leaf_hash 0 Hin) as (i & x & Hfind & Hx & Hh).
  unfold MerkleTree.get_proof.
  destruct (MerkleTree.root (MerkleTree.init transactions)) as [r|] eqn:Hr.
  2:{ exfalso. revert Hr. unfold MerkleTree.init.
      destruct (List.map _ transactions) as [|l0 ls] eqn:E; [discriminate|].
      rewrite <- E. cbn [MerkleTree.root].
      set (leaves := List.map _ transactions).
      assert (leaves <> []) as Hne by (unfold leaves; rewrite E; discriminate).
      destruct (merkle_loop_single (List.length (List.map MerkleTree.node_hash leaves))
                  (List.map MerkleTree.node_hash leaves) (List.length leaves))
        as [r0 Hr0].
      - lia.
      - rewrite length_map. lia.
      - destruct leaves; [contradiction|discriminate].
      - rewrite <- build_loop_hashes in Hr0.
        destruct (MerkleTree.build_loop (List.length leaves) leaves); discriminate. }
  rewrite Hfind. cbn [fst Nat.add].
  apply find_leaf_bound in Hfind.
  rewrite (proof_loop_length (List.length (MerkleTree.leaves (MerkleTree.init transactions))))
    by lia.
  unfold MerkleTree.init.
  destruct (List.map _ transactions) as [|l0 ls] eqn:E.
  - apply (f_equal (@List.length _)) in E. rewrite length_map in E.
    cbn [List.length] in E. rewrite E. reflexivity.
  - rewrite <- E. cbn [MerkleTree.leaves].
    set (leaves := List.map _ transactions).
    assert (List.length leaves = List.length transactions) as Hl
      by (unfold leaves; apply length_map).
    destruct (Nat.ltb_spec 1 (List.length leaves)) as [H1|H1]; [|congruence].
    rewrite pad_odd_length, <- Hl.
    destruct (Nat.odd (List.length leaves)) eqn:Hodd; [|f_equal; lia].
    rewrite (log2_up_halved (List.length leaves + 1)) by lia.
    rewrite (log2_up_halved (List.length leaves)) by lia.
    rewrite Hodd.
    replace (Nat.odd (List.length leaves + 1)) with false; [rewrite Nat.add_0_r; reflexivity|].
    rewrite Nat.add_1_r, Nat.odd_succ, <- Nat.negb_odd, Hodd. reflexivity.
Qed.

Lemma merkle_proof_length_witness :
  let leaf_hash := hash_data (DataDict (Transaction.to_dict (example_tx 5))) in
  List.length (fst (MerkleTree.get_proof (MerkleTree.init example_transactions) leaf_hash))
  = Nat.log2_up (List.length example_transactions).
Proof.
  apply (merkle_proof_length example_transactions).
  cbn [example_transactions MerkleTree.init List.map MerkleTree.leaves List.length
       Nat.ltb Nat.leb pad_odd Nat.odd Nat.even negb app List.last MerkleTree.node_hash].
  do 4 right. left. reflexivity.
Defined.

(* --------------------------------------------------------------------- *)
(** ** [sort_keys=True]: the order of the keys does not matter *)
(* --------------------------------------------------------------------- *)

Lemma ascii_compare_trans_le (a b c : ascii) :
  (a ?= b)%char <> Gt -> (b ?= c)%char <> Gt -> (a ?= c)%char <> Gt.
Proof.
  unfold Ascii.compare. rewrite !N.compare_gt_iff. lia.
Qed.

Lemma ascii_compare_lt_le (a b c : ascii) :
  ((a ?= b)%char = Lt -> (b ?= c)%char <> Gt -> (a ?= c)%char = Lt) /\
  ((a ?= b)%char <> Gt -> (b ?= c)%char = Lt -> (a ?= c)%char = Lt).
Proof.
  unfold Ascii.compare. rewrite !N.compare_gt_iff, !N.compare_lt_iff. lia.
Qed.

Lemma string_compare_trans (s1 : string) :
  forall s2 s3,
    (s1 ?= s2)%string <> Gt -> (s2 ?= s3)%string <> Gt -> (s1 ?= s3)%string <> Gt.
Proof.
  induction s1 as [|c1 s1 IH]; intros [|c2 s2] [|c3 s3] H12 H23;
    cbn [String.compare] in *; try congruence.
  destruct (ascii_compare_lt_le c1 c2 c3) as [Hlt1 Hlt2].
  destruct (c1 ?= c2)%char eqn:E12; try congruence.
  - destruct (c2 ?= c3)%char eqn:E23; try congruence.
    + apply Ascii.compare_eq_iff in E12, E23. subst c2 c3.
      assert ((c1 ?= c1)%char = Eq) as ->.
      { unfold Ascii.compare. apply N.compare_refl. }
      apply (IH s2 s3); assumption.
    + rewrite Hlt2; congruence.
  - rewrite Hlt1; [congruence|reflexivity|].
    destruct (c2 ?= c3)%char; congruence.
Qed.

Lemma string_leb_trans (s1 s2 s3 : string) :
  String.leb s1 s2 = true -> String.leb s2 s3 = true -> String.leb s1 s3 = true.
Proof.
  unfold String.leb. intros H12 H23.
  pose proof (string_compare_trans s1 s2 s3) as H.
  destruct (s1 ?= s2)%string; try discriminate;
    destruct (s2 ?= s3)%string; try discriminate;
    destruct (s1 ?= s3)%string; try reflexivity;
    exfalso; apply H; congruence.
Qed.

Section InsertItems.
Context {A : Type}.

Lemma insert_item_comm (l : list (string * A)) (a b : string * A) :
  fst a <> fst b ->
  insert_item a (insert_item b l) = insert_item b (insert_item a l).
Proof.
  intros Hab. induction l as [|x l IH].
  - cbn [insert_item].
    destruct (String.leb (fst a) (fst b)) eqn:E1, (String.leb (fst b) (fst a)) eqn:E2;
      try reflexivity.
    + exfalso. apply Hab. apply String.leb_antisym; assumption.
    + destruct (String.leb_total (fst a) (fst b)); congruence.
  - cbn [insert_item].
    destruct (String.leb (fst b) (fst x)) eqn:Ebx, (String.leb (fst a) (fst x)) eqn:Eax;
      cbn [insert_item]; rewrite ?Ebx, ?Eax.
    + destruct (String.leb (fst a) (fst b)) eqn:E1, (String.leb (fst b) (fst a)) eqn:E2;
        try reflexivity.
      * exfalso. apply Hab. apply String.leb_antisym; assumption.
      * destruct (String.leb_total (fst a) (fst b)); congruence.
    + destruct (String.leb (fst a) (fst b)) eqn:E1; [|reflexivity].
      rewrite (string_leb_trans _ _ _ E1 Ebx) in Eax. discriminate.
    + destruct (String.leb (fst b) (fst a)) eqn:E2; [|reflexivity].
      rewrite (string_leb_trans _ _ _ E2 Eax) in Ebx. discriminate.
    + rewrite IH. reflexivity.
Qed.

Lemma sort_items_permutation (l1 l2 : list (string * A)) :
  Permutation l1 l2 -> NoDup (List.map fst l1) -> sort_items l1 = sort_items l2.
Proof.
  unfold sort_items. induction 1 as [|x l l' _ IH|x y l|l l' l'' H1 IH1 H2 IH2];
    intros Hnd; cbn [fold_right List.map] in *.
  - reflexivity.
  - apply NoDup_cons in Hnd as [_ Hnd]. rewrite IH by exact Hnd. reflexivity.
  - apply insert_item_comm.
    apply NoDup_cons in Hnd as [Hy _]. intros E. apply Hy. rewrite E. left.
  - rewrite IH1 by exact Hnd. apply IH2.
    assert (Permutation (List.map fst l) (List.map fst l')) as Hp
      by (apply Permutation_map; exact H1).
    rewrite <- Hp. exact Hnd.
Qed.
End InsertItems.

Lemma json_dumps_dict (d : list (string * json)) :
  json_dumps (JDict d)
  = ("{" +:+ join ", "
              (List.map (fun kv => encode_string (fst kv) +:+ ": " +:+ snd kv)
                 (sort_items
                    (List.map (fun kv => (fst kv, json_dumps (snd kv))) d)))
         +:+ "}")%string.
Proof. reflexivity. Qed.

(** X2: the hash of a dictionary does not depend on the order of its keys:
    for two dictionaries with the same items and pairwise different keys,
    [json.dumps(..., sort_keys=True)] gives the same text and [hash_data] the
    same hash. *)
Theorem hash_data_key_order (d1 d2 : list (string * json)) :
  Permutation d1 d2 -> NoDup (List.map fst d1) ->
  json_dumps (JDict d1) = json_dumps (JDict d2) /\
  hash_data (DataDict d1) = hash_data (DataDict d2).
Proof.
  intros Hperm Hnd.
  assert (json_dumps (JDict d1) = json_dumps (JDict d2)) as H.
  { rewrite !json_dumps_dict. do 4 f_equal.
    apply sort_items_permutation.
    - apply Permutation_map. exact Hperm.
    - rewrite map_map. cbn [fst]. exact Hnd. }
  split; [exact H|]. unfold hash_data. rewrite H. reflexivity.
Qed.

Lemma hash_data_key_order_witness :
  json_dumps (JDict [("sender"%string, JStr "A"); ("amount"%string, JInt 5)])
  = json_dumps (JDict [("amount"%string, JInt 5); ("sender"%string, JStr "A")]) /\
  hash_data (DataDict [("sender"%string, JStr "A"); ("amount"%string, JInt 5)])
  = hash_data (DataDict [("amount"%string, JInt 5); ("sender"%string, JStr "A")]).
Proof.
  apply hash_data_key_order.
  - apply perm_swap.
  - apply NoDup_cons. split; [|apply NoDup_singleton].
    intros H. apply list_elem_of_singleton in H. discriminate.
Defined.

(* --------------------------------------------------------------------- *)
(** ** [Blockchain.get_balance] along the chain *)
(* --------------------------------------------------------------------- *)

Lemma balance_blocks_app (address : string) (c1 c2 : list Block.t) :
  forall balance,
    Blockchain.balance_blocks address (c1 ++ c2) balance
    = (b ← Blockchain.balance_blocks address c1 balance;
       Blockchain.balance_blocks address c2 b).
Proof.
  induction c1 as [|block c1 IH]; intros balance; [reflexivity|].
  cbn [app Blockchain.balance_blocks].
  destruct (Blockchain.balance_txs address (Block.transactions block) balance)
    as [b|e]; [|reflexivity].
  cbn [mbind outcome_bind]. apply IH.
Qed.

Lemma balance_txs_other (address : string) (txs : list tx_object) :
  (forall tx, In tx txs -> tx_sender tx <> address /\ tx_recipient tx <> address) ->
  forall balance, Blockchain.balance_txs address txs balance = Ret balance.
Proof.
  induction txs as [|tx txs IH]; intros Hall balance; [reflexivity|].
  cbn [Blockchain.balance_txs].
  destruct (Hall tx (or_introl eq_refl)) as [Hs Hr].
  apply String.eqb_neq in Hs, Hr. rewrite Hs, Hr.
  cbn [mbind outcome_bind]. apply IH. intros tx' Hin. apply Hall. right. exact Hin.
Qed.

Lemma balance_blocks_other (address : string) (blocks : list Block.t) :
  (forall block tx,
      In block blocks -> In tx (Block.transactions block) ->
      tx_sender tx <> address /\ tx_recipient tx <> address) ->
  forall balance, Blockchain.balance_blocks address blocks balance = Ret balance.
Proof.
  induction blocks as [|block blocks IH]; intros Hall balance; [reflexivity|].
  cbn [Blockchain.balance_blocks].
  rewrite balance_txs_other
    by (intros tx Hin; apply (Hall block tx); [left; reflexivity|exact Hin]).
  cbn [mbind outcome_bind]. apply IH.
  intros b tx Hb Hin. apply (Hall b tx); [right; exact Hb|exact Hin].
Qed.

(** X17: [Blockchain.get_balance] runs along the chain: the balance over a
    chain extended by [later] is the loop over [later] started from the
    balance of the chain; blocks in which the address neither sends nor
    receives leave the balance as it is, and an address that no transaction
    names has the balance [0.0]. *)
Theorem get_balance_continues (self : Blockchain.t) (later : list Block.t)
    (address : string) :
  let self' := Blockchain.set_chain self (Blockchain.chain self ++ later) in
  Blockchain.get_balance self' address
  = (balance ← Blockchain.get_balance self address;
     Blockchain.balance_blocks address later balance) /\
  ((forall block tx,
       In block later -> In tx (Block.transactions block) ->
       tx_sender tx <> address /\ tx_recipient tx <> address) ->
   Blockchain.get_balance self' address = Blockchain.get_balance self address) /\
  ((forall block tx,
       In block (Blockchain.chain self) -> In tx (Block.transactions block) ->
       tx_sender tx <> address /\ tx_recipient tx <> address) ->
   Blockchain.get_balance self address = Ret (S754_zero false)).
Proof.
  cbv zeta. unfold Blockchain.get_balance.
  cbn [Blockchain.set_chain Blockchain.chain].
  split; [apply balance_blocks_app|]. split.
  - intros Hall. rewrite balance_blocks_app.
    destruct (Blockchain.balance_blocks address (Blockchain.chain self) _)
      as [b|e]; [|reflexivity].
    cbn [mbind outcome_bind]. apply balance_blocks_other. exact Hall.
  - intros Hall. apply balance_blocks_other. exact Hall.
Qed.

(* --------------------------------------------------------------------- *)
(** ** [Wallet.create_transaction] *)
(* --------------------------------------------------------------------- *)

Lemma calculate_hash_digest (t : WalletTransaction.t) :
  Wallet.bytes_fromhex (WalletTransaction.calculate_hash t)
  = Ret (SHA256.digest
           (utf8_encode
              (json_dumps
                 (JDict (WalletTransaction.pop_signature
                           (WalletTransaction.to_dict t)))))).
Proof. unfold WalletTransaction.calculate_hash. apply bytes_fromhex_hex. Qed.

(** X21: no wallet can pay to a generated address: [create_transaction] with
    a recipient made by [_generate_address] raises [ValueError] and leaves the
    wallet, and its nonce, as they were, whatever the amount, the fee and the
    data. *)
Theorem create_transaction_rejects_generated
    (ecdsa_sign : bytes -> outcome bytes) (b64encode : bytes -> string)
    (now : spec_float) (self : Wallet.t) (public_bytes : bytes)
    (amount fee : pynum) (data : option (list (string * json))) :
  exists recipient,
    Wallet._generate_address public_bytes = Some recipient /\
    Wallet.create_transaction ecdsa_sign b64encode now self recipient amount fee data
    = (self, Raise ValueError).
Proof.
  destruct (generated_address_invalid public_bytes) as (recipient & Hg & Hv).
  exists recipient. split; [exact Hg|].
  unfold Wallet.create_transaction. rewrite Hv. reflexivity.
Qed.

(** X22: for a recipient that [_is_valid_address] accepts, an amount that is
    not [<= 0] and a fee that is not [< 0], [create_transaction] returns a
    transaction with the wallet's address as sender, the wallet's nonce and
    the given fields, and advances the nonce by one; [verify_transaction]
    accepts the transaction under the wallet's public key (given that the
    signing key matches the public key and that base64 decoding undoes
    encoding). *)
Theorem create_transaction_verifies
    (public_key : Type)
    (load_pem_public_key : bytes -> outcome public_key)
    (b64decode_str : string -> outcome bytes)
    (ecdsa_verify : public_key -> bytes -> bytes -> outcome unit)
    (ecdsa_sign : bytes -> outcome bytes) (b64encode : bytes -> string)
    (key : public_key) (public_key_bytes : bytes)
    (now : spec_float) (self : Wallet.t) (recipient : string)
    (amount fee : pynum) (data : option (list (string * json))) :
  load_pem_public_key public_key_bytes = Ret key ->
  (forall b, b64decode_str (b64encode b) = Ret b) ->
  (forall d, exists s, ecdsa_sign d = Ret s) ->
  (forall d s, ecdsa_sign d = Ret s -> ecdsa_verify key s d = Ret tt) ->
  Wallet._is_valid_address recipient = true ->
  num_le_zero amount = false ->
  Wallet.num_lt_zero fee = false ->
  exists transaction,
    Wallet.create_transaction ecdsa_sign b64encode now self recipient amount fee data
    = (Wallet.set_nonce self (Wallet.nonce self + 1), Ret transaction) /\
    WalletTransaction.sender transaction = Wallet.address self /\
    WalletTransaction.recipient transaction = recipient /\
    WalletTransaction.amount transaction = amount /\
    WalletTransaction.fee transaction = fee /\
    WalletTransaction.nonce transaction = Wallet.nonce self /\
    WalletTransaction.timestamp transaction = PyFloat now /\
    WalletTransaction.data transaction = data /\
    Wallet.verify_transaction public_key load_pem_public_key b64decode_str
      ecdsa_verify transaction public_key_bytes
    = Ret true.
Proof.
  intros Hload Hb64 Hsign Hverify Hvalid Hamount Hfee.
  unfold Wallet.create_transaction, Wallet._sign_transaction.
  rewrite Hvalid, Hamount, Hfee. cbn [negb]. cbv zeta.
  set (t0 := WalletTransaction.mk (Wallet.address self) recipient amount
               (PyFloat now) (Wallet.nonce self) fee data None).
  rewrite (calculate_hash_digest t0). cbn [mbind outcome_bind].
  set (digest := SHA256.digest _).
  destruct (Hsign digest) as [s Hs]. rewrite Hs. cbn [mbind outcome_bind].
  eexists. split; [reflexivity|].
  repeat (split; [reflexivity|]).
  unfold Wallet.verify_transaction, Wallet.b64decode.
  rewrite Hload. cbn [mbind outcome_bind WalletTransaction.set_signature
                      WalletTransaction.signature].
  rewrite Hb64. cbn [mbind outcome_bind].
  change (WalletTransaction.mk (WalletTransaction.sender t0)
            (WalletTransaction.recipient t0) (WalletTransaction.amount t0)
            (WalletTransaction.timestamp t0) (WalletTransaction.nonce t0)
            (WalletTransaction.fee t0) (WalletTransaction.data t0)
            (Some (b64encode s)))
    with (WalletTransaction.set_signature t0 (Some (b64encode s))).
  rewrite calculate_hash_set_signature, (calculate_hash_digest t0).
  cbn [mbind outcome_bind]. fold digest.
  rewrite (Hverify digest s Hs). reflexivity.
Qed.

Lemma create_transaction_verifies_witness :
  let ecdsa_sign := fun d : bytes => Ret d in
  let ecdsa_verify :=
    fun (_ : unit) (s d : bytes) =>
      if bool_decide (s = d) then Ret tt else Raise InvalidSignature in
  let self := Wallet.mk "1.0.0" "A" [] 7 in
  exists transaction,
    Wallet.create_transaction ecdsa_sign string_of_list_byte example_now self
      "31nM1WuowNDzocNxPPW9NQWJEtwWpjfcLj" (PyInt 5) (PyInt 0) None
    = (Wallet.set_nonce self (Wallet.nonce self + 1), Ret transaction) /\
    WalletTransaction.sender transaction = Wallet.address self /\
    WalletTransaction.recipient transaction = "31nM1WuowNDzocNxPPW9NQWJEtwWpjfcLj"%string /\
    WalletTransaction.amount transaction = PyInt 5 /\
    WalletTransaction.fee transaction = PyInt 0 /\
    WalletTransaction.nonce transaction = Wallet.nonce self /\
    WalletTransaction.timestamp transaction = PyFloat example_now /\
    WalletTransaction.data transaction = None /\
    Wallet.verify_transaction unit (fun _ => Ret tt)
      (fun s => Ret (list_byte_of_string s)) ecdsa_verify transaction []
    = Ret true.
Proof.
  cbv zeta.
  apply (create_transaction_verifies unit (fun _ => Ret tt)
           (fun s => Ret (list_byte_of_string s))
           (fun (_ : unit) (s d : bytes) =>
              if bool_decide (s = d) then Ret tt else Raise InvalidSignature)
           (fun d : bytes => Ret d) string_of_list_byte tt []).
  - reflexivity.
  - intros b. f_equal. apply list_byte_of_string_of_list_byte.
  - intros d. exists d. reflexivity.
  - intros d s H. injection H as <-.
    rewrite bool_decide_eq_true_2 by reflexivity. reflexivity.
  - exact example_address_valid.
  - reflexivity.
  - reflexivity.
Defined.

(* --------------------------------------------------------------------- *)
(** ** Blocks as dictionaries *)
(* --------------------------------------------------------------------- *)

Lemma transaction_from_to_dict (default_timestamp : spec_float) (t : Transaction.t) :
  Transaction.from_dict default_timestamp (Transaction.to_dict t) = Some (Ret t).
Proof.
  destruct t as [sender recipient amount signature timestamp].
  destruct amount, signature, timestamp; reflexivity.
Qed.

Lemma wallet_transaction_from_to_dict (default_timestamp : spec_float)
    (w : WalletTransaction.t) :
  Transaction.from_dict default_timestamp (WalletTransaction.to_dict w)
  = Some (Raise TypeError).
Proof.
  unfold WalletTransaction.to_dict.
  destruct (WalletTransaction.data w), (WalletTransaction.signature w); reflexivity.
Qed.

Lemma transactions_from_to_dict (default_timestamp : spec_float)
    (transactions : list tx_object) :
  forallb isinstance_Transaction transactions = true ->
  Block.transactions_from default_timestamp
    (List.map (fun tx => JDict (tx_to_dict tx)) transactions)
  = Some (Ret transactions).
Proof.
  induction transactions as [|tx txs IH]; intros H; [reflexivity|].
  cbn [forallb] in H. apply andb_true_iff in H as [Htx Htxs].
  destruct tx as [t|w]; [|discriminate].
  cbn [List.map Block.transactions_from tx_to_dict].
  rewrite transaction_from_to_dict. cbn [partial_bind].
  rewrite (IH Htxs). reflexivity.
Qed.

Lemma transactions_from_wallet (default_timestamp : spec_float)
    (transactions : list tx_object) (w : WalletTransaction.t) :
  In (WalletTx w) transactions ->
  Block.transactions_from default_timestamp
    (List.map (fun tx => JDict (tx_to_dict tx)) transactions)
  = Some (Raise TypeError).
Proof.
  induction transactions as [|tx txs IH]; intros H; [destruct H|].
  cbn [List.map Block.transactions_from].
  destruct tx as [t|w'].
  - cbn [tx_to_dict]. rewrite transaction_from_to_dict. cbn [partial_bind].
    destruct H as [H|H]; [discriminate|]. rewrite (IH H). reflexivity.
  - cbn [tx_to_dict]. rewrite wallet_transaction_from_to_dict. reflexivity.
Qed.

Lemma block_from_to_dict (now default_timestamp : spec_float) (b : Block.t) :
  Block.from_dict now default_timestamp (Block.to_dict b)
  = partial_bind
      (Block.transactions_from default_timestamp
         (List.map (fun tx => JDict (tx_to_dict tx)) (Block.transactions b)))
      (fun transactions =>
         Some (Ret (Block.set_hash
                      (Block.init now (Block.miner b) transactions
                         (Block.previous_hash b) (Some (Block.timestamp b))
                         (Block.nonce b) (Block.difficulty b))
                      (Block.hash b)))).
Proof.
  unfold Block.from_dict, Block.to_dict.
  cbn [dict_get List.find fst snd String.eqb Ascii.eqb Bool.eqb partial_bind
       Block.transactions_of].
  destruct (Block.transactions_from _ _) as [[txs|e]|]; [|reflexivity..].
  cbn [partial_bind as_str as_int].
  destruct (Block.timestamp b); reflexivity.
Qed.

(** X27: [Block.from_dict] undoes [Block.to_dict]: for a block whose
    transactions are [block.py] transactions the result is the block that the
    constructor builds from the fields [miner], [transactions],
    [previous_hash], [timestamp], [nonce] and [difficulty], with the stored
    hash; it is the block itself when its version is ['1.0'], its timestamp is
    truthy and its Merkle root is the one of its transactions. *)
Theorem block_dict_round_trip (now default_timestamp : spec_float) (b : Block.t) :
  forallb isinstance_Transaction (Block.transactions b) = true ->
  let rebuilt :=
    Block.set_hash
      (Block.init now (Block.miner b) (Block.transactions b)
         (Block.previous_hash b) (Some (Block.timestamp b))
         (Block.nonce b) (Block.difficulty b))
      (Block.hash b) in
  Block.from_dict now default_timestamp (Block.to_dict b) = Some (Ret rebuilt) /\
  (Block.version b = "1.0"%string ->
   num_truthy (Block.timestamp b) = true ->
   Block.merkle_root b = Block._calculate_merkle_root (Block.transactions b) ->
   rebuilt = b).
Proof.
  intros Htxs. cbv zeta. split.
  - rewrite block_from_to_dict, (transactions_from_to_dict _ _ Htxs). reflexivity.
  - intros Hversion Htime Hroot.
    unfold Block.init. rewrite Htime. cbv zeta.
    cbn [Block.set_merkle_root Block.set_hash Block.version Block.timestamp
         Block.previous_hash Block.miner Block.transactions Block.nonce
         Block.difficulty Block.merkle_root Block.hash].
    rewrite <- Hroot, <- Hversion. destruct b; reflexivity.
Qed.

Lemma block_dict_round_trip_witness :
  let rebuilt :=
    Block.set_hash
      (Block.init example_now (Block.miner example_B2) (Block.transactions example_B2)
         (Block.previous_hash example_B2) (Some (Block.timestamp example_B2))
         (Block.nonce example_B2) (Block.difficulty example_B2))
      (Block.hash example_B2) in
  Block.from_dict example_now example_now (Block.to_dict example_B2)
  = Some (Ret rebuilt) /\
  (Block.version example_B2 = "1.0"%string ->
   num_truthy (Block.timestamp example_B2) = true ->
   Block.merkle_root example_B2
   = Block._calculate_merkle_root (Block.transactions example_B2) ->
   rebuilt = example_B2).
Proof.
  apply (block_dict_round_trip example_now example_now example_B2). reflexivity.
Defined.

(** X28: a block that holds a wallet transaction is not rebuilt: the
    dictionary of a wallet transaction has the keys [nonce] and [fee], which
    the [Transaction] of [block.py] does not accept, and [Block.from_dict]
    raises [TypeError]. *)
Theorem block_dict_wallet_transaction (now default_timestamp : spec_float)
    (b : Block.t) (w : WalletTransaction.t) :
  In (WalletTx w) (Block.transactions b) ->
  Block.from_dict now default_timestamp (Block.to_dict b) = Some (Raise TypeError).
Proof.
  intros H. rewrite block_from_to_dict, (transactions_from_wallet _ _ w H).
  reflexivity.
Qed.

Lemma block_dict_wallet_transaction_witness :
  Block.from_dict example_now example_now
    (Block.to_dict
       (Block.mk "1.0" (PyInt 1) "p" "M" [WalletTx example_wallet_tx] 0 1 "r" "h"))
  = Some (Raise TypeError).
Proof.
  apply (block_dict_wallet_transaction example_now example_now _ example_wallet_tx).
  left. reflexivity.
Defined.

(* --------------------------------------------------------------------- *)
(** ** The drain of the pending set ends *)
(* --------------------------------------------------------------------- *)





Section DrainEnds.
Variable add : Blockchain.t -> Block.t -> Blockchain.t * outcome bool.
Hypothesis add_effect : add_block_effect add.
Hypothesis add_NoDup :
  forall s b, NoDup (pending_keys s) -> NoDup (pending_keys (fst (add s b))).


End DrainEnds.


